(** * mcp-kit: the local coordination core

    A shallow embedding of the lock-file election
    ([src/server/local/node-instance/index.ts]), the reverse proxy
    ([src/server/local/proxy/index.ts]) and the high-level starter
    ([src/server/server-starter.ts]), with the properties the
    specification states about them.

    Layout: the JavaScript and Node.js environment the code runs in
    (thrown values, JSON, the [fs] module, the clock, the process table,
    loopback HTTP), then the repository's functions under their own
    names, then the theorems. *)

From stdpp Require Import gmap strings list pretty.
From Stdlib Require Import Ascii String ZArith Lia.

Open Scope string_scope.
Open Scope Z_scope.

(** Records have eta: a record rebuilt from its own fields is the
    record itself. *)
Set Primitive Projections.

(* ===================================================================== *)
(** * JavaScript values and exceptions *)
(* ===================================================================== *)

(** [err.code] of the errors Node's [fs] module throws. *)
Inductive Errno :=
  EEXIST | EACCES | ENOENT | ENOTDIR | EISDIR | EROFS | ENOSPC | EIO
| EBADF | EMFILE | EPERM | ESRCH | EADDRINUSE.

#[global] Instance Errno_eq_dec : EqDecision Errno.
Proof. solve_decision. Defined.

(** The errors with which the kernel refuses an operation for a reason
    of its own: permissions, a missing or read-only parent, a full
    volume, a failing device.  "Already exists" is not among them: that
    one is reported when, and only when, the name is there. *)
Inductive Fault :=
  FaultEACCES | FaultENOENT | FaultENOTDIR | FaultEROFS | FaultENOSPC
| FaultEIO | FaultEBADF | FaultEMFILE | FaultEPERM.

Definition fault_code (c : Fault) : Errno :=
  match c with
  | FaultEACCES => EACCES | FaultENOENT => ENOENT | FaultENOTDIR => ENOTDIR
  | FaultEROFS => EROFS | FaultENOSPC => ENOSPC | FaultEIO => EIO
  | FaultEBADF => EBADF | FaultEMFILE => EMFILE | FaultEPERM => EPERM
  end.

(** What a [throw] carries. *)
Inductive JsError :=
| SystemError (code : Errno) (syscall : string)
| Error (message : string)
| TypeError (message : string)
| SyntaxError (message : string).

(** [err.code]: only system errors have one. *)
Definition code (err : JsError) : option Errno :=
  match err with
  | SystemError c _ => Some c
  | _ => None
  end.

Definition errno_name (c : Errno) : string :=
  match c with
  | EEXIST => "EEXIST" | EACCES => "EACCES" | ENOENT => "ENOENT"
  | ENOTDIR => "ENOTDIR" | EISDIR => "EISDIR" | EROFS => "EROFS"
  | ENOSPC => "ENOSPC" | EIO => "EIO" | EBADF => "EBADF" | EMFILE => "EMFILE"
  | EPERM => "EPERM" | ESRCH => "ESRCH" | EADDRINUSE => "EADDRINUSE"
  end.

(** [error instanceof Error ? error.message : 'Unknown error']: every
    value of [JsError] is an [Error] instance.  The message of a system
    error is abridged to its code and system call. *)
Definition message (err : JsError) : string :=
  match err with
  | SystemError c syscall => errno_name c +:+ ": " +:+ syscall
  | Error m | TypeError m | SyntaxError m => m
  end.

(** The outcome of evaluating an expression that may throw. *)
Inductive Result (A : Type) :=
| Ok (a : A)
| Throw (err : JsError).
Arguments Ok {A} a.
Arguments Throw {A} err.

(** JSON values as [JSON.parse] produces them.  Numbers are integers:
    the lock record holds a PID and a millisecond timestamp. *)
#[warnings="-register-all"]
Inductive json :=
| JNull
| JBool (b : bool)
| JNumber (n : Z)
| JString (s : string)
| JArray (items : list json)
| JObject (fields : list (string * json)).

(** The builtin [JSON] object.  [JSON_parse] answers [None] where the
    builtin throws a [SyntaxError]. *)
Class JSON := {
  JSON_parse : string → option json;
  JSON_stringify : json → string;
  (** the empty text is not JSON *)
  JSON_parse_empty : JSON_parse EmptyString = None;
}.

(** Own-property lookup on a parsed object; a later duplicate key wins,
    as in [JSON.parse]. *)
Fixpoint assoc_last (k : string) (fields : list (string * json)) : option json :=
  match fields with
  | [] => None
  | (k', v) :: rest =>
      match assoc_last k rest with
      | Some v' => Some v'
      | None => if decide (k = k') then Some v else None
      end
  end.

(** [v.k] for a parsed JSON value [v]: a [TypeError] on [null], the
    property on an object, [undefined] on everything else (none of the
    names read here is a builtin property of a primitive or an array). *)
Definition get_prop (v : json) (k : string) : Result (option json) :=
  match v with
  | JNull => Throw (TypeError "Cannot read properties of null")
  | JObject fields => Ok (assoc_last k fields)
  | _ => Ok None
  end.

(* ===================================================================== *)
(** * The environment: file system, clock, process table, loopback HTTP *)
(* ===================================================================== *)

(** A directory entry.  A regular file carries the inode it names, so
    that a descriptor keeps designating its file after the name is
    unlinked or reused. *)
Inductive Node :=
| File (ino : nat) (data : string)
| Dir.

(** The file system shared by every process on the host.
    [entry_fault p] is the error with which the kernel refuses to add
    or remove the name [p] (no write permission on the parent directory,
    read-only or full volume, missing parent); [read_fault p] the error
    with which it refuses to read [p]; [io_fault] the error of a write
    or close on an open descriptor. *)
Record Fs := {
  entries : gmap string Node;
  next_ino : nat;
  entry_fault : string → option Fault;
  read_fault : string → option Fault;
  io_fault : option Fault;
}.

Definition with_entries (f : gmap string Node → gmap string Node) (fs : Fs) : Fs :=
  {| entries := f (entries fs); next_ino := next_ino fs;
     entry_fault := entry_fault fs; read_fault := read_fault fs;
     io_fault := io_fault fs |}.

(** [fs.openSync(path, 'wx')]: O_CREAT|O_EXCL|O_WRONLY.  An existing
    name of any kind, a directory included, is "already exists"
    (the repository's test 'permission error (directory instead of
    file) prevents becoming main' relies on exactly this).  The check
    and the creation are one step of the kernel.  The descriptor
    returned is identified with the inode created. *)
Definition openSync_wx (path : string) (fs : Fs) : Result nat * Fs :=
  match entries fs !! path with
  | Some _ => (Throw (SystemError EEXIST "open"), fs)
  | None =>
      match entry_fault fs path with
      | Some c => (Throw (SystemError (fault_code c) "open"), fs)
      | None =>
          (Ok (next_ino fs),
           {| entries := <[path := File (next_ino fs) EmptyString]> (entries fs);
              next_ino := S (next_ino fs);
              entry_fault := entry_fault fs; read_fault := read_fault fs;
              io_fault := io_fault fs |})
      end
  end.

Definition write_ino (fd : nat) (data : string) (n : Node) : Node :=
  match n with
  | File ino old => if decide (ino = fd) then File ino data else File ino old
  | Dir => Dir
  end.

(** [fs.writeFileSync(fd, data)] on a descriptor. *)
Definition writeFileSync_fd (fd : nat) (data : string) (fs : Fs) : Result unit * Fs :=
  match io_fault fs with
  | Some c => (Throw (SystemError (fault_code c) "write"), fs)
  | None => (Ok tt, with_entries (fmap (write_ino fd data)) fs)
  end.

(** [fs.closeSync(fd)]. *)
Definition closeSync (fd : nat) (fs : Fs) : Result unit * Fs :=
  match io_fault fs with
  | Some c => (Throw (SystemError (fault_code c) "close"), fs)
  | None => (Ok tt, fs)
  end.

(** [fs.existsSync(path)]: never throws. *)
Definition existsSync (path : string) (fs : Fs) : bool :=
  match entries fs !! path with
  | Some _ => true
  | None => false
  end.

(** [fs.readFileSync(path, 'utf-8')]. *)
Definition readFileSync (path : string) (fs : Fs) : Result string :=
  match entries fs !! path with
  | None => Throw (SystemError ENOENT "open")
  | Some Dir => Throw (SystemError EISDIR "read")
  | Some (File _ data) =>
      match read_fault fs path with
      | Some c => Throw (SystemError (fault_code c) "open")
      | None => Ok data
      end
  end.

(** [fs.writeFileSync(path, data, { flag: 'w' })]: create or truncate. *)
Definition writeFileSync_path (path data : string) (fs : Fs) : Result unit * Fs :=
  match entries fs !! path with
  | Some Dir => (Throw (SystemError EISDIR "open"), fs)
  | Some (File ino _) =>
      match io_fault fs with
      | Some c => (Throw (SystemError (fault_code c) "write"), fs)
      | None => (Ok tt, with_entries (insert path (File ino data)) fs)
      end
  | None =>
      match entry_fault fs path with
      | Some c => (Throw (SystemError (fault_code c) "open"), fs)
      | None =>
          (Ok tt,
           {| entries := <[path := File (next_ino fs) data]> (entries fs);
              next_ino := S (next_ino fs);
              entry_fault := entry_fault fs; read_fault := read_fault fs;
              io_fault := io_fault fs |})
      end
  end.

(** [fs.unlinkSync(path)]. *)
Definition unlinkSync (path : string) (fs : Fs) : Result unit * Fs :=
  match entries fs !! path with
  | None => (Throw (SystemError ENOENT "unlink"), fs)
  | Some Dir => (Throw (SystemError EISDIR "unlink"), fs)
  | Some (File _ _) =>
      match entry_fault fs path with
      | Some c => (Throw (SystemError (fault_code c) "unlink"), fs)
      | None => (Ok tt, with_entries (delete path) fs)
      end
  end.

(** What one process sees of the host.  [kill_fault p] is the error of
    [process.kill(p, 0)] ([None]: the signal could be delivered);
    [port_busy p t] tells whether a [listen] on port [p] at time [t]
    fails; [control p m u] is the loopback response (status, body) to
    method [m] on path [u] of port [p], [None] on a transport error. *)
Record World := {
  fs : Fs;
  now : Z;
  process_pid : Z;
  kill_fault : Z → option Errno;
  port_busy : Z → Z → bool;
  control : Z → string → string → option (Z * string);
}.

Definition with_fs (f : Fs) (w : World) : World :=
  {| fs := f; now := now w; process_pid := process_pid w;
     kill_fault := kill_fault w; port_busy := port_busy w;
     control := control w |}.

Definition with_now (t : Z) (w : World) : World :=
  {| fs := fs w; now := t; process_pid := process_pid w;
     kill_fault := kill_fault w; port_busy := port_busy w;
     control := control w |}.

(* ===================================================================== *)
(** * Sequential code with exceptions: a state and error monad *)
(* ===================================================================== *)

Definition M (S A : Type) : Type := S → Result A * S.

Definition ret {S A} (a : A) : M S A := λ s, (Ok a, s).

Definition throw {S A} (err : JsError) : M S A := λ s, (Throw err, s).

Definition bind {S A B} (m : M S A) (k : A → M S B) : M S B :=
  λ s, match m s with
       | (Ok a, s') => k a s'
       | (Throw err, s') => (Throw err, s')
       end.

(** [try { body } catch (err) { handler }]: the effects of [body] up to
    the throw stay. *)
Definition try_catch {S A} (body : M S A) (handler : JsError → M S A) : M S A :=
  λ s, match body s with
       | (Ok a, s') => (Ok a, s')
       | (Throw err, s') => handler err s'
       end.

Definition gets {S A} (f : S → A) : M S A := λ s, (Ok (f s), s).

Definition modify {S} (f : S → S) : M S unit := λ s, (Ok tt, f s).

Definition lift_result {S A} (r : Result A) : M S A := λ s, (r, s).

#[global] Instance M_ret {S} : MRet (M S) := λ A a, ret a.
#[global] Instance M_bind {S} : MBind (M S) := λ A B k m, bind m k.

(* ===================================================================== *)
(** * node-instance/index.ts: the instance manager *)
(* ===================================================================== *)

Record InstanceLock := {
  pid : Z;
  version : string;
  timestamp : Z;
}.

Inductive InstanceRole := MAIN | PROXY | UNKNOWN.

Record InstanceManagerOptions := {
  opt_lockPath : option string;
  opt_port : option Z;
  opt_getVersion : option (unit → string);
}.

(** [a ?? b] *)
Definition nullish {A} (a : option A) (b : A) : A :=
  match a with Some x => x | None => b end.
Infix "??" := nullish (at level 45, right associativity).

(** [path.join(dir, name)] for a directory without trailing slash. *)
Definition path_join (dir name : string) : string := dir +:+ "/" +:+ name.

Module InstanceManager.

Definition defaultVersion : string := "0.1.0".

(** The fields of the class. *)
Record t := {
  _lockPath : string;
  _port : Z;
  _versionGetter : unit → string;
  role : InstanceRole;
  proxyPort : option Z;
  lock : option InstanceLock;
}.

(** A running manager: the object and the host around it. *)
Record St := {
  this : t;
  world : World;
}.

Definition on_world (f : World → World) (s : St) : St :=
  {| this := this s; world := f (world s) |}.

Definition set_lock (l : option InstanceLock) (s : St) : St :=
  {| this := {| _lockPath := _lockPath (this s); _port := _port (this s);
                _versionGetter := _versionGetter (this s);
                role := role (this s); proxyPort := proxyPort (this s);
                lock := l |};
     world := world s |}.

Definition set_role (r : InstanceRole) (s : St) : St :=
  {| this := {| _lockPath := _lockPath (this s); _port := _port (this s);
                _versionGetter := _versionGetter (this s);
                role := r; proxyPort := proxyPort (this s);
                lock := lock (this s) |};
     world := world s |}.

(** [constructor(opts)]; [tmpdir] is the value of [os.tmpdir()]. *)
Definition constructor (tmpdir : string) (opts : InstanceManagerOptions) : t :=
  {| _lockPath := opt_lockPath opts ?? path_join tmpdir "mcp-kit-8989.lock";
     _port := opt_port opts ?? 8989;
     _versionGetter := opt_getVersion opts ?? (λ _, defaultVersion);
     role := UNKNOWN;
     proxyPort := None;
     lock := None |}.

(** The getters. *)
Definition lockPath : M St string := gets (λ s, _lockPath (this s)).
Definition port : M St Z := gets (λ s, _port (this s)).
Definition get_version : M St string := gets (λ s, _versionGetter (this s) tt).

(** Node's API, lifted to the running manager. *)
Definition lift_fs {A} (f : Fs → Result A * Fs) : M St A :=
  λ s, let '(r, fs') := f (fs (world s)) in (r, on_world (with_fs fs') s).
Definition Date_now : M St Z := gets (λ s, now (world s)).
Definition get_process_pid : M St Z := gets (λ s, process_pid (world s)).
Definition process_kill (p : Z) : M St unit :=
  λ s, match kill_fault (world s) p with
       | Some c => (Throw (SystemError c "kill"), s)
       | None => (Ok tt, s)
       end.
(** [await new Promise(r => setTimeout(r, ms))] *)
Definition sleep (ms : Z) : M St unit :=
  modify (on_world (λ w, with_now (now w + ms) w)).

Section WithJSON.
Context `{JSON}.

Definition lock_to_json (l : InstanceLock) : json :=
  JObject [("pid", JNumber (pid l)); ("version", JString (version l));
           ("timestamp", JNumber (timestamp l))].

Definition tryBecomeMain : M St bool :=
  try_catch
    (p ← lockPath;
     fd ← lift_fs (openSync_wx p);
     pid ← get_process_pid;
     v ← get_version;
     ts ← Date_now;
     let lock := {| pid := pid; version := v; timestamp := ts |} in
     lift_fs (writeFileSync_fd fd (JSON_stringify (lock_to_json lock)));;
     lift_fs (closeSync fd);;
     modify (set_lock (Some lock));;
     modify (set_role MAIN);;
     ret true)
    (λ err, if decide (code err = Some EEXIST) then ret false else throw err).

(** [JSON.parse(raw)] and the three [typeof] tests of [readLock], left
    to right: [typeof x === 'number'] holds of the values [JNumber _]
    and [typeof x === 'string'] of the values [JString _]. *)
Definition parse_lock (raw : string) : M St (option InstanceLock) :=
  match JSON_parse raw with
  | None => throw (SyntaxError "Unexpected token")
  | Some lock =>
      p ← lift_result (get_prop lock "pid");
      match p with
      | Some (JNumber pid) =>
          v ← lift_result (get_prop lock "version");
          match v with
          | Some (JString version) =>
              t ← lift_result (get_prop lock "timestamp");
              match t with
              | Some (JNumber timestamp) =>
                  let l := {| pid := pid; version := version;
                              timestamp := timestamp |} in
                  modify (set_lock (Some l));;
                  ret (Some l)
              | _ => ret None
              end
          | _ => ret None
          end
      | _ => ret None
      end
  end.

Definition readLock : M St (option InstanceLock) :=
  p ← lockPath;
  ex ← gets (λ s, existsSync p (fs (world s)));
  if negb ex then
    modify (set_lock None);;
    ret None
  else
    try_catch
      (p ← lockPath;
       raw ← gets (λ s, readFileSync p (fs (world s))) ≫= lift_result;
       parse_lock raw)
      (λ _, ret None).

Definition writeLock : M St unit :=
  pid ← get_process_pid;
  v ← get_version;
  ts ← Date_now;
  let lock := {| pid := pid; version := v; timestamp := ts |} in
  p ← lockPath;
  lift_fs (writeFileSync_path p (JSON_stringify (lock_to_json lock)));;
  modify (set_lock (Some lock)).

Definition removeLock : M St unit :=
  try_catch (p ← lockPath; lift_fs (unlinkSync p)) (λ _, ret tt).

(** [static isPidAlive(pid)] *)
Definition isPidAlive (pid : Z) : M St bool :=
  if pid <=? 0 then ret false
  else try_catch (process_kill pid;; ret true) (λ _, ret false).

(** [json.version || null], at the declared type [string | null]: a
    truthy [version] that is not a string has no counterpart there and
    is read as [null]. *)
Definition version_or_null (v : option json) : option string :=
  match v with
  | Some (JString s) => if decide (s = EmptyString) then None else Some s
  | _ => None
  end.

(** The promise resolves from the 'end' handler, or with [null] from
    the 'error' handler. *)
Definition fetchMainVersion : M St (option string) :=
  p ← port;
  resp ← gets (λ s, control (world s) p "GET" "/__version");
  match resp with
  | None => ret None
  | Some (_, data) =>
      try_catch
        (match JSON_parse data with
         | None => throw (SyntaxError "Unexpected token")
         | Some json =>
             v ← lift_result (get_prop json "version");
             ret (version_or_null v)
         end)
        (λ _, ret None)
  end.

Definition requestMainShutdown : M St bool :=
  p ← port;
  resp ← gets (λ s, control (world s) p "POST" "/__shutdown");
  match resp with
  | None => ret false
  | Some (statusCode, _) => ret (bool_decide (statusCode = 200))
  end.

Definition requestMainTransition : M St bool :=
  p ← port;
  resp ← gets (λ s, control (world s) p "POST" "/__transition");
  match resp with
  | None => ret false
  | Some (statusCode, _) => ret (bool_decide (statusCode = 200))
  end.

(** One [listen] on the port, closed at once when it succeeds. *)
Definition listen_probe (p : Z) : M St unit :=
  λ s, if port_busy (world s) p (now (world s))
       then (Throw (SystemError EADDRINUSE "listen"), s)
       else (Ok tt, s).

(** The [while] loop of [waitForPort]; [fuel] bounds the number of
    iterations (see [waitForPort_fuel]). *)
Fixpoint waitForPort_loop (fuel : nat) (start timeout : Z) : M St bool :=
  match fuel with
  | O => ret false
  | S fuel' =>
      t ← Date_now;
      if t - start <? timeout then
        try_catch
          (p ← port;
           listen_probe p;;
           ret true)
          (λ _, sleep 300;; waitForPort_loop fuel' start timeout)
      else ret false
  end.

(** Every pass through the loop body ends 300 ms later than it began,
    so the loop test fails after at most [timeout / 300 + 1] passes. *)
Definition waitForPort_fuel (timeout : Z) : nat := Z.to_nat (timeout / 300) + 2.

Definition waitForPort (timeoutMs : option Z) : M St bool :=
  let timeout := timeoutMs ?? 10000 in
  start ← Date_now;
  waitForPort_loop (waitForPort_fuel timeout) start timeout.

End WithJSON.

End InstanceManager.

(* ===================================================================== *)
(** * Programs over an interface *)
(* ===================================================================== *)

(** A function that awaits the methods of an object it is handed is a
    tree of calls: each node names the call made and continues with its
    outcome, a value or a rejection. *)
Inductive prog (E : Type → Type) (A : Type) : Type :=
| Ret (a : A)
| Raise (err : JsError)
| Vis {X : Type} (c : E X) (k : Result X → prog E A).
Arguments Ret {E A} a.
Arguments Raise {E A} err.
Arguments Vis {E A X} c k.

Fixpoint prog_bind {E A B} (p : prog E A) (f : A → prog E B) : prog E B :=
  match p with
  | Ret a => f a
  | Raise err => Raise err
  | Vis c k => Vis c (λ r, prog_bind (k r) f)
  end.

#[global] Instance prog_ret {E} : MRet (prog E) := λ A a, Ret a.
#[global] Instance prog_mbind {E} : MBind (prog E) := λ A B f p, prog_bind p f.

(** [await obj.method(...)] outside any [try]: a rejection propagates. *)
Definition call {E X} (c : E X) : prog E X :=
  Vis c (λ r, match r with Ok x => Ret x | Throw err => Raise err end).

(** Running a program against an implementation of the interface that
    lives in a state [W]; the calls made are recorded in order, each with
    its outcome. *)
Fixpoint run {E : Type → Type} {Ev W A : Type}
    (log : ∀ X, E X → Result X → Ev)
    (h : ∀ X, E X → M W X)
    (p : prog E A) (w : W) : Result A * W * list Ev :=
  match p with
  | Ret a => (Ok a, w, [])
  | Raise err => (Throw err, w, [])
  | Vis c k =>
      let '(r, w') := h _ c w in
      let '(res, w'', tr) := run log h (k r) w' in
      (res, w'', log _ c r :: tr)
  end.

(* ===================================================================== *)
(** * node-instance/index.ts: coordinateInstanceRole *)
(* ===================================================================== *)

(** What [coordinateInstanceRole] asks of its [instanceManager]
    (interface [IInstanceManager]) and of the static
    [InstanceManager.isPidAlive]. *)
Inductive Call : Type → Type :=
| GetVersion : Call (option string)
| GetPort : Call Z
| TryBecomeMain : Call bool
| ReadLock : Call (option InstanceLock)
| RemoveLock : Call unit
| IsPidAlive (pid : Z) : Call bool
| FetchMainVersion : Call (option string)
| RequestMainTransition : Call bool
| WaitForPort (timeoutMs : option Z) : Call bool.

(** One recorded call. *)
Inductive Event :=
| EvGetVersion (r : Result (option string))
| EvGetPort (r : Result Z)
| EvTryBecomeMain (r : Result bool)
| EvReadLock (r : Result (option InstanceLock))
| EvRemoveLock (r : Result unit)
| EvIsPidAlive (pid : Z) (r : Result bool)
| EvFetchMainVersion (r : Result (option string))
| EvRequestMainTransition (r : Result bool)
| EvWaitForPort (timeoutMs : option Z) (r : Result bool).

Definition log_call {X} (c : Call X) : Result X → Event :=
  match c with
  | GetVersion => EvGetVersion
  | GetPort => EvGetPort
  | TryBecomeMain => EvTryBecomeMain
  | ReadLock => EvReadLock
  | RemoveLock => EvRemoveLock
  | IsPidAlive pid => EvIsPidAlive pid
  | FetchMainVersion => EvFetchMainVersion
  | RequestMainTransition => EvRequestMainTransition
  | WaitForPort t => EvWaitForPort t
  end.

Record CoordinateInstanceOptions := {
  desiredVersion : option string;
  waitForPortTimeoutMs : option Z;
  removeStaleLock : option bool;
}.

Inductive MainReason := initial | lock_missing | stale_lock | version_transition.

(** [CoordinateInstanceResult]: status 'main' with role MAIN, or status
    'proxy' with role PROXY and reason 'existing-main'.
    [previousVersion] is [None] where the property is not set. *)
Inductive CoordinateInstanceResult :=
| CoordinateInstanceMainResult
    (reason : MainReason) (previousVersion : option (option string))
| CoordinateInstanceProxyResult (mainVersion : option string).

(** The two errors of the version transition, by the names the
    specification gives them. *)
Definition TransitionDenied : JsError :=
  Error "Failed to transition existing main instance to proxy mode.".
Definition TransitionRaceLost : JsError :=
  Error "Failed to assume main role after successful transition request.".

Definition coordinateInstanceRole (options : CoordinateInstanceOptions)
  : prog Call CoordinateInstanceResult :=
  let waitForPortTimeoutMs := waitForPortTimeoutMs options ?? 10000 in
  let removeStaleLock := removeStaleLock options ?? true in
  desiredVersion ←
    match desiredVersion options with
    | Some v => Ret v
    | None => v ← call GetVersion; Ret (v ?? InstanceManager.defaultVersion)
    end;
  (* lines 360-390: reached from three places below *)
  let from_fetchMainVersion : prog Call CoordinateInstanceResult :=
    mainVersion ← call FetchMainVersion;
    if decide (mainVersion ≠ Some desiredVersion) then
      transitioned ← call RequestMainTransition;
      if negb transitioned then Raise TransitionDenied
      else
        call (WaitForPort (Some waitForPortTimeoutMs));;
        call RemoveLock;;
        became ← call TryBecomeMain;
        if (became : bool)
        then Ret (CoordinateInstanceMainResult version_transition (Some mainVersion))
        else Raise TransitionRaceLost
    else Ret (CoordinateInstanceProxyResult mainVersion) in
  became ← call TryBecomeMain;
  if (became : bool) then Ret (CoordinateInstanceMainResult initial None)
  else if removeStaleLock then
    inspectedLock ← call ReadLock;
    isLockStale ←
      match inspectedLock with
      | None => Ret true
      | Some l => alive ← call (IsPidAlive (pid l)); Ret (negb alive)
      end;
    if (isLockStale : bool) then
      call RemoveLock;;
      became ← call TryBecomeMain;
      if (became : bool) then
        Ret (CoordinateInstanceMainResult
               (match inspectedLock with
                | Some _ => stale_lock
                | None => lock_missing
                end) None)
      else from_fetchMainVersion
    else from_fetchMainVersion
  else from_fetchMainVersion.

(** The class [InstanceManager] as an implementation of the interface. *)
Definition InstanceManager_handle `{JSON} {X} (c : Call X) : M InstanceManager.St X :=
  match c with
  | GetVersion => v ← InstanceManager.get_version; mret (Some v)
  | GetPort => InstanceManager.port
  | TryBecomeMain => InstanceManager.tryBecomeMain
  | ReadLock => InstanceManager.readLock
  | RemoveLock => InstanceManager.removeLock
  | IsPidAlive pid => InstanceManager.isPidAlive pid
  | FetchMainVersion => InstanceManager.fetchMainVersion
  | RequestMainTransition => InstanceManager.requestMainTransition
  | WaitForPort t => InstanceManager.waitForPort t
  end.

(* ===================================================================== *)
(** * A concrete [JSON] *)
(* ===================================================================== *)

(** The theorems below hold for every [JSON]; this one makes the model
    run on concrete lock files.  It reads and prints the JSON grammar
    with integer numbers and with string escapes of one character or of
    a code unit below 256; anything else is a syntax error. *)
Module JsonText.

(** The double quote, code 34. *)
Definition dquote : ascii := ascii_of_nat 34.

Definition is_ws (c : ascii) : bool :=
  let n := nat_of_ascii c in
  bool_decide (n = 32 ∨ n = 9 ∨ n = 10 ∨ n = 13)%nat.

Definition is_digit (c : ascii) : bool :=
  let n := nat_of_ascii c in
  bool_decide (48 ≤ n ≤ 57)%nat.

Definition digit_val (c : ascii) : Z := Z.of_nat (nat_of_ascii c) - 48.

Definition hex_val (c : ascii) : option Z :=
  let n := Z.of_nat (nat_of_ascii c) in
  if bool_decide (48 ≤ n ≤ 57) then Some (n - 48)
  else if bool_decide (97 ≤ n ≤ 102) then Some (n - 87)
  else if bool_decide (65 ≤ n ≤ 70) then Some (n - 55)
  else None.

Fixpoint skip_ws (s : string) : string :=
  match s with
  | String c s' => if is_ws c then skip_ws s' else s
  | EmptyString => EmptyString
  end.

Fixpoint expect (lit s : string) : option string :=
  match lit, s with
  | EmptyString, _ => Some s
  | String a lit', String b s' => if decide (a = b) then expect lit' s' else None
  | String _ _, EmptyString => None
  end.

Fixpoint digits (s : string) (acc : Z) : Z * string :=
  match s with
  | String c s' => if is_digit c then digits s' (acc * 10 + digit_val c) else (acc, s)
  | EmptyString => (acc, s)
  end.

(** int of the grammar: "0" or a digit 1-9 followed by digits; a
    fraction or exponent after it is refused. *)
Definition natural (s : string) : option (Z * string) :=
  match s with
  | String c s' =>
      if is_digit c then
        let '(n, rest) :=
          if decide (c = "0"%char) then (0, s') else digits s' (digit_val c) in
        match rest with
        | String d _ =>
            if is_digit d || bool_decide (d = "."%char ∨ d = "e"%char ∨ d = "E"%char)
            then None else Some (n, rest)
        | EmptyString => Some (n, rest)
        end
      else None
  | EmptyString => None
  end.

Definition number (s : string) : option (Z * string) :=
  match s with
  | String "-" s' => '(n, rest) ← natural s'; Some (- n, rest)
  | _ => natural s
  end.

Definition escape (c : ascii) : option ascii :=
  if decide (c = dquote) then Some c
  else if decide (c = "\"%char) then Some c
  else if decide (c = "/"%char) then Some c
  else if decide (c = "b"%char) then Some (ascii_of_nat 8)
  else if decide (c = "f"%char) then Some (ascii_of_nat 12)
  else if decide (c = "n"%char) then Some (ascii_of_nat 10)
  else if decide (c = "r"%char) then Some (ascii_of_nat 13)
  else if decide (c = "t"%char) then Some (ascii_of_nat 9)
  else None.

(** The characters of a string literal after its opening quote. *)
Fixpoint string_body (s : string) : option (string * string) :=
  match s with
  | EmptyString => None
  | String c s' =>
      if decide (c = dquote) then Some (EmptyString, s')
      else if decide (c = "\"%char) then
        match s' with
        | String "u" (String h1 (String h2 (String h3 (String h4 s'')))) =>
            a ← hex_val h1; b ← hex_val h2; c ← hex_val h3; d ← hex_val h4;
            if bool_decide (a = 0 ∧ b = 0) then
              '(str, rest) ← string_body s'';
              Some (String (ascii_of_nat (Z.to_nat (c * 16 + d))) str, rest)
            else None
        | String e s'' =>
            e' ← escape e;
            '(str, rest) ← string_body s'';
            Some (String e' str, rest)
        | EmptyString => None
        end
      else if bool_decide (nat_of_ascii c < 32)%nat then None
      else '(str, rest) ← string_body s'; Some (String c str, rest)
  end.

Fixpoint value (fuel : nat) (s : string) : option (json * string) :=
  match fuel with
  | O => None
  | S fuel =>
      match skip_ws s with
      | String "n" _ => rest ← expect "null" (skip_ws s); Some (JNull, rest)
      | String "t" _ => rest ← expect "true" (skip_ws s); Some (JBool true, rest)
      | String "f" _ => rest ← expect "false" (skip_ws s); Some (JBool false, rest)
      | String "[" s' =>
          match skip_ws s' with
          | String "]" rest => Some (JArray [], rest)
          | _ => '(items, rest) ← elements fuel s'; Some (JArray items, rest)
          end
      | String "{" s' =>
          match skip_ws s' with
          | String "}" rest => Some (JObject [], rest)
          | _ => '(fields, rest) ← members fuel s'; Some (JObject fields, rest)
          end
      | String c s' =>
          if decide (c = dquote)
          then '(str, rest) ← string_body s'; Some (JString str, rest)
          else '(n, rest) ← number (skip_ws s); Some (JNumber n, rest)
      | EmptyString => None
      end
  end
with elements (fuel : nat) (s : string) : option (list json * string) :=
  match fuel with
  | O => None
  | S fuel =>
      '(v, rest) ← value fuel s;
      match skip_ws rest with
      | String "," rest' => '(vs, rest'') ← elements fuel rest'; Some (v :: vs, rest'')
      | String "]" rest' => Some ([v], rest')
      | _ => None
      end
  end
with members (fuel : nat) (s : string) : option (list (string * json) * string) :=
  match fuel with
  | O => None
  | S fuel =>
      match skip_ws s with
      | String c s' =>
          if decide (c = dquote) then
            '(k, rest) ← string_body s';
            match skip_ws rest with
            | String ":" rest' =>
                '(v, rest'') ← value fuel rest';
                match skip_ws rest'' with
                | String "," r => '(fs, r') ← members fuel r; Some ((k, v) :: fs, r')
                | String "}" r => Some ([(k, v)], r)
                | _ => None
                end
            | _ => None
            end
          else None
      | EmptyString => None
      end
  end.

Definition parse (s : string) : option json :=
  '(v, rest) ← value (2 * String.length s + 2) s;
  if decide (skip_ws rest = EmptyString) then Some v else None.

Fixpoint quote_body (s : string) : string :=
  match s with
  | EmptyString => String dquote EmptyString
  | String c s' =>
      if decide (c = dquote) then String "\" (String c (quote_body s'))
      else if decide (c = "\"%char) then String "\" (String c (quote_body s'))
      else if decide (c = ascii_of_nat 10) then String "\" (String "n" (quote_body s'))
      else if decide (c = ascii_of_nat 13) then String "\" (String "r" (quote_body s'))
      else if decide (c = ascii_of_nat 9) then String "\" (String "t" (quote_body s'))
      else String c (quote_body s')
  end.

Definition quote (s : string) : string := String dquote (quote_body s).

Definition join (sep : string) (parts : list string) : string :=
  match parts with
  | [] => EmptyString
  | p :: ps => fold_left (λ acc q, acc +:+ sep +:+ q) ps p
  end.

Fixpoint stringify (v : json) : string :=
  match v with
  | JNull => "null"
  | JBool true => "true"
  | JBool false => "false"
  | JNumber n => pretty n
  | JString s => quote s
  | JArray items => "[" +:+ join "," (map stringify items) +:+ "]"
  | JObject fields =>
      "{" +:+ join "," (map (λ kv, quote (fst kv) +:+ ":" +:+ stringify (snd kv)) fields)
      +:+ "}"
  end.

End JsonText.

Definition JSON_text : JSON :=
  {| JSON_parse := JsonText.parse; JSON_stringify := JsonText.stringify;
     JSON_parse_empty := eq_refl |}.

(* ===================================================================== *)
(** * proxy/index.ts: the reverse proxy *)
(* ===================================================================== *)

Record ProxyMetadata := {
  mainVersion : option string;
  mainPort : option Z;
  instanceId : option string;
  startTime : option Z;
}.

Record ProxyStartOptions := {
  targetPort : Z;
  listenPort : option Z;
  metadata : option ProxyMetadata;
}.

(** A parsed URL: [origin] is scheme, host and port; [search] is the
    query string with its question mark, or empty. *)
Record Url := {
  origin : string;
  pathname : string;
  search : string;
}.

(** A Fetch API [Request].  The keys of [headers] are lower-case, as a
    [Headers] object keeps them. *)
Record Request := {
  method : string;
  url : Url;
  headers : gmap string string;
  body : option string;
}.

Record Response := {
  status : Z;
  resp_headers : gmap string string;
  resp_body : option string;
}.

Definition lower_ascii (c : ascii) : ascii :=
  let n := nat_of_ascii c in
  if bool_decide (65 ≤ n ≤ 90)%nat then ascii_of_nat (n + 32) else c.

Fixpoint toLowerCase (s : string) : string :=
  match s with
  | EmptyString => EmptyString
  | String c s' => String (lower_ascii c) (toLowerCase s')
  end.

(** [req.headers.set(name, value)] *)
Definition headers_set (name value : string) (req : Request) : Request :=
  {| method := method req; url := url req;
     headers := <[toLowerCase name := value]> (headers req);
     body := body req |}.

(** [new Request(targetUrl, init)] with a [Request] as [init]: the URL
    is the new one; method, headers and body are the ones of [init]. *)
Definition new_Request (targetUrl : Url) (init : Request) : Request :=
  {| method := method init; url := targetUrl;
     headers := headers init; body := body init |}.

(** [new Response(resp.body, resp)] *)
Definition new_Response (resp : Response) : Response :=
  {| status := status resp; resp_headers := resp_headers resp;
     resp_body := resp_body resp |}.

(** [if (s)] on a [string | undefined] *)
Definition truthy_string (s : option string) : option string :=
  match s with
  | Some v => if decide (v = EmptyString) then None else Some v
  | None => None
  end.

(** [if (n)] on a [number | undefined] *)
Definition truthy_number (n : option Z) : option Z :=
  match n with
  | Some v => if decide (v = 0) then None else Some v
  | None => None
  end.

Section Proxy.
Context `{JSON}.
(** The upstream as the proxy reaches it: the state of whatever
    listens on the target port, and the global [fetch]. *)
Context {U : Type} (fetch : Request → M U Response).

(** Hono's [c.json(object, status)] *)
Definition c_json (object : json) (code : Z) : Response :=
  {| status := code;
     resp_headers := {[ "content-type" := "application/json" ]};
     resp_body := Some (JSON_stringify object) |}.

(** Lines 24-35: the metadata headers. *)
Definition annotate (targetPort : Z) (metadata : option ProxyMetadata)
    (upstreamReq : Request) : Request :=
  match metadata with
  | None => upstreamReq
  | Some metadata =>
      let r1 := match truthy_string (mainVersion metadata) with
                | Some v => headers_set "X-Proxy-Main-Version" v upstreamReq
                | None => upstreamReq
                end in
      let r2 := match truthy_string (instanceId metadata) with
                | Some v => headers_set "X-Proxy-Instance-Id" v r1
                | None => r1
                end in
      let r3 := match truthy_number (startTime metadata) with
                | Some t => headers_set "X-Proxy-Start-Time" (pretty t) r2
                | None => r2
                end in
      headers_set "X-Proxy-Main-Port"
        (match mainPort metadata with
         | Some p => pretty p
         | None => pretty targetPort
         end) r3
  end.

(** The request handed to [fetch].  [c.req.path] is Hono's path of
    the request: the pathname of its URL, without the query string. *)
Definition upstream_request (targetPort : Z) (metadata : option ProxyMetadata)
    (raw : Request) : Request :=
  let c_req_path := pathname (url raw) in
  let targetUrl :=
    {| origin := "http://127.0.0.1:" +:+ pretty targetPort;
       pathname := c_req_path;
       search := EmptyString |} in
  annotate targetPort metadata (new_Request targetUrl raw).

(** The handler [createProxyApp] registers for every method and path. *)
Definition createProxyApp (targetPort : Z) (metadata : option ProxyMetadata)
    (raw : Request) : M U Response :=
  let upstreamReq := upstream_request targetPort metadata raw in
  try_catch
    (resp ← fetch upstreamReq;
     mret (new_Response resp))
    (λ error,
       mret (c_json (JObject [("error", JString "Proxy error");
                              ("message", JString (message error))]) 502)).

(** Hono's [app.fetch]: a handler that throws is answered with 500. *)
Definition app_fetch (handler : Request → M U Response) (req : Request)
  : M U Response :=
  try_catch (handler req)
    (λ _, mret {| status := 500; resp_headers := ∅;
                  resp_body := Some "Internal Server Error" |}).

(** The server [ProxyManager.start] sets up, fed the requests that
    arrive one after the other; a rejection of [app.fetch] would end
    it. *)
Fixpoint serve (targetPort : Z) (metadata : option ProxyMetadata)
    (requests : list Request) : M U (list Response) :=
  match requests with
  | [] => mret []
  | req :: rest =>
      resp ← app_fetch (createProxyApp targetPort metadata) req;
      resps ← serve targetPort metadata rest;
      mret (resp :: resps)
  end.

End Proxy.

(* ===================================================================== *)
(** * server-starter.ts: startMcpServer *)
(* ===================================================================== *)

Inductive Mode := http | stdio.

(** [BaseCliOptions], the record [parseCliArgs] returns. *)
Record BaseCliOptions := {
  cli_port : Z;
  cli_mode : Mode;
  cli_local : bool;
  cli_help : bool;
  cli_killExisting : bool;
}.

(** [ServerConfig]; a hook is [true] when the caller provides it. *)
Record ServerConfig := {
  serverName : string;
  serverVersion : string;
  createInstanceManager : bool;
  onInitialize : bool;
  onBeforeStart : bool;
  localMode_onLocalStart : bool;
}.

Record StdioProxyConfig := {
  sp_port : Z;
  sp_serverName : string;
  sp_serverVersion : string;
  sp_clientName : string;
  sp_debug : bool;
}.

(** Everything [startMcpServer] calls: the caller's hooks, the console,
    the process, its [instanceManager], and the servers and proxies it
    starts. *)
Inductive StarterCall : Type → Type :=
| DisplayHelp : StarterCall unit
| ProcessExit (exitCode : Z) : StarterCall Empty_set
| OnInitialize : StarterCall unit
| CreateInstanceManager : StarterCall unit
| Mgr {X : Type} (c : Call X) : StarterCall X
| ConsoleError (msg : string) : StarterCall unit
| ConsoleLog (msg : string) : StarterCall unit
| StartStdioProxy (opts : StdioProxyConfig) : StarterCall unit
| DateNow : StarterCall Z
| ProxyManagerStart (options : ProxyStartOptions) : StarterCall unit
| OnLocalStart : StarterCall unit
| EnsurePortAvailable (port : Z) (mayKill : bool) : StarterCall bool
| OnBeforeStart : StarterCall unit
| StartStdioServer (name version : string) : StarterCall unit
| StartHonoMcpServer (port : Z) : StarterCall unit.

Inductive StarterEvent :=
| SDisplayHelp (r : Result unit)
| SProcessExit (exitCode : Z)
| SOnInitialize (r : Result unit)
| SCreateInstanceManager (r : Result unit)
| SMgr (e : Event)
| SConsoleError (msg : string)
| SConsoleLog (msg : string)
| SStartStdioProxy (opts : StdioProxyConfig) (r : Result unit)
| SDateNow (r : Result Z)
| SProxyManagerStart (options : ProxyStartOptions) (r : Result unit)
| SOnLocalStart (r : Result unit)
| SEnsurePortAvailable (port : Z) (mayKill : bool) (r : Result bool)
| SOnBeforeStart (r : Result unit)
| SStartStdioServer (name version : string) (r : Result unit)
| SStartHonoMcpServer (port : Z) (r : Result unit).

Definition log_starter {X} (c : StarterCall X) : Result X → StarterEvent :=
  match c with
  | DisplayHelp => SDisplayHelp
  | ProcessExit exitCode => λ _, SProcessExit exitCode
  | OnInitialize => SOnInitialize
  | CreateInstanceManager => SCreateInstanceManager
  | Mgr c => λ r, SMgr (log_call c r)
  | ConsoleError msg => λ _, SConsoleError msg
  | ConsoleLog msg => λ _, SConsoleLog msg
  | StartStdioProxy opts => SStartStdioProxy opts
  | DateNow => SDateNow
  | ProxyManagerStart options => SProxyManagerStart options
  | OnLocalStart => SOnLocalStart
  | EnsurePortAvailable port mayKill => SEnsurePortAvailable port mayKill
  | OnBeforeStart => SOnBeforeStart
  | StartStdioServer name version => SStartStdioServer name version
  | StartHonoMcpServer port => SStartHonoMcpServer port
  end.

(** [`${v}`] for a [string | undefined] *)
Definition show_string (v : option string) : string := v ?? "undefined".

(** [when cond p]: [if (cond) await p] *)
Definition when {E} (cond : bool) (p : prog E unit) : prog E unit :=
  if cond then p else Ret tt.

(** [startMcpServer(config)], from the parsed command line on
    ([cliOptions] is the value of [parseCliArgs(process.argv.slice(2), ...)]). *)
Definition startMcpServer (config : ServerConfig) (cliOptions : BaseCliOptions)
  : prog StarterCall unit :=
  when (cli_help cliOptions)
    (call DisplayHelp;;
     r ← call (ProcessExit 0);
     match r : Empty_set with end);;
  when (onInitialize config) (call OnInitialize);;
  (* the instance manager: the caller's, or
     new InstanceManager({ port: cliOptions.port, getVersion: () => serverVersion }) *)
  when (createInstanceManager config) (call CreateInstanceManager);;
  shouldBeMain ← call (Mgr TryBecomeMain);
  if negb shouldBeMain then
    mainVersion ← call (Mgr GetVersion);
    match cli_mode cliOptions with
    | stdio =>
        p ← call (Mgr GetPort);
        call (ConsoleError
                ("[PROXY MODE] Main instance v" +:+ show_string mainVersion
                 +:+ " running on port " +:+ pretty p +:+ ". Starting stdio proxy."));;
        p ← call (Mgr GetPort);
        call (StartStdioProxy
                {| sp_port := p;
                   sp_serverName := serverName config;
                   sp_serverVersion := serverVersion config;
                   sp_clientName := serverName config +:+ "-proxy";
                   sp_debug := true |})
    | http =>
        p ← call (Mgr GetPort);
        call (ConsoleLog
                ("[PROXY MODE] Main instance v" +:+ show_string mainVersion
                 +:+ " running on port " +:+ pretty p +:+ ". Starting HTTP proxy."));;
        target ← call (Mgr GetPort);
        main ← call (Mgr GetPort);
        t ← call DateNow;
        call (ProxyManagerStart
                {| targetPort := target;
                   listenPort := Some (cli_port cliOptions);
                   metadata := Some {| mainVersion := mainVersion;
                                       mainPort := Some main;
                                       instanceId := None;
                                       startTime := Some t |} |})
    end
  else
    call (ConsoleLog ("[MAIN INSTANCE] Starting " +:+ serverName config
                      +:+ " v" +:+ serverVersion config));;
    when (cli_local cliOptions && localMode_onLocalStart config) (call OnLocalStart);;
    portFree ← call (EnsurePortAvailable (cli_port cliOptions) (cli_killExisting cliOptions));
    if negb portFree then
      if negb (cli_killExisting cliOptions) then
        Raise (Error ("Port " +:+ pretty (cli_port cliOptions)
                      +:+ " is already in use and --no-kill was provided (start aborted)."))
      else
        Raise (Error ("Unable to free port " +:+ pretty (cli_port cliOptions)
                      +:+ " for " +:+ serverName config +:+ " server"))
    else
      when (onBeforeStart config) (call OnBeforeStart);;
      match cli_mode cliOptions with
      | stdio => call (StartStdioServer (serverName config) (serverVersion config))
      | http => call (StartHonoMcpServer (cli_port cliOptions))
      end.

(* ===================================================================== *)
(** * Several callers on one file system *)
(* ===================================================================== *)

(** Processes share the file system and nothing else, and the kernel
    runs their system calls one at a time, in any order.  A call of
    [tryBecomeMain] is three system calls; between any two of them other
    processes may run. *)
Module Race.
Section Race.
Context `{JSON}.

(** Where a call of [tryBecomeMain] stands. *)
Inductive Pc :=
| AtOpen                       (* before fs.openSync(lockPath, 'wx') *)
| AtWrite (fd : nat)           (* opened; before fs.writeFileSync(fd, ...) *)
| AtClose (fd : nat)           (* written; before fs.closeSync(fd) *)
| Returned (b : bool)
| Rejected (err : JsError).

(** One call in flight: the manager it was made on, with the process
    around it (of whose [World] the file system is replaced by the
    shared one), and its progress. *)
Record Caller := {
  mgr : InstanceManager.St;
  pc : Pc;
}.

Definition caller_path (c : Caller) : string :=
  InstanceManager._lockPath (InstanceManager.this (mgr c)).

(** The text the call writes: [JSON.stringify(lock)]. *)
Definition caller_data (c : Caller) : string :=
  let s := mgr c in
  JSON_stringify
    (InstanceManager.lock_to_json
       {| pid := process_pid (InstanceManager.world s);
          version := InstanceManager._versionGetter (InstanceManager.this s) tt;
          timestamp := now (InstanceManager.world s) |}).

(** The [catch] clause of [tryBecomeMain]. *)
Definition caught (err : JsError) : Pc :=
  if decide (code err = Some EEXIST) then Returned false else Rejected err.

Definition at_pc (c : Caller) (p : Pc) : Caller := {| mgr := mgr c; pc := p |}.

(** The next system call of a call. *)
Definition step_call (c : Caller) (shared : Fs) : Caller * Fs :=
  match pc c with
  | AtOpen =>
      match openSync_wx (caller_path c) shared with
      | (Ok fd, shared') => (at_pc c (AtWrite fd), shared')
      | (Throw err, shared') => (at_pc c (caught err), shared')
      end
  | AtWrite fd =>
      match writeFileSync_fd fd (caller_data c) shared with
      | (Ok _, shared') => (at_pc c (AtClose fd), shared')
      | (Throw err, shared') => (at_pc c (caught err), shared')
      end
  | AtClose fd =>
      match closeSync fd shared with
      | (Ok _, shared') => (at_pc c (Returned true), shared')
      | (Throw err, shared') => (at_pc c (caught err), shared')
      end
  | Returned _ | Rejected _ => (c, shared)
  end.

(** The host: the shared file system and the calls in flight. *)
Record Sys := {
  shared : Fs;
  callers : list Caller;
}.

(** What the kernel may run next: the next system call of the [i]-th
    call, the [unlinkSync] of some process's [removeLock] on [path],
    or the [writeFileSync] of some process's [writeLock] on [path]. *)
Inductive Action :=
| StepCall (i : nat)
| Unlink (path : string)
| Overwrite (path data : string).

Definition exec1 (a : Action) (sys : Sys) : Sys :=
  match a with
  | StepCall i =>
      match callers sys !! i with
      | Some c =>
          let '(c', shared') := step_call c (shared sys) in
          {| shared := shared'; callers := <[i := c']> (callers sys) |}
      | None => sys
      end
  | Unlink path =>
      {| shared := snd (unlinkSync path (shared sys)); callers := callers sys |}
  | Overwrite path data =>
      {| shared := snd (writeFileSync_path path data (shared sys));
         callers := callers sys |}
  end.

Definition exec (schedule : list Action) (sys : Sys) : Sys :=
  fold_left (λ s a, exec1 a s) schedule sys.

(** The call has returned [true]. *)
Definition returned_true (c : Caller) : bool :=
  match pc c with Returned true => true | _ => false end.

(** The exclusive create of the call has succeeded, and the call has
    not failed since. *)
Definition pc_acquired (p : Pc) : bool :=
  match p with
  | AtWrite _ | AtClose _ | Returned true => true
  | _ => false
  end.

Definition acquired (c : Caller) : bool := pc_acquired (pc c).

Definition count (f : Caller → bool) (l : list Caller) : nat :=
  List.length (filter (λ c, f c = true) l).

(** What holds of the host as long as nobody unlinks [path]: at most
    one call has acquired, and if one has, the lock file is there. *)
Definition inv (path : string) (sys : Sys) : Prop :=
  Forall (λ c, caller_path c = path) (callers sys)
  ∧ (count acquired (callers sys) = 0%nat
     ∨ (count acquired (callers sys) = 1%nat
        ∧ is_Some (entries (shared sys) !! path))).

(** [n] system calls of one call, run back to back. *)
Fixpoint steps (n : nat) (c : Caller) (shared : Fs) : Caller * Fs :=
  match n with
  | O => (c, shared)
  | S n => let '(c', shared') := step_call c shared in steps n c' shared'
  end.

End Race.
End Race.

(* ===================================================================== *)
(** * What the specification says, in its own words *)
(* ===================================================================== *)

(** The record a lock file holds according to the specification: a JSON
    object whose [pid] and [timestamp] are numbers and whose [version]
    is a string; extra fields are ignored. *)
Definition spec_record (j : json) : option InstanceLock :=
  match j with
  | JObject fields =>
      match assoc_last "pid" fields, assoc_last "version" fields,
            assoc_last "timestamp" fields with
      | Some (JNumber p), Some (JString v), Some (JNumber t) =>
          Some {| pid := p; version := v; timestamp := t |}
      | _, _, _ => None
      end
  | _ => None
  end.

(** [read(path)] of the specification: the record when the file is
    there, can be read, parses and has the required fields; [null] in
    every other state of the file. *)
Definition spec_read `{JSON} (path : string) (fs : Fs) : option InstanceLock :=
  match entries fs !! path with
  | Some (File _ raw) =>
      match read_fault fs path with
      | Some _ => None
      | None => j ← JSON_parse raw; spec_record j
      end
  | _ => None
  end.

(** The default lock file of the specification and of the README:
    [<os-tempdir>/mcp-kit-<port>.lock]. *)
Definition spec_default_lockPath (tmpdir : string) (port : Z) : string :=
  path_join tmpdir ("mcp-kit-" +:+ pretty port +:+ ".lock").

(** "Request forwarding preserves method, path, query, headers, and
    body": what the forwarded request [up] owes the incoming [raw]. *)
Definition spec_preserves (raw up : Request) : Prop :=
  method up = method raw
  ∧ pathname (url up) = pathname (url raw)
  ∧ search (url up) = search (url raw)
  ∧ (∀ k v, headers raw !! k = Some v → headers up !! k = Some v)
  ∧ body up = body raw.

(** The names of the headers the proxy sets from its metadata. *)
Definition proxy_header_names : list string :=
  ["x-proxy-main-version"; "x-proxy-instance-id"; "x-proxy-start-time";
   "x-proxy-main-port"].

(** The 502 answer of the specification: a JSON body [{error, message}]. *)
Definition spec_bad_gateway `{JSON} (err : JsError) : Response :=
  {| status := 502;
     resp_headers := {[ "content-type" := "application/json" ]};
     resp_body := Some (JSON_stringify
                          (JObject [("error", JString "Proxy error");
                                    ("message", JString (message err))])) |}.

(* ===================================================================== *)
(** * Measures and shapes used in the statements *)
(* ===================================================================== *)

(** An upper bound on the passes the loop of [waitForPort] still makes
    in state [s]: the time left, in sleeps of 300 ms. *)
Definition passes_left (start timeout : Z) (s : InstanceManager.St) : nat :=
  Z.to_nat ((timeout - (now (InstanceManager.world s) - start) + 299) / 300).

(** The trace of [coordinateInstanceRole] after the read of
    [instanceManager.version], if there was one. *)
Definition skip_version (tr : list Event) : list Event :=
  match tr with
  | EvGetVersion _ :: t => t
  | t => t
  end.

(** [desiredVersion] as line 332 computes it, from the options and the
    answer recorded in the trace. *)
Definition desired_of (options : CoordinateInstanceOptions) (tr : list Event) : string :=
  match desiredVersion options with
  | Some v => v
  | None =>
      match tr with
      | EvGetVersion (Ok v) :: _ => v ?? InstanceManager.defaultVersion
      | _ => InstanceManager.defaultVersion
      end
  end.

(** The calls [t] and the outcome [res] of a stale-lock reclaim:
    [removeLock], then [tryBecomeMain]; success is primary with
    [reason], failure goes on to [fetchMainVersion].  A call that
    rejects ends the run with its error. *)
Definition reclaims (reason : MainReason) (res : Result CoordinateInstanceResult)
    (t : list Event) : Prop :=
  ∃ rr t1, t = EvRemoveLock rr :: t1 ∧
    match rr with
    | Throw e => res = Throw e ∧ t1 = []
    | Ok _ =>
        ∃ rb t2, t1 = EvTryBecomeMain rb :: t2 ∧
          match rb with
          | Ok true => res = Ok (CoordinateInstanceMainResult reason None) ∧ t2 = []
          | Ok false => ∃ rv t3, t2 = EvFetchMainVersion rv :: t3
          | Throw e => res = Throw e ∧ t2 = []
          end
    end.

(** The calls and the outcome after a failed first [tryBecomeMain] when
    [removeStaleLock] is on: [readLock]; a [null] lock is stale; a
    record is stale iff [isPidAlive(record.pid)] is false; a stale lock
    is reclaimed, a live one leads straight to [fetchMainVersion]. *)
Definition inspects (res : Result CoordinateInstanceResult) (t : list Event) : Prop :=
  ∃ r t1, t = EvReadLock r :: t1 ∧
    match r with
    | Throw e => res = Throw e ∧ t1 = []
    | Ok None => reclaims lock_missing res t1
    | Ok (Some l) =>
        ∃ ra t2, t1 = EvIsPidAlive (pid l) ra :: t2 ∧
          match ra with
          | Throw e => res = Throw e ∧ t2 = []
          | Ok false => reclaims stale_lock res t2
          | Ok true => ∃ rv t3, t2 = EvFetchMainVersion rv :: t3
          end
    end.

(** The calls and the outcome of a version transition away from a main
    of version [mv]: [requestMainTransition]; on [false]
    TransitionDenied; on [true] [waitForPort(timeout)], [removeLock],
    [tryBecomeMain], which decides between primary and
    TransitionRaceLost. *)
Definition transitions (timeout : Z) (mv : option string)
    (res : Result CoordinateInstanceResult) (t : list Event) : Prop :=
  ∃ rt t1, t = EvRequestMainTransition rt :: t1 ∧
    match rt with
    | Throw e => res = Throw e ∧ t1 = []
    | Ok false => res = Throw TransitionDenied ∧ t1 = []
    | Ok true =>
        ∃ rw t2, t1 = EvWaitForPort (Some timeout) rw :: t2 ∧
          match rw with
          | Throw e => res = Throw e ∧ t2 = []
          | Ok _ =>
              ∃ rr t3, t2 = EvRemoveLock rr :: t3 ∧
                match rr with
                | Throw e => res = Throw e ∧ t3 = []
                | Ok _ =>
                    ∃ rb, t3 = [EvTryBecomeMain rb] ∧
                      match rb with
                      | Ok true =>
                          res = Ok (CoordinateInstanceMainResult
                                      version_transition (Some mv))
                      | Ok false => res = Throw TransitionRaceLost
                      | Throw e => res = Throw e
                      end
                end
          end
    end.

(** An event that is not a successful [tryBecomeMain]. *)
Definition try_failed (e : Event) : Prop :=
  match e with
  | EvTryBecomeMain r => r = Ok false
  | _ => True
  end.

(** Calls of [startMcpServer] that inspect or contest the election. *)
Definition is_election_call (e : StarterEvent) : bool :=
  match e with
  | SMgr (EvReadLock _) | SMgr (EvRemoveLock _) | SMgr (EvIsPidAlive _ _)
  | SMgr (EvFetchMainVersion _) | SMgr (EvRequestMainTransition _)
  | SMgr (EvWaitForPort _ _) => true
  | _ => false
  end.

(** Calls of its main-instance branch. *)
Definition is_main_call (e : StarterEvent) : bool :=
  match e with
  | SOnLocalStart _ | SEnsurePortAvailable _ _ _ | SOnBeforeStart _
  | SStartStdioServer _ _ _ | SStartHonoMcpServer _ _ => true
  | _ => false
  end.

Definition proxy_mode_message (v : option string) (p : Z) (kind : string) : string :=
  "[PROXY MODE] Main instance v" +:+ show_string v
  +:+ " running on port " +:+ pretty p +:+ ". Starting " +:+ kind +:+ " proxy.".

(** The calls of a completed proxy-mode start after the failed
    [tryBecomeMain]; [v] is what [instanceManager.version] answered. *)
Definition commits_to_proxy (config : ServerConfig) (cliOptions : BaseCliOptions)
    (post : list StarterEvent) : Prop :=
  ∃ v p1 p2,
    match cli_mode cliOptions with
    | stdio =>
        post = [SMgr (EvGetVersion (Ok v)); SMgr (EvGetPort (Ok p1));
                SConsoleError (proxy_mode_message v p1 "stdio");
                SMgr (EvGetPort (Ok p2));
                SStartStdioProxy
                  {| sp_port := p2; sp_serverName := serverName config;
                     sp_serverVersion := serverVersion config;
                     sp_clientName := serverName config +:+ "-proxy";
                     sp_debug := true |} (Ok tt)]
    | http =>
        ∃ p3 t,
        post = [SMgr (EvGetVersion (Ok v)); SMgr (EvGetPort (Ok p1));
                SConsoleLog (proxy_mode_message v p1 "HTTP");
                SMgr (EvGetPort (Ok p2)); SMgr (EvGetPort (Ok p3));
                SDateNow (Ok t);
                SProxyManagerStart
                  {| targetPort := p2; listenPort := Some (cli_port cliOptions);
                     metadata := Some {| mainVersion := v; mainPort := Some p3;
                                         instanceId := None; startTime := Some t |} |}
                  (Ok tt)]
    end.

(* ===================================================================== *)
(** * Concrete hosts *)
(* ===================================================================== *)

Module Demo.

Definition lock_file : string := "/tmp/mcp-kit-8989.lock".

Definition fs_with (nodes : gmap string Node) : Fs :=
  {| entries := nodes; next_ino := 7;
     entry_fault := λ _, None; read_fault := λ _, None; io_fault := None |}.

(** A host on which nothing fails, no process but ours lives, every
    port is free and nothing answers on loopback. *)
Definition host (nodes : gmap string Node) : World :=
  {| fs := fs_with nodes; now := 1700000000000; process_pid := 4242;
     kill_fault := λ p, if decide (p = 4242) then None else Some ESRCH;
     port_busy := λ _ _, false;
     control := λ _ _ _, None |}.

(** [new InstanceManager({ port, getVersion: () => "1.0.0" })] *)
Definition manager (port : option Z) : InstanceManager.t :=
  InstanceManager.constructor "/tmp"
    {| opt_lockPath := None; opt_port := port;
       opt_getVersion := Some (λ _, "1.0.0") |}.

Definition start (nodes : gmap string Node) : InstanceManager.St :=
  {| InstanceManager.this := manager None;
     InstanceManager.world := host nodes |}.

End Demo.

(** Requests and metadata for the proxy. *)
Module DemoProxy.

Definition get (hs : gmap string string) (query : string) : Request :=
  {| method := "GET";
     url := {| origin := "http://127.0.0.1:41000"; pathname := "/search";
               search := query |};
     headers := hs; body := None |}.

Definition meta : ProxyMetadata :=
  {| mainVersion := Some "1.0.0"; mainPort := Some 8989; instanceId := None;
     startTime := Some 1700000000000 |}.

End DemoProxy.

(** Hosts, options and a starter environment for concrete runs. *)
Module DemoRun.

Definition options : CoordinateInstanceOptions :=
  {| desiredVersion := Some "1.0.0"; waitForPortTimeoutMs := None;
     removeStaleLock := None |}.

(** The lock record of an older main, process 1111. *)
Definition old_lock : InstanceLock :=
  {| pid := 1111; version := "0.0.1"; timestamp := 1699999990000 |}.

Definition old_lock_text : string :=
  JsonText.stringify (InstanceManager.lock_to_json old_lock).

(** A host on which process 1111 runs version 0.0.1 as main, holds the
    lock, answers [/__version] and accepts [/__transition]; the port is
    free by the time it has answered. *)
Definition host_with_main : World :=
  {| fs := Demo.fs_with {[ Demo.lock_file := File 3 old_lock_text ]};
     now := 1700000000000; process_pid := 4242;
     kill_fault := λ p, if decide (p = 4242 ∨ p = 1111) then None else Some ESRCH;
     port_busy := λ _ _, false;
     control := λ p m u,
       if decide (p = 8989 ∧ m = "GET" ∧ u = "/__version")
       then Some (200, JsonText.stringify (JObject [("version", JString "0.0.1")]))
       else if decide (p = 8989 ∧ m = "POST" ∧ u = "/__transition")
       then Some (200, "ok")
       else None |}.

Definition start_with_main : InstanceManager.St :=
  {| InstanceManager.this := Demo.manager None;
     InstanceManager.world := host_with_main |}.

Definition config : ServerConfig :=
  {| serverName := "my-server"; serverVersion := "1.0.0";
     createInstanceManager := false; onInitialize := false;
     onBeforeStart := false; localMode_onLocalStart := false |}.

Definition cliOptions : BaseCliOptions :=
  {| cli_port := 8989; cli_mode := http; cli_local := false; cli_help := false;
     cli_killExisting := true |}.

(** The collaborators of [startMcpServer] around a real
    [InstanceManager]: hooks and servers that succeed, a clock, a
    [process.exit] that ends the run. *)
Definition starter_handle {X} (c : StarterCall X) : M InstanceManager.St X :=
  match c with
  | Mgr c => @InstanceManager_handle JSON_text _ c
  | ProcessExit _ => throw (Error "process.exit")
  | DateNow => InstanceManager.Date_now
  | EnsurePortAvailable _ _ => ret true
  | DisplayHelp | OnInitialize | CreateInstanceManager | ConsoleError _
  | ConsoleLog _ | StartStdioProxy _ | ProxyManagerStart _ | OnLocalStart
  | OnBeforeStart | StartStdioServer _ _ | StartHonoMcpServer _ => ret tt
  end.

End DemoRun.

(** Three managers on the default lock path, as in the repository's
    test 'only one instance becomes MAIN with same lock path', and a
    schedule that interleaves their system calls. *)
Module DemoRace.

Definition three : Race.Sys :=
  {| Race.shared := Demo.fs_with ∅;
     Race.callers := replicate 3 {| Race.mgr := Demo.start ∅; Race.pc := Race.AtOpen |} |}.

Definition interleaved : list Race.Action :=
  [Race.StepCall 1; Race.StepCall 0; Race.StepCall 2; Race.StepCall 1;
   Race.StepCall 0; Race.StepCall 1; Race.Overwrite Demo.lock_file "x";
   Race.StepCall 2].

(** Two calls, each run to its end, with a [removeLock] in between. *)
Definition with_removeLock : list Race.Action :=
  [Race.StepCall 0; Race.StepCall 0; Race.StepCall 0; Race.Unlink Demo.lock_file;
   Race.StepCall 1; Race.StepCall 1; Race.StepCall 1].

End DemoRace.

(* ===================================================================== *)
(** * proxy/index.ts: ProxyManager and startHonoProxy *)
(* ===================================================================== *)

(** [HonoProxyOptions]: its metadata has no [mainPort] of its own. *)
Record HonoProxyMetadata := {
  hp_mainVersion : option string;
  hp_instanceId : option string;
  hp_startTime : option Z;
}.

Record HonoProxyOptions := {
  hp_targetPort : Z;
  hp_listenPort : Z;
  hp_metadata : option HonoProxyMetadata;
}.

(** Lines 113-119 of [startHonoProxy]: the options it hands to
    [ProxyManager.start]. *)
Definition startHonoProxy_options (options : HonoProxyOptions) : ProxyStartOptions :=
  let fullMetadata :=
    match hp_metadata options with
    | Some metadata =>
        Some {| mainVersion := hp_mainVersion metadata;
                mainPort := Some (hp_targetPort options);
                instanceId := hp_instanceId metadata;
                startTime := hp_startTime metadata |}
    | None => None
    end in
  {| targetPort := hp_targetPort options;
     listenPort := Some (hp_listenPort options);
     metadata := fullMetadata |}.

(** The server a [ProxyManager] runs: the proxy app it serves, by the
    arguments of [createProxyApp], and the port of its address. *)
Record ProxyServer := {
  app_targetPort : Z;
  app_metadata : option ProxyMetadata;
  address_port : Z;
}.

Module ProxyManager.

(** The two private fields. *)
Record t := {
  _server : option ProxyServer;
  _metadata : option ProxyMetadata;
}.

(** [new ProxyManager()] *)
Definition new : t := {| _server := None; _metadata := None |}.

(** [start(options)], once the server listens; [bound] is the port of
    its address: [listenPort], or the one the system picked for 0. *)
Definition start (options : ProxyStartOptions) (bound : Z) (this : t) : t :=
  {| _server := Some {| app_targetPort := targetPort options;
                        app_metadata := metadata options;
                        address_port := bound |};
     _metadata := Some (metadata options
                        ?? {| mainVersion := None;
                              mainPort := Some (targetPort options);
                              instanceId := None; startTime := None |}) |}.


Definition port (this : t) : option Z :=
  match _server this with
  | Some s => Some (address_port s)
  | None => None
  end.



End ProxyManager.

(* ===================================================================== *)
(** * server/hono-starter.ts: startHonoMcpServer *)
(* ===================================================================== *)

(** [StartHonoMcpOptions]: the port, and which hooks the caller
    provides. *)
Record StartHonoMcpOptions := {
  ho_port : Z;
  ho_configureApp : bool;
  ho_setupRoutes : bool;
  ho_onBeforeStart : bool;
  ho_onAfterStart : bool;
}.

(** What [startHonoMcpServer] calls: the hooks, [createHonoMcpServer]
    and [serve]. *)
Inductive HonoCall : Type → Type :=
| HOnBeforeStart : HonoCall unit
| HCreateHonoMcpServer : HonoCall unit
| HConfigureApp : HonoCall unit
| HSetupRoutes : HonoCall unit
| HServe (port : Z) : HonoCall unit
| HOnAfterStart : HonoCall unit.

Inductive HonoStep :=
| StepOnBeforeStart | StepCreateHonoMcpServer | StepConfigureApp
| StepSetupRoutes | StepServe (port : Z) | StepOnAfterStart.

(** One recorded call: the step and the error it threw, if any. *)
Definition log_hono {X} (c : HonoCall X) (r : Result X) : HonoStep * option JsError :=
  (match c with
   | HOnBeforeStart => StepOnBeforeStart
   | HCreateHonoMcpServer => StepCreateHonoMcpServer
   | HConfigureApp => StepConfigureApp
   | HSetupRoutes => StepSetupRoutes
   | HServe port => StepServe port
   | HOnAfterStart => StepOnAfterStart
   end,
   match r with Ok _ => None | Throw err => Some err end).

Definition startHonoMcpServer (options : StartHonoMcpOptions) : prog HonoCall unit :=
  when (ho_onBeforeStart options) (call HOnBeforeStart);;
  call HCreateHonoMcpServer;;
  when (ho_configureApp options) (call HConfigureApp);;
  when (ho_setupRoutes options) (call HSetupRoutes);;
  call (HServe (ho_port options));;
  when (ho_onAfterStart options) (call HOnAfterStart).

(* ===================================================================== *)
(** * server/handlers.ts: createToolHandlers *)
(* ===================================================================== *)

Module Handlers.
Section Tools.
(** The state the tools act on, the arguments of a call, what a schema
    makes of them and what a tool returns; [zod_parse] is
    [schema.parse(args)], which throws on arguments the schema
    refuses. *)
Context {U Schema Args Input R : Type}.
Context (zod_parse : Schema → Args → Result Input).

Record ToolSpec := {
  name : string;
  description : string;
  schema : Schema;
  exec : Input → M U R;
}.

(** An entry of the answer of [listTools]. *)
Record ToolListing := {
  l_name : string;
  l_description : string;
  l_inputSchema : Schema;
}.

(** Line 17: [for (const t of tools) toolMap.set(t.name, t)] *)
Definition toolMap (tools : list ToolSpec) : gmap string ToolSpec :=
  foldl (λ m t, <[name t := t]> m) ∅ tools.

Definition listTools (tools : list ToolSpec) : list ToolListing :=
  (λ t, {| l_name := name t; l_description := description t;
           l_inputSchema := schema t |}) <$> tools.

Definition handleToolCall (tools : list ToolSpec) (n : string) (args : Args) : M U R :=
  match toolMap tools !! n with
  | None => throw (Error ("Unknown tool: " +:+ n))
  | Some t =>
      input ← lift_result (zod_parse (schema t) args);
      exec t input
  end.

End Tools.
End Handlers.

(* ===================================================================== *)
(** * utils/cli-parser.ts *)
(* ===================================================================== *)

(** The string primitives the parser uses.  Strings are sequences of
    code units below 256. *)
Module JsString.

(** [s.includes(c)] for a one-character [c] *)
Fixpoint includes (c : ascii) (s : string) : bool :=
  match s with
  | EmptyString => false
  | String d s' => if decide (d = c) then true else includes c s'
  end.

(** [s.split(c)] for a one-character separator *)
Fixpoint split (c : ascii) (s : string) : list string :=
  match s with
  | EmptyString => [EmptyString]
  | String d s' =>
      if decide (d = c) then EmptyString :: split c s'
      else match split c s' with
           | piece :: pieces => String d piece :: pieces
           | [] => [String d EmptyString]
           end
  end.

(** [s.startsWith(c)] for a one-character [c] *)
Definition startsWith (c : ascii) (s : string) : bool :=
  match s with
  | String d _ => bool_decide (d = c)
  | EmptyString => false
  end.

(** The white space [parseInt] skips, among the code units below 256. *)
Definition is_space (c : ascii) : bool :=
  let n := nat_of_ascii c in
  bool_decide (n = 9 ∨ n = 10 ∨ n = 11 ∨ n = 12 ∨ n = 13 ∨ n = 32 ∨ n = 160)%nat.

Fixpoint trimStart (s : string) : string :=
  match s with
  | String c s' => if is_space c then trimStart s' else s
  | EmptyString => EmptyString
  end.

(** The value of the longest prefix of decimal digits; [acc] is the
    value of the digits read so far, [None] when there are none. *)
Fixpoint digits_prefix (acc : option Z) (s : string) : option Z :=
  match s with
  | String c s' =>
      if JsonText.is_digit c
      then digits_prefix (Some (10 * (acc ?? 0) + JsonText.digit_val c)) s'
      else acc
  | EmptyString => acc
  end.

(** [parseInt(s, 10)]; [None] is [NaN].  The value is the exact
    integer: the comparisons with 0, 1 and 65535 made on it have the
    same outcome as on the double nearest to it. *)
Definition parseInt (s : string) : option Z :=
  match trimStart s with
  | String "-" s' => Z.opp <$> digits_prefix None s'
  | String "+" s' => digits_prefix None s'
  | s' => digits_prefix None s'
  end.

End JsString.

Module CliParser.
Import JsString.

(** Assignments to the fields of [options]. *)
Definition with_port (p : Z) (o : BaseCliOptions) : BaseCliOptions :=
  {| cli_port := p; cli_mode := cli_mode o; cli_local := cli_local o;
     cli_help := cli_help o; cli_killExisting := cli_killExisting o |}.
Definition with_mode (m : Mode) (o : BaseCliOptions) : BaseCliOptions :=
  {| cli_port := cli_port o; cli_mode := m; cli_local := cli_local o;
     cli_help := cli_help o; cli_killExisting := cli_killExisting o |}.
Definition with_local (b : bool) (o : BaseCliOptions) : BaseCliOptions :=
  {| cli_port := cli_port o; cli_mode := cli_mode o; cli_local := b;
     cli_help := cli_help o; cli_killExisting := cli_killExisting o |}.
Definition with_help (b : bool) (o : BaseCliOptions) : BaseCliOptions :=
  {| cli_port := cli_port o; cli_mode := cli_mode o; cli_local := cli_local o;
     cli_help := b; cli_killExisting := cli_killExisting o |}.
Definition with_killExisting (b : bool) (o : BaseCliOptions) : BaseCliOptions :=
  {| cli_port := cli_port o; cli_mode := cli_mode o; cli_local := cli_local o;
     cli_help := cli_help o; cli_killExisting := b |}.

Section WithState.
(** The state the caller's handlers close over. *)
Context {U : Type}.

Record FlagHandlerContext := {
  ctx_args : list string;
  ctx_index : nat;
  ctx_options : BaseCliOptions;
}.

(** A handler returns [number | void], here [Some n] for an integer
    [n] or [None], and may have assigned to the fields of [options],
    which it shares with the parser: it returns the record as it has
    left it.  It does not assign to [args]. *)
Definition CustomFlagHandler : Type :=
  FlagHandlerContext → M U (option Z * BaseCliOptions).

(** [CliParserConfig]; a field that is [None] is one the caller has
    not given. *)
Record CliParserConfig := {
  defaultPort : option Z;
  defaultMode : option Mode;
  appName : option string;
  appDescription : option string;
  customOptionsParser : option (list string → BaseCliOptions → M U BaseCliOptions);
  customHelpText : option string;
  customFlagHandlers : option (gmap string CustomFlagHandler);
}.

Section Parse.
Context (config : CliParserConfig) (args : list string).

(** The body of the [for] loop at index [i], lines 81-158; it returns
    the index the next iteration starts at, and the options. *)
Definition parse_arg (i : nat) (arg : string) (options : BaseCliOptions)
  : M U (nat * BaseCliOptions) :=
  if includes "=" arg then
    match take 2 (split "=" arg) with
    | [option; value] =>
        if decide (option = "--port") then
          match parseInt value with
          | Some portNum =>
              if (portNum <? 1) || (65535 <? portNum)
              then throw (Error ("Invalid port number: " +:+ value
                                 +:+ ". Port must be between 1 and 65535."))
              else ret (S i, with_port portNum options)
          | None =>
              throw (Error ("Invalid port number: " +:+ value
                            +:+ ". Port must be between 1 and 65535."))
          end
        else throw (Error ("Unknown option: " +:+ option))
    | _ => throw (Error "Unknown option: undefined")
    end
  else if decide (arg = "--port" ∨ arg = "-p") then
    match args !! S i with
    | Some portArg =>
        if negb (bool_decide (portArg = EmptyString)) && negb (startsWith "-" portArg) then
          match parseInt portArg with
          | Some port =>
              if (0 <? port) && (port <=? 65535)
              then ret (S (S i), with_port port options)
              else throw (Error ("Invalid port number: " +:+ portArg))
          | None => throw (Error ("Invalid port number: " +:+ portArg))
          end
        else throw (Error "--port requires a port number")
    | None => throw (Error "--port requires a port number")
    end
  else if decide (arg = "--stdio") then ret (S i, with_mode stdio options)
  else if decide (arg = "--http") then ret (S i, with_mode http options)
  else if decide (arg = "--local") then ret (S i, with_local true options)
  else if decide (arg = "--help" ∨ arg = "-h") then ret (S i, with_help true options)
  else if decide (arg = "--no-kill") then ret (S i, with_killExisting false options)
  else if decide (arg = "--sse") then ret (S i, with_mode http options)
  else
    match customFlagHandlers config ≫= (.!! arg) with
    | Some handler =>
        '(consumed, options) ←
          handler {| ctx_args := args; ctx_index := i; ctx_options := options |};
        match consumed with
        | Some n => if 0 <? n then ret (S (i + Z.to_nat n), options)
                    else ret (S i, options)
        | None => ret (S i, options)
        end
    | None =>
        if startsWith "-" arg then throw (Error ("Unknown option: " +:+ arg))
        else ret (S i, options)
    end.

(** The [for] loop from index [i] on.  Every iteration advances the
    index, so [args.length - i] iterations are enough
    (see [parse_loop_fuel]). *)
Fixpoint parse_loop (fuel : nat) (i : nat) (options : BaseCliOptions)
  : M U BaseCliOptions :=
  match fuel with
  | O => ret options
  | S fuel' =>
      match args !! i with
      | None => ret options
      | Some arg =>
          '(i', options) ← parse_arg i arg options;
          parse_loop fuel' i' options
      end
  end.

Definition parseCliArgs : M U BaseCliOptions :=
  let options :=
    {| cli_port := defaultPort config ?? 8989;
       cli_mode := defaultMode config ?? http;
       cli_local := false;
       cli_help := false;
       cli_killExisting := true |} in
  options ← parse_loop (List.length args) 0 options;
  match customOptionsParser config with
  | Some parser => parser args options
  | None => ret options
  end.

End Parse.

(** [validateCliOptions]; the mode is 'http' or 'stdio' by its type. *)
Definition validateCliOptions (options : BaseCliOptions) : M U unit :=
  if (cli_port options <? 1) || (65535 <? cli_port options)
  then throw (Error ("Port must be between 1 and 65535, got: "
                     +:+ pretty (cli_port options)))
  else ret tt.

End WithState.

(** [isStdioMode()], of the process's [argv] and [env] *)
Definition isStdioMode (argv : list string) (env : gmap string string) : bool :=
  bool_decide ("--stdio" ∈ argv) || bool_decide (env !! "STDIO_MODE" = Some "1").

End CliParser.

(* ===================================================================== *)
(** * server-starter.ts: startMcpServer, from the command line *)
(* ===================================================================== *)

(** Lines 85-90: the configuration [startMcpServer] parses the command
    line with, [{ defaultPort, appName, appDescription, ...cliConfig }];
    [defaultPort] and [cliConfig] are the fields of that name of its
    [config], and a field of [cliConfig] that is [None] is one it does
    not have. *)
Definition starter_cliConfig {U} (serverName : string) (defaultPort : option Z)
    (cliConfig : option (@CliParser.CliParserConfig U)) : @CliParser.CliParserConfig U :=
  let defaultPort := defaultPort ?? 8989 in
  {| CliParser.defaultPort :=
       Some ((cliConfig ≫= CliParser.defaultPort) ?? defaultPort);
     CliParser.defaultMode := cliConfig ≫= CliParser.defaultMode;
     CliParser.appName := Some ((cliConfig ≫= CliParser.appName) ?? serverName);
     CliParser.appDescription :=
       Some ((cliConfig ≫= CliParser.appDescription) ?? (serverName +:+ " MCP Server"));
     CliParser.customOptionsParser := cliConfig ≫= CliParser.customOptionsParser;
     CliParser.customHelpText := cliConfig ≫= CliParser.customHelpText;
     CliParser.customFlagHandlers := cliConfig ≫= CliParser.customFlagHandlers |}.

(** [startMcpServer(config)] from line 85 on, in a process started with
    the arguments [args]; [u] is the state of the caller's flag
    handlers.  An error of the parser rejects the promise. *)
Definition startMcpServer_argv {U} (config : ServerConfig) (defaultPort : option Z)
    (cliConfig : option (@CliParser.CliParserConfig U)) (args : list string) (u : U)
  : prog StarterCall unit :=
  match (CliParser.parseCliArgs
           (starter_cliConfig (serverName config) defaultPort cliConfig) args u).1 with
  | Ok cliOptions => startMcpServer config cliOptions
  | Throw err => Raise err
  end.

(* ===================================================================== *)
(** * More measures and shapes *)
(* ===================================================================== *)

(** The record [tryBecomeMain] and [writeLock] build in state [s]. *)
Definition own_lock (s : InstanceManager.St) : InstanceLock :=
  {| pid := process_pid (InstanceManager.world s);
     version := InstanceManager._versionGetter (InstanceManager.this s) tt;
     timestamp := now (InstanceManager.world s) |}.

(** The state [ms] milliseconds later, nothing else changed. *)
Definition later (ms : Z) (s : InstanceManager.St) : InstanceManager.St :=
  InstanceManager.on_world (λ w, with_now (now w + ms) w) s.

(** The version a [/__version] body carries: that of a JSON object
    with a non-empty string [version]. *)
Definition body_version `{JSON} (data : string) : option string :=
  match JSON_parse data with
  | Some (JObject fields) =>
      InstanceManager.version_or_null (assoc_last "version" fields)
  | _ => None
  end.

(** What no method of [InstanceManager] changes: the configuration of
    the manager, its [proxyPort], and the host apart from the file
    system and the clock, which only advances. *)
Definition frame (s s' : InstanceManager.St) : Prop :=
  InstanceManager._lockPath (InstanceManager.this s')
  = InstanceManager._lockPath (InstanceManager.this s)
  ∧ InstanceManager._port (InstanceManager.this s')
    = InstanceManager._port (InstanceManager.this s)
  ∧ InstanceManager._versionGetter (InstanceManager.this s')
    = InstanceManager._versionGetter (InstanceManager.this s)
  ∧ InstanceManager.proxyPort (InstanceManager.this s')
    = InstanceManager.proxyPort (InstanceManager.this s)
  ∧ process_pid (InstanceManager.world s') = process_pid (InstanceManager.world s)
  ∧ kill_fault (InstanceManager.world s') = kill_fault (InstanceManager.world s)
  ∧ port_busy (InstanceManager.world s') = port_busy (InstanceManager.world s)
  ∧ control (InstanceManager.world s') = control (InstanceManager.world s)
  ∧ now (InstanceManager.world s) ≤ now (InstanceManager.world s').

(** A trace whose last call is a successful [tryBecomeMain], the only
    successful one. *)
Fixpoint wins_last (tr : list Event) : Prop :=
  match tr with
  | [] => False
  | e :: t =>
      match t with
      | [] => e = EvTryBecomeMain (Ok true)
      | _ :: _ => try_failed e ∧ wins_last t
      end
  end.

(** A trace without a successful [tryBecomeMain] that ends with the
    answer [mv] of [fetchMainVersion]. *)
Fixpoint fetches_last (mv : option string) (tr : list Event) : Prop :=
  match tr with
  | [] => False
  | e :: t =>
      match t with
      | [] => e = EvFetchMainVersion (Ok mv)
      | _ :: _ => try_failed e ∧ fetches_last mv t
      end
  end.

(** Calls that look at the lock or at its owner. *)
Definition is_inspection (e : Event) : bool :=
  match e with
  | EvReadLock _ | EvIsPidAlive _ _ => true
  | _ => false
  end.

Definition is_transition_request (e : Event) : bool :=
  match e with
  | EvRequestMainTransition _ => true
  | _ => false
  end.

(** Calls of [startMcpServer] by kind. *)
Definition is_server_start (e : StarterEvent) : bool :=
  match e with
  | SStartStdioServer _ _ _ | SStartHonoMcpServer _ _ => true
  | _ => false
  end.

Definition is_proxy_start (e : StarterEvent) : bool :=
  match e with
  | SStartStdioProxy _ _ | SProxyManagerStart _ _ => true
  | _ => false
  end.

Definition is_help_call (e : StarterEvent) : bool :=
  match e with
  | SDisplayHelp _ | SProcessExit 0 => true
  | _ => false
  end.

(** [ensurePortAvailable] has answered [false]. *)
Definition is_port_refusal (e : StarterEvent) : bool :=
  match e with
  | SEnsurePortAvailable _ _ (Ok false) => true
  | _ => false
  end.

(** The server start of the configured mode. *)
Definition starts_for (config : ServerConfig) (cliOptions : BaseCliOptions)
    (e : StarterEvent) : Prop :=
  match cli_mode cliOptions with
  | stdio => ∃ r, e = SStartStdioServer (serverName config) (serverVersion config) r
  | http => ∃ r, e = SStartHonoMcpServer (cli_port cliOptions) r
  end.

(** The error thrown when the port cannot be had. *)
Definition port_taken_error (config : ServerConfig) (cliOptions : BaseCliOptions)
  : JsError :=
  if cli_killExisting cliOptions
  then Error ("Unable to free port " +:+ pretty (cli_port cliOptions)
              +:+ " for " +:+ serverName config +:+ " server")
  else Error ("Port " +:+ pretty (cli_port cliOptions)
              +:+ " is already in use and --no-kill was provided (start aborted).").

(** The first element of [l] that satisfies [f], with what is before
    and after it. *)
Fixpoint split_at {A} (f : A → bool) (l : list A) : option (list A * A * list A) :=
  match l with
  | [] => None
  | x :: t =>
      if f x then Some ([], x, t)
      else match split_at f t with
           | Some (p, e, r) => Some (x :: p, e, r)
           | None => None
           end
  end.

(** A trace of steps whose last one throws [err], the only one to
    throw. *)
Fixpoint ends_in_error {A} (err : JsError) (tr : list (A * option JsError)) : Prop :=
  match tr with
  | [] => False
  | e :: t =>
      match t with
      | [] => e.2 = Some err
      | _ :: _ => e.2 = None ∧ ends_in_error err t
      end
  end.

(** The steps of a start of the Hono server that nothing interrupts. *)
Definition hono_plan (options : StartHonoMcpOptions) : list HonoStep :=
  ((if ho_onBeforeStart options then [StepOnBeforeStart] else [])
   ++ [StepCreateHonoMcpServer]
   ++ (if ho_configureApp options then [StepConfigureApp] else [])
   ++ (if ho_setupRoutes options then [StepSetupRoutes] else [])
   ++ [StepServe (ho_port options)]
   ++ (if ho_onAfterStart options then [StepOnAfterStart] else []))%list.

(** The last tool of the list that goes by the name [n]. *)
Definition last_named {U Schema Input R} (n : string)
    (tools : list (@Handlers.ToolSpec U Schema Input R))
  : option (@Handlers.ToolSpec U Schema Input R) :=
  last (filter (λ t, Handlers.name t = n) tools).

(** The part of an argument before its first [=]. *)
Definition before_eq (arg : string) : string :=
  hd EmptyString (JsString.split "=" arg).

(** A configuration without hooks of the caller. *)
Definition no_hooks {U} (config : @CliParser.CliParserConfig U) : Prop :=
  CliParser.customFlagHandlers config = None
  ∧ CliParser.customOptionsParser config = None.

Definition valid_port (p : Z) : Prop := 1 ≤ p ≤ 65535.

(** The mode the flags of a command line ask for: the last of them
    decides. *)
Definition mode_flags : list string := ["--stdio"; "--http"; "--sse"].

Definition mode_asked (args : list string) : option Mode :=
  match last (filter (.∈ mode_flags) args) with
  | Some flag => Some (if decide (flag = "--stdio") then stdio else http)
  | None => None
  end.

(* ===================================================================== *)
(** * More concrete hosts *)
(* ===================================================================== *)

Module DemoMore.

(** A host whose volume is full: names can be created, writes fail. *)
Definition full_volume : InstanceManager.St :=
  {| InstanceManager.this := Demo.manager None;
     InstanceManager.world :=
       {| fs := {| entries := ∅; next_ino := 7;
                   entry_fault := λ _, None; read_fault := λ _, None;
                   io_fault := Some FaultENOSPC |};
          now := 1700000000000; process_pid := 4242;
          kill_fault := λ p, if decide (p = 4242) then None else Some ESRCH;
          port_busy := λ _ _, false;
          control := λ _ _ _, None |} |}.

(** The manager of a second process, 5151, on the same host. *)
Definition second : InstanceManager.St :=
  {| InstanceManager.this := Demo.manager None;
     InstanceManager.world :=
       {| fs := Demo.fs_with ∅; now := 1700000000050; process_pid := 5151;
          kill_fault := λ p, if decide (p = 4242 ∨ p = 5151) then None else Some ESRCH;
          port_busy := λ _ _, false;
          control := λ _ _ _, None |} |}.

Definition no_stale_removal : CoordinateInstanceOptions :=
  {| desiredVersion := Some "1.0.0"; waitForPortTimeoutMs := None;
     removeStaleLock := Some false |}.

Definition same_version : CoordinateInstanceOptions :=
  {| desiredVersion := Some "0.0.1"; waitForPortTimeoutMs := None;
     removeStaleLock := None |}.

(** The collaborators of [startMcpServer] when the port cannot be
    freed. *)
Definition starter_handle_busy {X} (c : StarterCall X) : M InstanceManager.St X :=
  match c with
  | EnsurePortAvailable _ _ => ret false
  | c => DemoRun.starter_handle c
  end.

(** A parser configuration without hooks; the handlers have no state. *)
Definition cliConfig : @CliParser.CliParserConfig unit :=
  {| CliParser.defaultPort := None; CliParser.defaultMode := None;
     CliParser.appName := None; CliParser.appDescription := None;
     CliParser.customOptionsParser := None; CliParser.customHelpText := None;
     CliParser.customFlagHandlers := None |}.

End DemoMore.

(* ===================================================================== *)
(** * Proof automation *)
(* ===================================================================== *)

(** Unfolding the monad of sequential code. *)
Ltac unfold_m :=
  unfold try_catch, mbind, M_bind, mret, M_ret, bind, ret, throw, gets, modify,
    lift_result, InstanceManager.lockPath, InstanceManager.port,
    InstanceManager.get_version, InstanceManager.Date_now,
    InstanceManager.get_process_pid, InstanceManager.lift_fs,
    InstanceManager.process_kill, InstanceManager.sleep,
    InstanceManager.listen_probe in *.

(** Case analysis on the outcome of every call a program makes. *)
Ltac run_cases h :=
  repeat first
    [ progress cbn -[decide]
    | match goal with
      | x : Empty_set |- _ => destruct x
      | u : unit |- _ => destruct u
      | |- context [h ?X ?c ?w] => destruct (h X c w) as [[?|?] ?] eqn:?
      | |- context [negb ?b] => is_var b; destruct b
      | |- context [andb ?b _] => is_var b; destruct b
      | |- context [match ?b with true => _ | false => _ end] => is_var b; destruct b
      | |- context [match ?o with Some _ => _ | None => _ end] => is_var o; destruct o
      | |- context [decide ?P] => destruct (decide P)
      end ].

(** Closing a goal that describes a concrete trace. *)
Ltac shape :=
  repeat first
    [ progress cbn
    | reflexivity
    | match goal with
      | |- _ ∧ _ => split
      | |- ∃ _, _ => eexists
      end ].

(** Solving [H : concrete trace = pre ++ e :: rest] for [pre]. *)
Ltac split_trace H pre :=
  repeat (destruct pre as [|? pre]; cbn in H;
          [ first [discriminate H | injection H as <- <- | injection H as <-]
          | first [discriminate H | injection H as <- H] ]).

(* ===================================================================== *)
(** * The lock store: [tryBecomeMain], [readLock], the default path *)
(* ===================================================================== *)

Lemma fault_code_not_EEXIST c : fault_code c ≠ EEXIST.
Proof. by destruct c. Qed.

(** The exclusive create fails with EEXIST exactly when the name is
    taken, by a file or by a directory. *)
Lemma openSync_wx_EEXIST p f :
  is_Some (entries f !! p)
  ↔ ∃ err, fst (openSync_wx p f) = Throw err ∧ code err = Some EEXIST.
Proof.
  unfold openSync_wx. destruct (entries f !! p) eqn:He; simpl.
  - split; [intros _; eexists; split; reflexivity | eauto].
  - split; [intros [? ?]; discriminate|].
    intros (err & Herr & Hcode).
    destruct (entry_fault f p) eqn:Hf; simpl in Herr; [|discriminate].
    injection Herr as <-. simpl in Hcode. injection Hcode as Hc.
    by apply fault_code_not_EEXIST in Hc.
Qed.

Section LockStore.
Context `{JSON}.
Import InstanceManager.

(** [tryBecomeMain] by the outcome of its three system calls. *)
Lemma tryBecomeMain_cases s :
  let p := _lockPath (this s) in
  let f := fs (world s) in
  match openSync_wx p f with
  | (Throw err, _) =>
      tryBecomeMain s =
        (if decide (code err = Some EEXIST) then Ok false else Throw err, s)
  | (Ok fd, f') =>
      match io_fault f with
      | Some c =>
          tryBecomeMain s
          = (Throw (SystemError (fault_code c) "write"), on_world (with_fs f') s)
      | None => ∃ s', tryBecomeMain s = (Ok true, s')
      end
  end.
Proof.
  simpl. unfold tryBecomeMain, openSync_wx. unfold_m. simpl.
  destruct (entries (fs (world s)) !! _lockPath (this s)) eqn:He; simpl; [done|].
  destruct (entry_fault (fs (world s)) (_lockPath (this s))) eqn:Hf; simpl.
  { by destruct (decide _). }
  unfold writeFileSync_fd, closeSync; simpl.
  destruct (io_fault (fs (world s))) eqn:Hio; simpl.
  - destruct f; simpl; reflexivity.
  - eauto.
Qed.

(** C4, as amended.  [tryBecomeMain] returns [false] if and only if
    its exclusive-create open fails with EEXIST, which is the case
    exactly when the lock path is taken, be it by a file or by a
    directory; an open that fails with any other code, and a write
    that fails, are rethrown to the caller. *)
Theorem C4_tryBecomeMain_false_iff_EEXIST s :
  let p := _lockPath (this s) in
  let f := fs (world s) in
  (fst (tryBecomeMain s) = Ok false
   ↔ ∃ err, fst (openSync_wx p f) = Throw err ∧ code err = Some EEXIST)
  ∧ (fst (tryBecomeMain s) = Ok false ↔ is_Some (entries f !! p))
  ∧ (∀ err, fst (openSync_wx p f) = Throw err → code err ≠ Some EEXIST →
       fst (tryBecomeMain s) = Throw err)
  ∧ (∀ fd c, fst (openSync_wx p f) = Ok fd → io_fault f = Some c →
       fst (tryBecomeMain s) = Throw (SystemError (fault_code c) "write")).
Proof.
  intros p f. pose proof (tryBecomeMain_cases s) as Hc. simpl in Hc. fold p f in Hc.
  assert (Hfalse : fst (tryBecomeMain s) = Ok false
     ↔ ∃ err, fst (openSync_wx p f) = Throw err ∧ code err = Some EEXIST).
  { destruct (openSync_wx p f) as [[fd|err] f'] eqn:Ho; simpl.
    - split; [|by intros (? & ? & ?)].
      destruct (io_fault f); [by rewrite Hc|]. destruct Hc as [s' ->]. done.
    - rewrite Hc. simpl. destruct (decide _) as [Hd|Hd]; simpl.
      + split; eauto.
      + split; [done|]. intros (err' & [= <-] & ?). done. }
  split; [exact Hfalse|]. split; [by rewrite Hfalse, openSync_wx_EEXIST|]. split.
  - intros err Ho Hne. destruct (openSync_wx p f) as [[fd|err'] f']; simpl in *; [done|].
    injection Ho as ->. rewrite Hc. simpl. by destruct (decide _).
  - intros fd c Ho Hio. destruct (openSync_wx p f) as [[fd'|err'] f']; simpl in *; [|done].
    by rewrite Hio in Hc; rewrite Hc.
Qed.

End LockStore.

(** C4, as stated, fails: with the lock path taken by a directory (the
    setting of the repository's test 'permission error (directory
    instead of file) prevents becoming main'), [tryBecomeMain] returns
    [false]; nothing is thrown. *)
Lemma C4_directory_returns_false :
  let s := Demo.start {[ Demo.lock_file := Dir ]} in
  entries (fs (InstanceManager.world s))
    !! InstanceManager._lockPath (InstanceManager.this s) = Some Dir
  ∧ @InstanceManager.tryBecomeMain JSON_text s = (Ok false, s).
Proof. split; vm_compute; reflexivity. Qed.

(** Without [lockPath], the constructor's lock file does not depend on
    the port it is given. *)
Lemma constructor_default_lockPath tmpdir port getVersion :
  InstanceManager._lockPath
    (InstanceManager.constructor tmpdir
       {| opt_lockPath := None; opt_port := port; opt_getVersion := getVersion |})
  = path_join tmpdir "mcp-kit-8989.lock".
Proof. reflexivity. Qed.

(** C6, at a failing input.  A manager constructed for port 9000
    without [lockPath] has port 9000 and the lock file of port 8989,
    not the [mcp-kit-9000.lock] of the specification. *)
Lemma C6_default_lockPath_ignores_port :
  InstanceManager._port (Demo.manager (Some 9000)) = 9000
  ∧ InstanceManager._lockPath (Demo.manager (Some 9000)) = "/tmp/mcp-kit-8989.lock"
  ∧ spec_default_lockPath "/tmp" 9000 = "/tmp/mcp-kit-9000.lock"
  ∧ InstanceManager._lockPath (Demo.manager (Some 9000))
    ≠ spec_default_lockPath "/tmp" 9000.
Proof. repeat split; try reflexivity. vm_compute. discriminate. Qed.

Section ReadLock.
Context `{JSON}.
Import InstanceManager.

(** The three [typeof] tests accept exactly the records of the
    specification; [parse_lock] throws on text that is not JSON and on
    the JSON text [null]. *)
Lemma parse_lock_spec raw s :
  match JSON_parse raw with
  | None => ∃ err, parse_lock raw s = (Throw err, s)
  | Some JNull => ∃ err, parse_lock raw s = (Throw err, s)
  | Some j =>
      match spec_record j with
      | Some l => parse_lock raw s = (Ok (Some l), set_lock (Some l) s)
      | None => parse_lock raw s = (Ok None, s)
      end
  end.
Proof.
  unfold parse_lock. destruct (JSON_parse raw) as [j|]; [|by eexists].
  destruct j; try (by eexists); try reflexivity.
  unfold_m. simpl.
  destruct (assoc_last "pid" fields) as [[]|]; try reflexivity.
  destruct (assoc_last "version" fields) as [[]|]; try reflexivity.
  destruct (assoc_last "timestamp" fields) as [[]|]; try reflexivity.
Qed.

(** [readLock] computes the [read] of the specification and leaves the
    host as it found it. *)
Lemma readLock_spec s :
  ∃ s', readLock s = (Ok (spec_read (_lockPath (this s)) (fs (world s))), s')
        ∧ world s' = world s.
Proof.
  destruct s as [[lp pt vg r pp l] [[en ni ef rf io] nw ppid kf pb ct]].
  unfold readLock, spec_read, existsSync, readFileSync. unfold_m. cbn -[lookup].
  destruct (en !! lp) as [[ino raw|]|] eqn:He;
    cbn -[lookup]; rewrite ?He; cbn -[lookup]; try (eexists; split; reflexivity).
  destruct (rf lp); simpl; [eexists; split; reflexivity|].
  match goal with
  | |- context [parse_lock raw ?s] => pose proof (parse_lock_spec raw s) as Hp
  end.
  destruct (JSON_parse raw) as [j|]; simpl.
  - destruct j; simpl in *;
      try (rewrite Hp; eexists; split; reflexivity).
    + destruct Hp as [err ->]; eexists; split; reflexivity.
    + destruct (match assoc_last "pid" fields with Some (JNumber _) => _ | _ => _ end);
        rewrite Hp; eexists; split; reflexivity.
  - destruct Hp as [err ->]. eexists; split; reflexivity.
Qed.

(** C5.  In every state of the lock file [readLock] returns, without
    throwing, the [read] of the specification; that is [null] when the
    file is absent, when the path is a directory, when the file is
    empty, when its text is not JSON, and when the JSON lacks a numeric
    [pid], a string [version] or a numeric [timestamp]. *)
Theorem C5_readLock_never_throws s :
  let p := _lockPath (this s) in
  let f := fs (world s) in
  fst (readLock s) = Ok (spec_read p f)
  ∧ (entries f !! p = None → fst (readLock s) = Ok None)
  ∧ (entries f !! p = Some Dir → fst (readLock s) = Ok None)
  ∧ (∀ ino raw, entries f !! p = Some (File ino raw) →
       (raw = EmptyString ∨ JSON_parse raw = None
        ∨ (∃ j, JSON_parse raw = Some j ∧ spec_record j = None)) →
       fst (readLock s) = Ok None).
Proof.
  intros p f.
  assert (Hr : fst (readLock s) = Ok (spec_read p f)).
  { destruct (readLock_spec s) as (s' & -> & _). reflexivity. }
  split; [exact Hr|]. rewrite Hr. clearbody p f. unfold spec_read. repeat split.
  - by intros ->.
  - by intros ->.
  - intros ino raw -> Hraw. destruct (read_fault f p); [done|].
    destruct Hraw as [->|[Hn|(j & Hj & Hr')]].
    + by rewrite JSON_parse_empty.
    + by rewrite Hn.
    + by rewrite Hj; simpl; rewrite Hr'.
Qed.

End ReadLock.

(** The corrupt lock file of the repository's test and the empty one,
    read with the concrete JSON. *)
Lemma readLock_not_json :
  fst (@InstanceManager.readLock JSON_text
         (Demo.start {[ Demo.lock_file := File 3 "not-json" ]})) = Ok None
  ∧ fst (@InstanceManager.readLock JSON_text
           (Demo.start {[ Demo.lock_file := File 3 EmptyString ]})) = Ok None.
Proof. split; vm_compute; reflexivity. Qed.

(* ===================================================================== *)
(** * [waitForPort] *)
(* ===================================================================== *)

Section WaitForPort.
Import InstanceManager.

Lemma waitForPort_unfold timeoutMs s :
  waitForPort timeoutMs s
  = waitForPort_loop (waitForPort_fuel (timeoutMs ?? 10000)) (now (world s))
      (timeoutMs ?? 10000) s.
Proof. reflexivity. Qed.

(** Once the timeout has passed the loop ends, without a probe. *)
Lemma waitForPort_loop_expired fuel start timeout s :
  timeout ≤ now (world s) - start →
  waitForPort_loop fuel start timeout s = (Ok false, s).
Proof.
  intros Hle. destruct fuel as [|fuel]; [reflexivity|].
  simpl. unfold_m. simpl.
  destruct (Z.ltb_spec (now (world s) - start) timeout); [lia|reflexivity].
Qed.

(** Before the timeout, a probe that finds the port free ends the loop. *)
Lemma waitForPort_loop_free fuel start timeout s :
  now (world s) - start < timeout →
  port_busy (world s) (_port (this s)) (now (world s)) = false →
  waitForPort_loop (S fuel) start timeout s = (Ok true, s).
Proof.
  intros Hlt Hfree. simpl. unfold_m. simpl.
  destruct (Z.ltb_spec (now (world s) - start) timeout); [|lia].
  by rewrite Hfree.
Qed.

Lemma passes_left_sleep start timeout s :
  now (world s) - start < timeout →
  (S (passes_left start timeout
        (on_world (λ w, with_now (now w + 300) w) s))
   = passes_left start timeout s)%nat.
Proof.
  intros Hlt. unfold passes_left. simpl.
  replace (timeout - (now (world s) + 300 - start) + 299)
    with (timeout - (now (world s) - start) + 299 + (-1) * 300) by lia.
  rewrite Z.div_add by lia.
  assert (1 ≤ (timeout - (now (world s) - start) + 299) / 300).
  { apply Z.div_le_lower_bound; lia. }
  lia.
Qed.

(** The loop does not depend on its fuel once there is more of it than
    passes left. *)
Lemma waitForPort_loop_fuel n m start timeout s :
  (passes_left start timeout s < n)%nat →
  (passes_left start timeout s < m)%nat →
  waitForPort_loop n start timeout s = waitForPort_loop m start timeout s.
Proof.
  revert m s. induction n as [|n IH]; intros m s Hn Hm; [lia|].
  destruct m as [|m]; [lia|].
  simpl. unfold_m. simpl.
  destruct (Z.ltb_spec (now (world s) - start) timeout) as [Hlt|Hge]; [|reflexivity].
  destruct (port_busy (world s) (_port (this s)) (now (world s))); [|reflexivity].
  simpl. pose proof (passes_left_sleep start timeout s Hlt).
  apply IH; lia.
Qed.

(** [waitForPort] gives its loop enough fuel: more changes nothing. *)
Lemma waitForPort_fuel_enough timeout s k :
  waitForPort_loop (waitForPort_fuel timeout + k) (now (world s)) timeout s
  = waitForPort_loop (waitForPort_fuel timeout) (now (world s)) timeout s.
Proof.
  assert (passes_left (now (world s)) timeout s < waitForPort_fuel timeout)%nat.
  { unfold passes_left, waitForPort_fuel.
    replace (timeout - (now (world s) - now (world s)) + 299) with (timeout + 299) by lia.
    assert ((timeout + 299) / 300 ≤ timeout / 300 + 1).
    { replace (timeout + 299) with (timeout - 1 + 1 * 300) by lia.
      rewrite Z.div_add by lia.
      assert ((timeout - 1) / 300 ≤ timeout / 300) by (apply Z.div_le_mono; lia). lia. }
    lia. }
  apply waitForPort_loop_fuel; lia.
Qed.

(** With time to wait, a free port is found at the first probe. *)
Lemma waitForPort_free timeout s :
  0 < timeout →
  port_busy (world s) (_port (this s)) (now (world s)) = false →
  waitForPort (Some timeout) s = (Ok true, s).
Proof.
  intros Hpos Hfree. rewrite waitForPort_unfold.
  unfold waitForPort_fuel. rewrite Nat.add_comm.
  apply waitForPort_loop_free; [simpl; lia|done].
Qed.

(** C9, as amended.  [waitForPort] with timeout 0 returns [false] at
    once and without probing the port, whether the port is held or
    free: the loop test [Date.now() - start < 0] fails before the first
    [listen]. *)
Theorem C9_waitForPort_zero s :
  waitForPort (Some 0) s = (Ok false, s).
Proof. rewrite waitForPort_unfold. apply waitForPort_loop_expired. simpl. lia. Qed.

End WaitForPort.

(** C9, as stated, fails: on a host whose ports are all free,
    [waitForPort(0)] returns [false], not [true]. *)
Lemma C9_free_port_timeout_zero :
  let s := Demo.start ∅ in
  port_busy (InstanceManager.world s) (InstanceManager._port (InstanceManager.this s))
    (now (InstanceManager.world s)) = false
  ∧ InstanceManager.waitForPort (Some 0) s = (Ok false, s).
Proof. split; reflexivity. Qed.

(* ===================================================================== *)
(** * The reverse proxy *)
(* ===================================================================== *)

(** The header names as [Headers.set] stores them. *)
Lemma toLowerCase_names :
  toLowerCase "X-Proxy-Main-Version" = "x-proxy-main-version"
  ∧ toLowerCase "X-Proxy-Instance-Id" = "x-proxy-instance-id"
  ∧ toLowerCase "X-Proxy-Start-Time" = "x-proxy-start-time"
  ∧ toLowerCase "X-Proxy-Main-Port" = "x-proxy-main-port".
Proof. repeat split; reflexivity. Qed.

(** The metadata headers leave method, URL and body alone. *)
Lemma annotate_fields targetPort metadata req :
  method (annotate targetPort metadata req) = method req
  ∧ url (annotate targetPort metadata req) = url req
  ∧ body (annotate targetPort metadata req) = body req.
Proof.
  unfold annotate. destruct metadata as [md|]; [|done].
  destruct (truthy_string (mainVersion md)), (truthy_string (instanceId md)),
    (truthy_number (startTime md)); done.
Qed.

(** ... and every header they do not name. *)
Lemma annotate_headers targetPort metadata req k :
  k ∉ proxy_header_names →
  headers (annotate targetPort metadata req) !! k = headers req !! k.
Proof.
  intros Hk. unfold proxy_header_names in Hk.
  rewrite !not_elem_of_cons in Hk. destruct Hk as (H1 & H2 & H3 & H4 & _).
  unfold annotate. destruct metadata as [md|]; [|done].
  destruct (truthy_string (mainVersion md)), (truthy_string (instanceId md)),
    (truthy_number (startTime md)); cbn -[lookup insert pretty];
    rewrite ?lookup_insert_ne by done; done.
Qed.

(** C7, as amended.  The request forwarded to
    [http://127.0.0.1:<targetPort>] has the method, the path and the
    body of the incoming request, and each of its headers except the
    four [X-Proxy-*] headers, which the proxy sets from its metadata;
    without metadata the headers are the incoming ones. *)
Theorem C7_forwarding_preserves targetPort metadata raw :
  let up := upstream_request targetPort metadata raw in
  method up = method raw
  ∧ origin (url up) = "http://127.0.0.1:" +:+ pretty targetPort
  ∧ pathname (url up) = pathname (url raw)
  ∧ body up = body raw
  ∧ (∀ k, k ∉ proxy_header_names → headers up !! k = headers raw !! k)
  ∧ (metadata = None → headers up = headers raw).
Proof.
  unfold upstream_request.
  destruct (annotate_fields targetPort metadata
              (new_Request {| origin := "http://127.0.0.1:" +:+ pretty targetPort;
                              pathname := pathname (url raw);
                              search := EmptyString |} raw)) as (Hm & Hu & Hb).
  cbn zeta. rewrite Hm, Hu, Hb. repeat split.
  - intros k Hk. by rewrite annotate_headers.
  - by intros ->.
Qed.

(** The forwarded URL never has a query string: [c.req.path] carries
    none. *)
Lemma upstream_request_search targetPort metadata raw :
  search (url (upstream_request targetPort metadata raw)) = EmptyString.
Proof.
  unfold upstream_request.
  by destruct (annotate_fields targetPort metadata
              (new_Request {| origin := "http://127.0.0.1:" +:+ pretty targetPort;
                              pathname := pathname (url raw);
                              search := EmptyString |} raw)) as (_ & -> & _).
Qed.

(** C7, as stated, fails: an incoming [X-Proxy-Main-Port] header is
    replaced by the proxy's own when metadata is given. *)
Lemma C7_metadata_overwrites_header :
  let raw := DemoProxy.get {[ "x-proxy-main-port" := "1" ]} EmptyString in
  let up := upstream_request 8989 (Some DemoProxy.meta) raw in
  headers raw !! "x-proxy-main-port" = Some "1"
  ∧ headers up !! "x-proxy-main-port" = Some "8989"
  ∧ ¬ spec_preserves raw up.
Proof.
  assert (Hup : headers (upstream_request 8989 (Some DemoProxy.meta)
                           (DemoProxy.get {[ "x-proxy-main-port" := "1" ]} EmptyString))
                !! "x-proxy-main-port" = Some "8989") by (vm_compute; reflexivity).
  split; [vm_compute; reflexivity|]. split; [exact Hup|].
  intros (_ & _ & _ & Hh & _).
  specialize (Hh "x-proxy-main-port" "1" ltac:(vm_compute; reflexivity)).
  rewrite Hup in Hh. discriminate.
Qed.

(** The query string of [GET /search?q=1] is not forwarded. *)
Lemma C7_query_string_dropped :
  let raw := DemoProxy.get ∅ "?q=1" in
  let up := upstream_request 8989 None raw in
  search (url raw) = "?q=1" ∧ search (url up) = EmptyString.
Proof. split; reflexivity. Qed.

Section ProxyServer.
Context `{JSON} {U : Type} (fetch : Request → M U Response).

(** The handler by the outcome of [fetch]: it never throws. *)
Lemma createProxyApp_cases targetPort metadata raw u :
  match fetch (upstream_request targetPort metadata raw) u with
  | (Ok resp, u') => createProxyApp fetch targetPort metadata raw u = (Ok (new_Response resp), u')
  | (Throw err, u') => createProxyApp fetch targetPort metadata raw u = (Ok (spec_bad_gateway err), u')
  end.
Proof.
  unfold createProxyApp, try_catch, mbind, M_bind, bind, mret, M_ret, ret.
  destruct (fetch _ u) as [[resp|err] u']; reflexivity.
Qed.

Lemma app_fetch_createProxyApp targetPort metadata raw u :
  app_fetch (createProxyApp fetch targetPort metadata) raw u
  = createProxyApp fetch targetPort metadata raw u.
Proof.
  unfold app_fetch, try_catch. pose proof (createProxyApp_cases targetPort metadata raw u) as Hc.
  destruct (fetch _ u) as [[resp|err] u']; rewrite Hc; reflexivity.
Qed.

Lemma serve_cons targetPort metadata raw rest u :
  serve fetch targetPort metadata (raw :: rest) u
  = let '(r, u') := createProxyApp fetch targetPort metadata raw u in
    match r with
    | Ok resp =>
        let '(rs, u'') := serve fetch targetPort metadata rest u' in
        match rs with
        | Ok resps => (Ok (resp :: resps), u'')
        | Throw err => (Throw err, u'')
        end
    | Throw err => (Throw err, u')
    end.
Proof.
  simpl. unfold mbind, M_bind, bind at 1. rewrite app_fetch_createProxyApp.
  destruct (createProxyApp _ _ _ _ u) as [[resp|err] u']; [|reflexivity].
  unfold bind. destruct (serve _ _ _ _ u') as [[resps|err] u'']; reflexivity.
Qed.

(** C8.  Whatever the upstream does, the proxy answers every request
    of any sequence, and a request whose upstream [fetch] throws is
    answered with status 502 and the JSON body [{error, message}]; the
    requests after it are served as before. *)
Theorem C8_upstream_failure_is_502 targetPort metadata requests u :
  ∃ resps u',
    serve fetch targetPort metadata requests u = (Ok resps, u')
    ∧ List.length resps = List.length requests
    ∧ ∀ i raw err,
        requests !! i = Some raw →
        fst (fetch (upstream_request targetPort metadata raw)
               (snd (serve fetch targetPort metadata (take i requests) u)))
        = Throw err →
        resps !! i = Some (spec_bad_gateway err).
Proof.
  revert u. induction requests as [|raw rest IH]; intros u.
  { exists [], u. repeat split. intros i raw err Hi. done. }
  rewrite serve_cons.
  pose proof (createProxyApp_cases targetPort metadata raw u) as Hc.
  destruct (fetch (upstream_request targetPort metadata raw) u) as [[resp|err] u1] eqn:Hf;
    rewrite Hc; destruct (IH u1) as (resps & u' & Hs & Hlen & Hall); rewrite Hs.
  - eexists _, _. split; [reflexivity|]. split; [simpl; lia|].
    intros [|i] raw' err' Hi Hthrow.
    + injection Hi as <-. simpl in Hthrow. rewrite Hf in Hthrow. discriminate.
    + change (take (S i) (raw :: rest)) with (raw :: take i rest) in Hthrow.
      rewrite serve_cons, Hc in Hthrow. apply (Hall i raw' err' Hi).
      destruct (serve fetch targetPort metadata (take i rest) u1) as [[?|?] ?]; exact Hthrow.
  - eexists _, _. split; [reflexivity|]. split; [simpl; lia|].
    intros [|i] raw' err' Hi Hthrow.
    + injection Hi as <-. simpl in Hthrow. rewrite Hf in Hthrow. simpl in Hthrow.
      by injection Hthrow as ->.
    + change (take (S i) (raw :: rest)) with (raw :: take i rest) in Hthrow.
      rewrite serve_cons, Hc in Hthrow. apply (Hall i raw' err' Hi).
      destruct (serve fetch targetPort metadata (take i rest) u1) as [[?|?] ?]; exact Hthrow.
Qed.
End ProxyServer.

(* ===================================================================== *)
(** * The coordinator *)
(* ===================================================================== *)

(** [null] differs from every version. *)
Lemma null_differs (v : string) : (None : option string) ≠ Some v.
Proof. discriminate. Qed.

Section Coordinator.
Context {W : Type} (h : ∀ X, Call X → M W X).

(** C3.  With [removeStaleLock] on (the default), a run whose first
    [tryBecomeMain] returns [false] goes on to call [readLock]; it
    takes the lock for stale exactly when the read returns [null] or
    [isPidAlive(record.pid)] returns [false] (asked only when there is
    a record); for a stale lock it calls [removeLock] and then
    [tryBecomeMain], and on [true] returns primary with reason
    'stale-lock' if a record was read and 'lock-missing' if not; for a
    live lock it removes nothing and goes on to [fetchMainVersion]. *)
Theorem C3_stale_lock_reclaim options w :
  removeStaleLock options ≠ Some false →
  ∀ res w' tr, run (@log_call) h (coordinateInstanceRole options) w = (res, w', tr) →
  ∀ rest, skip_version tr = EvTryBecomeMain (Ok false) :: rest →
  inspects res rest.
Proof.
  intros Hrs res w' tr Hrun rest Hskip.
  destruct options as [dv wt rs]. unfold coordinateInstanceRole in Hrun.
  revert Hrun.
  destruct rs as [[|]|]; [|done|]; destruct dv as [v|]; run_cases h;
    intros [= <- <- <-]; cbn in Hskip; try discriminate;
    injection Hskip as <-; unfold inspects, reclaims; shape.
Qed.

(** C2.  In every run in which [fetchMainVersion] returns a version
    [mv] other than the desired one ([null] is other than every
    version, see [null_differs]), all calls of [tryBecomeMain] before
    it have returned [false], there is at least one, and the run
    continues with [requestMainTransition]: on [false] it throws
    TransitionDenied; on [true] it calls [waitForPort] with the
    configured timeout, then [removeLock], then [tryBecomeMain], and
    returns primary with reason 'version-transition' and
    [previousVersion = mv] when that returns [true], and throws
    TransitionRaceLost when it returns [false]. *)
Theorem C2_version_transition options w :
  ∀ res w' tr, run (@log_call) h (coordinateInstanceRole options) w = (res, w', tr) →
  ∀ pre mv rest, tr = (pre ++ EvFetchMainVersion (Ok mv) :: rest)%list →
  mv ≠ Some (desired_of options tr) →
  transitions (waitForPortTimeoutMs options ?? 10000) mv res rest
  ∧ EvTryBecomeMain (Ok false) ∈ pre
  ∧ Forall try_failed pre.
Proof.
  intros res w' tr Hrun pre mv rest Htr Hne.
  destruct options as [dv wt rs]. unfold coordinateInstanceRole in Hrun.
  revert Hrun.
  destruct rs as [[|]|]; destruct dv as [v|]; run_cases h;
    intros [= <- <- <-]; cbn in Hne; split_trace Htr pre;
    try contradiction.
  all: split; [unfold transitions; shape|].
  all: split; [set_solver|repeat constructor].
Qed.

End Coordinator.

(** The corrupt lock file of scenario 5, on a real [InstanceManager]. *)
Lemma C3_stale_lock_reclaim_witness :
  let s := Demo.start {[ Demo.lock_file := File 3 "not-json" ]} in
  let R := run (@log_call) (@InstanceManager_handle JSON_text)
             (coordinateInstanceRole DemoRun.options) s in
  removeStaleLock DemoRun.options ≠ Some false
  ∧ R.2 = [EvTryBecomeMain (Ok false); EvReadLock (Ok None); EvRemoveLock (Ok tt);
           EvTryBecomeMain (Ok true)]
  ∧ R.1.1 = Ok (CoordinateInstanceMainResult lock_missing None)
  ∧ inspects R.1.1 [EvReadLock (Ok None); EvRemoveLock (Ok tt);
                    EvTryBecomeMain (Ok true)].
Proof.
  intros s R.
  split; [discriminate|]. split; [vm_compute; reflexivity|].
  split; [vm_compute; reflexivity|].
  apply (C3_stale_lock_reclaim (@InstanceManager_handle JSON_text) DemoRun.options s
           ltac:(discriminate) R.1.1 R.1.2 R.2).
  - vm_compute; reflexivity.
  - vm_compute; reflexivity.
Defined.

(** The stale lock of scenario 4: a record whose process is gone. *)
Lemma coordinate_stale_lock :
  let text := JsonText.stringify
                (InstanceManager.lock_to_json
                   {| pid := 999999; version := "x"; timestamp := 0 |}) in
  let R := run (@log_call) (@InstanceManager_handle JSON_text)
             (coordinateInstanceRole DemoRun.options)
             (Demo.start {[ Demo.lock_file := File 3 text ]}) in
  R.1.1 = Ok (CoordinateInstanceMainResult stale_lock None)
  ∧ R.2 = [EvTryBecomeMain (Ok false);
           EvReadLock (Ok (Some {| pid := 999999; version := "x"; timestamp := 0 |}));
           EvIsPidAlive 999999 (Ok false); EvRemoveLock (Ok tt);
           EvTryBecomeMain (Ok true)].
Proof. split; vm_compute; reflexivity. Qed.

(** Scenario 1: no lock file; the first attempt wins and the file
    holds this process's record. *)
Lemma coordinate_initial :
  let R := run (@log_call) (@InstanceManager_handle JSON_text)
             (coordinateInstanceRole DemoRun.options) (Demo.start ∅) in
  R.1.1 = Ok (CoordinateInstanceMainResult initial None)
  ∧ R.2 = [EvTryBecomeMain (Ok true)]
  ∧ fst (@InstanceManager.readLock JSON_text R.1.2)
    = Ok (Some {| pid := 4242; version := "1.0.0"; timestamp := 1700000000000 |}).
Proof. repeat split; vm_compute; reflexivity. Qed.

(** Scenario 2: a live main of the desired version; the newcomer is a
    proxy and leaves the lock alone. *)
Lemma coordinate_existing_main :
  let options := {| desiredVersion := Some "0.0.1"; waitForPortTimeoutMs := None;
                    removeStaleLock := None |} in
  let R := run (@log_call) (@InstanceManager_handle JSON_text)
             (coordinateInstanceRole options) DemoRun.start_with_main in
  R.1.1 = Ok (CoordinateInstanceProxyResult (Some "0.0.1"))
  ∧ R.2 = [EvTryBecomeMain (Ok false); EvReadLock (Ok (Some DemoRun.old_lock));
           EvIsPidAlive 1111 (Ok true); EvFetchMainVersion (Ok (Some "0.0.1"))].
Proof. split; vm_compute; reflexivity. Qed.

(** The version upgrade of scenario 3, on a real [InstanceManager]. *)
Lemma C2_version_transition_witness :
  let R := run (@log_call) (@InstanceManager_handle JSON_text)
             (coordinateInstanceRole DemoRun.options) DemoRun.start_with_main in
  let pre := [EvTryBecomeMain (Ok false); EvReadLock (Ok (Some DemoRun.old_lock));
              EvIsPidAlive 1111 (Ok true)] in
  let rest := [EvRequestMainTransition (Ok true); EvWaitForPort (Some 10000) (Ok true);
               EvRemoveLock (Ok tt); EvTryBecomeMain (Ok true)] in
  R.2 = (pre ++ EvFetchMainVersion (Ok (Some "0.0.1")) :: rest)%list
  ∧ Some "0.0.1" ≠ Some (desired_of DemoRun.options R.2)
  ∧ R.1.1 = Ok (CoordinateInstanceMainResult version_transition (Some (Some "0.0.1")))
  ∧ transitions 10000 (Some "0.0.1") R.1.1 rest
  ∧ EvTryBecomeMain (Ok false) ∈ pre
  ∧ Forall try_failed pre.
Proof.
  intros R pre rest.
  assert (Htr : R.2 = (pre ++ EvFetchMainVersion (Ok (Some "0.0.1")) :: rest)%list)
    by (vm_compute; reflexivity).
  assert (Hne : Some "0.0.1" ≠ Some (desired_of DemoRun.options R.2))
    by (vm_compute; discriminate).
  split; [exact Htr|]. split; [exact Hne|]. split; [vm_compute; reflexivity|].
  apply (C2_version_transition (@InstanceManager_handle JSON_text) DemoRun.options
           DemoRun.start_with_main R.1.1 R.1.2 R.2 ltac:(vm_compute; reflexivity)
           pre (Some "0.0.1") rest Htr Hne).
Defined.

(* ===================================================================== *)
(** * The starter *)
(* ===================================================================== *)

Section Starter.
Context {W : Type} (h : ∀ X, StarterCall X → M W X).

(** C10.  In every run of [startMcpServer] in which [tryBecomeMain]
    returns [false]: that call is the first one made on the instance
    manager and [tryBecomeMain] is not called again; no call of the run
    reads or removes the lock, probes a PID, fetches the main's
    version, requests a transition or waits for the port, and none
    belongs to the main-instance branch; and a run that completes has,
    after [tryBecomeMain], exactly the calls of a proxy start, in which
    the version logged as the main instance's and passed as
    [metadata.mainVersion] is the answer of the local
    [instanceManager.version]. *)
Theorem C10_proxy_without_election config cliOptions w :
  ∀ res w' tr,
    run (@log_starter) h (startMcpServer config cliOptions) w = (res, w', tr) →
  ∀ pre post, tr = (pre ++ SMgr (EvTryBecomeMain (Ok false)) :: post)%list →
  Forall (λ e, is_election_call e = false ∧ is_main_call e = false) tr
  ∧ Forall (λ e, ∀ m, e ≠ SMgr m) pre
  ∧ Forall (λ e, ∀ r, e ≠ SMgr (EvTryBecomeMain r)) post
  ∧ (res = Ok tt → commits_to_proxy config cliOptions post).
Proof.
  intros res w' tr Hrun pre post Htr.
  destruct config as [sn sv cim oi obs ols], cliOptions as [cp cm cl ch ck].
  unfold startMcpServer, when in Hrun. revert Hrun.
  destruct ch, oi, cim, cm; run_cases h; intros [= <- <- <-]; split_trace Htr pre.
  all: split; [repeat constructor|].
  all: split; [repeat constructor; discriminate|].
  all: split; [repeat constructor; discriminate|].
  all: intros Hres; try discriminate Hres.
  all: unfold commits_to_proxy; shape.
Qed.

End Starter.

(** A second process started with version 1.0.0 while process 1111
    runs 0.0.1 as main: it announces "Main instance v1.0.0". *)
Lemma C10_proxy_without_election_witness :
  let R := run (@log_starter) (@DemoRun.starter_handle)
             (startMcpServer DemoRun.config DemoRun.cliOptions)
             DemoRun.start_with_main in
  let post :=
    [SMgr (EvGetVersion (Ok (Some "1.0.0"))); SMgr (EvGetPort (Ok 8989));
     SConsoleLog
       "[PROXY MODE] Main instance v1.0.0 running on port 8989. Starting HTTP proxy.";
     SMgr (EvGetPort (Ok 8989)); SMgr (EvGetPort (Ok 8989));
     SDateNow (Ok 1700000000000);
     SProxyManagerStart
       {| targetPort := 8989; listenPort := Some 8989;
          metadata := Some {| mainVersion := Some "1.0.0"; mainPort := Some 8989;
                              instanceId := None;
                              startTime := Some 1700000000000 |} |} (Ok tt)] in
  R.2 = ([] ++ SMgr (EvTryBecomeMain (Ok false)) :: post)%list
  ∧ R.1.1 = Ok tt
  ∧ Forall (λ e, is_election_call e = false ∧ is_main_call e = false) R.2
  ∧ Forall (λ e, ∀ m, e ≠ SMgr m) []
  ∧ Forall (λ e, ∀ r, e ≠ SMgr (EvTryBecomeMain r)) post
  ∧ (R.1.1 = Ok tt → commits_to_proxy DemoRun.config DemoRun.cliOptions post).
Proof.
  intros R post.
  assert (Htr : R.2 = ([] ++ SMgr (EvTryBecomeMain (Ok false)) :: post)%list)
    by (vm_compute; reflexivity).
  split; [exact Htr|]. split; [vm_compute; reflexivity|].
  apply (C10_proxy_without_election (@DemoRun.starter_handle) DemoRun.config
           DemoRun.cliOptions DemoRun.start_with_main R.1.1 R.1.2 R.2
           ltac:(vm_compute; reflexivity) [] post Htr).
Defined.

(* ===================================================================== *)
(** * The election under interleaving *)
(* ===================================================================== *)

Section Election.
Context `{JSON}.
Import Race.

Lemma count_app f (l1 l2 : list Caller) :
  count f (l1 ++ l2)%list = (count f l1 + count f l2)%nat.
Proof. unfold count. by rewrite filter_app, length_app. Qed.

Lemma count_cons f c (l : list Caller) :
  count f (c :: l) = ((if f c then 1 else 0) + count f l)%nat.
Proof.
  unfold count. rewrite filter_cons. destruct (f c) eqn:Hf.
  - rewrite decide_True by done. reflexivity.
  - rewrite decide_False by (by intros ?). reflexivity.
Qed.

(** Replacing the [i]-th call moves the count by the difference. *)
Lemma count_insert f (l : list Caller) i c c' :
  l !! i = Some c →
  (count f (<[i := c']> l) + (if f c then 1 else 0)
   = count f l + (if f c' then 1 else 0))%nat.
Proof.
  intros Hi.
  rewrite insert_take_drop by (by eapply lookup_lt_Some).
  rewrite <- (take_drop_middle l i c Hi) at 3.
  rewrite !count_app, !count_cons. lia.
Qed.

Lemma count_le f g (l : list Caller) :
  (∀ c, f c = true → g c = true) → (count f l ≤ count g l)%nat.
Proof.
  intros Hfg. induction l as [|c l IH]; [done|].
  rewrite !count_cons. specialize (Hfg c).
  destruct (f c), (g c); try lia; by specialize (Hfg eq_refl).
Qed.

Lemma count_none f (l : list Caller) :
  Forall (λ c, f c = false) l → count f l = 0%nat.
Proof.
  induction 1 as [|c l Hc _ IH]; [done|]. by rewrite count_cons, Hc, IH.
Qed.

Lemma caught_not_acquired err : pc_acquired (caught err) = false.
Proof. unfold caught. by destruct (decide _). Qed.

(** One system call of a call on [path]: what it does to the name and
    to the call's standing. *)
Lemma step_call_spec path c shared c' shared' :
  caller_path c = path →
  step_call c shared = (c', shared') →
  caller_path c' = path
  ∧ (is_Some (entries shared !! path) → is_Some (entries shared' !! path))
  ∧ (acquired c' = true →
       acquired c = true
       ∨ (entries shared !! path = None ∧ is_Some (entries shared' !! path))).
Proof.
  intros Hp Hs. unfold step_call, acquired in *.
  destruct c as [m p]; simpl in *. unfold caller_path in *; simpl in *.
  destruct p as [|fd|fd|b|err]; simpl in Hs.
  - unfold openSync_wx in Hs. rewrite Hp in Hs.
    destruct (entries shared !! path) eqn:He; simpl in Hs.
    { injection Hs as <- <-. simpl. rewrite He. repeat split; eauto. }
    destruct (entry_fault shared path); simpl in Hs; injection Hs as <- <-; simpl.
    + rewrite He. repeat split; try done. rewrite caught_not_acquired. done.
    + rewrite lookup_insert_eq. repeat split; eauto.
  - unfold writeFileSync_fd in Hs.
    destruct (io_fault shared); simpl in Hs; injection Hs as <- <-; simpl.
    + repeat split; eauto.
    + rewrite lookup_fmap. repeat split; eauto.
      intros [n ->]. simpl. eauto.
  - unfold closeSync in Hs.
    destruct (io_fault shared); simpl in Hs; injection Hs as <- <-; simpl;
      repeat split; eauto.
  - injection Hs as <- <-. simpl. repeat split; eauto.
  - injection Hs as <- <-. simpl. repeat split; eauto.
Qed.

(** Every action other than the unlink of [path] keeps the invariant. *)
Lemma inv_exec1 path a sys :
  a ≠ Unlink path → inv path sys → inv path (exec1 a sys).
Proof.
  intros Ha [Hpaths Hcount]. destruct a as [i|p|p data]; simpl.
  - destruct (callers sys !! i) as [c|] eqn:Hi; [|by split].
    destruct (step_call c (shared sys)) as [c' shared'] eqn:Hs.
    assert (Hc : caller_path c = path).
    { eapply (proj1 (Forall_lookup _ _) Hpaths); eauto. }
    destruct (step_call_spec path c (shared sys) c' shared' Hc Hs) as (Hp' & Hkeep & Hacq).
    pose proof (count_insert acquired (callers sys) i c c' Hi) as Hins.
    split; simpl.
    + apply Forall_insert; done.
    + assert (Hge : acquired c = true → (1 ≤ count acquired (callers sys))%nat).
      { intros Hwas.
        rewrite <- (take_drop_middle _ _ _ Hi), count_app, count_cons, Hwas. lia. }
      destruct (acquired c') eqn:Hc'.
      * destruct (Hacq eq_refl) as [Hwas|[Hnone Hnow]].
        -- specialize (Hge Hwas). rewrite Hwas in Hins.
           destruct Hcount as [H0|[H1 Hex]]; [lia|].
           right. split; [lia|eauto].
        -- destruct Hcount as [H0|[H1 Hex]].
           ++ right. split; [|done]. destruct (acquired c); [specialize (Hge eq_refl)|]; lia.
           ++ rewrite Hnone in Hex. by destruct Hex.
      * destruct Hcount as [H0|[H1 Hex]].
        -- left. destruct (acquired c); lia.
        -- destruct (acquired c); [left; lia|right; split; [lia|eauto]].
  - split; [done|]. simpl. destruct Hcount as [H0|[H1 Hex]]; [by left|right].
    split; [done|]. unfold unlinkSync.
    destruct (entries (shared sys) !! p) as [[ino d|]|] eqn:He; simpl; try done.
    destruct (entry_fault (shared sys) p); simpl; [done|].
    rewrite lookup_delete_ne; [done|]. intros ->. done.
  - split; [done|]. simpl. destruct Hcount as [H0|[H1 Hex]]; [by left|right].
    split; [done|]. unfold writeFileSync_path.
    destruct (entries (shared sys) !! p) as [[ino d|]|] eqn:He; simpl; try done.
    + destruct (io_fault (shared sys)); simpl; [done|].
      destruct (decide (p = path)) as [->|]; [by rewrite lookup_insert_eq|].
      by rewrite lookup_insert_ne.
    + destruct (entry_fault (shared sys) p); simpl; [done|].
      destruct (decide (p = path)) as [->|]; [by rewrite lookup_insert_eq|].
      by rewrite lookup_insert_ne.
Qed.

Lemma inv_exec path schedule sys :
  Forall (λ a, a ≠ Unlink path) schedule → inv path sys → inv path (exec schedule sys).
Proof.
  intros Hs. revert sys. induction Hs as [|a schedule Ha _ IH]; intros sys Hinv; [done|].
  simpl. apply IH. by apply inv_exec1.
Qed.

(** C1.  Let any number of [tryBecomeMain] calls, by any processes and
    managers, on the same lock path be about to open the lock file, and
    let the kernel run their system calls, and the [writeLock]s and
    [removeLock]s of others, in any order.  As long as no [removeLock]
    of that path runs, at most one of the calls gets through its
    exclusive create, so at most one returns [true]: whichever creates
    the file holds the path against every later 'wx' open. *)
Theorem C1_at_most_one_main path sys schedule :
  Forall (λ c, caller_path c = path ∧ pc c = AtOpen) (callers sys) →
  Forall (λ a, a ≠ Unlink path) schedule →
  (count acquired (callers (exec schedule sys)) ≤ 1)%nat
  ∧ (count returned_true (callers (exec schedule sys)) ≤ 1)%nat.
Proof.
  intros Hstart Hsched.
  assert (Hinv : inv path sys).
  { split.
    - eapply Forall_impl; [exact Hstart|]. by intros c [? ?].
    - left. apply count_none. eapply Forall_impl; [exact Hstart|].
      intros c [_ Hpc]. unfold acquired. by rewrite Hpc. }
  pose proof (inv_exec path schedule sys Hsched Hinv) as [_ Hcount].
  assert (count acquired (callers (exec schedule sys)) ≤ 1)%nat
    by (destruct Hcount as [->|[-> _]]; lia).
  split; [done|].
  etransitivity; [|eassumption]. apply count_le.
  intros c. unfold returned_true, acquired. by destruct (pc c) as [| | |[]|].
Qed.
(** The sequential [tryBecomeMain] is its three system calls run back
    to back on the shared file system. *)
Lemma tryBecomeMain_is_three_steps s :
  let '(c, f) := steps 3 {| mgr := s; pc := AtOpen |} (fs (InstanceManager.world s)) in
  match InstanceManager.tryBecomeMain s with
  | (Ok b, s') => pc c = Returned b ∧ fs (InstanceManager.world s') = f
  | (Throw err, s') => pc c = Rejected err ∧ fs (InstanceManager.world s') = f
  end.
Proof.
  destruct s as [[lp pt vg r pp l] [[en ni ef rf io] nw ppid kf pb ct]].
  unfold InstanceManager.tryBecomeMain, steps, step_call, caller_path, caller_data,
    openSync_wx, writeFileSync_fd, closeSync.
  unfold_m. cbn -[lookup insert fmap].
  destruct (en !! lp) eqn:He; cbn -[lookup insert fmap]; [done|].
  destruct (ef lp) as [c|]; cbn -[lookup insert fmap]; [by destruct c|].
  destruct io as [c|]; cbn -[lookup insert fmap]; [by destruct c|done].
Qed.

End Election.

(** The repository's contention test, interleaved: one [true]. *)
Lemma C1_at_most_one_main_witness :
  let sys := @Race.exec JSON_text DemoRace.interleaved DemoRace.three in
  map Race.pc (Race.callers sys)
  = [Race.Returned false; Race.Returned true; Race.Returned false]
  ∧ (Race.count Race.acquired (Race.callers sys) ≤ 1)%nat
  ∧ (Race.count Race.returned_true (Race.callers sys) ≤ 1)%nat.
Proof.
  intros sys. split; [vm_compute; reflexivity|].
  apply (@C1_at_most_one_main JSON_text Demo.lock_file DemoRace.three
           DemoRace.interleaved).
  - repeat constructor.
  - repeat constructor; discriminate.
Defined.

(** The hypothesis is needed: across a [removeLock] two calls return
    [true], one for each generation of the file. *)
Lemma two_mains_across_removeLock :
  map Race.pc
    (Race.callers (@Race.exec JSON_text DemoRace.with_removeLock DemoRace.three))
  = [Race.Returned true; Race.Returned true; Race.AtOpen].
Proof. vm_compute; reflexivity. Qed.

(* ===================================================================== *)
(** * More of the instance manager *)
(* ===================================================================== *)

Section Methods.
Context `{JSON}.
Import InstanceManager.

(** A successful [tryBecomeMain]: where it started and what it left. *)
Lemma tryBecomeMain_true s s' :
  tryBecomeMain s = (Ok true, s') →
  entries (fs (world s)) !! _lockPath (this s) = None
  ∧ entries (fs (world s')) !! _lockPath (this s)
    = Some (File (next_ino (fs (world s)))
              (JSON_stringify (lock_to_json (own_lock s))))
  ∧ this s' = {| _lockPath := _lockPath (this s); _port := _port (this s);
                 _versionGetter := _versionGetter (this s); role := MAIN;
                 proxyPort := proxyPort (this s); lock := Some (own_lock s) |}
  ∧ now (world s') = now (world s).
Proof.
  destruct s as [[lp pt vg r pp l] [[en ni ef rf io] nw ppid kf pb ct]].
  unfold tryBecomeMain, openSync_wx, writeFileSync_fd, closeSync, own_lock.
  unfold_m. cbn -[lookup insert fmap].
  destruct (en !! lp) eqn:He; cbn -[lookup insert fmap]; [discriminate|].
  destruct (ef lp) as [c|]; cbn -[lookup insert fmap].
  { destruct (decide _); discriminate. }
  destruct io as [c|]; cbn -[lookup insert fmap].
  { destruct (decide _); discriminate. }
  intros [= <-]. cbn -[lookup insert fmap].
  rewrite lookup_fmap, !lookup_insert_eq. cbn -[lookup insert fmap].
  unfold write_ino; cbn. rewrite decide_True by done. done.
Qed.

(** X1.  When [tryBecomeMain] returns [true], the lock path was free
    before the call; after it the lock file holds the JSON text of the
    record with this process's PID, the manager's version and the time
    of the call, [this.lock] is that record and [this.role] is MAIN;
    and a second [tryBecomeMain] on the same manager returns [false]
    and changes nothing. *)
Theorem X1_tryBecomeMain_success s s' :
  tryBecomeMain s = (Ok true, s') →
  entries (fs (world s)) !! _lockPath (this s) = None
  ∧ (∃ ino, entries (fs (world s')) !! _lockPath (this s')
            = Some (File ino (JSON_stringify (lock_to_json (own_lock s)))))
  ∧ lock (this s') = Some (own_lock s)
  ∧ role (this s') = MAIN
  ∧ tryBecomeMain s' = (Ok false, s').
Proof.
  intros Hrun. destruct (tryBecomeMain_true s s' Hrun) as (Hfree & Hfile & Hthis & _).
  assert (Hp : _lockPath (this s') = _lockPath (this s)) by (by rewrite Hthis).
  rewrite Hp. split; [done|]. split; [eauto|].
  split; [by rewrite Hthis|]. split; [by rewrite Hthis|].
  pose proof (tryBecomeMain_cases s') as Hc. simpl in Hc.
  unfold openSync_wx in Hc. rewrite Hp, Hfile in Hc. rewrite Hc.
  by rewrite decide_True.
Qed.

(** X2.  When the lock path is free and its name can be created but
    the write fails, [tryBecomeMain] throws the error of the write and
    leaves the manager as it was, but the empty file it has created
    stays: every later [tryBecomeMain] returns [false], and [readLock]
    returns [null]. *)
Theorem X2_tryBecomeMain_failed_write s c :
  entries (fs (world s)) !! _lockPath (this s) = None →
  entry_fault (fs (world s)) (_lockPath (this s)) = None →
  io_fault (fs (world s)) = Some c →
  ∃ s', tryBecomeMain s = (Throw (SystemError (fault_code c) "write"), s')
    ∧ this s' = this s
    ∧ (∃ ino, entries (fs (world s')) !! _lockPath (this s)
              = Some (File ino EmptyString))
    ∧ tryBecomeMain s' = (Ok false, s')
    ∧ fst (readLock s') = Ok None.
Proof.
  destruct s as [[lp pt vg r pp l] [[en ni ef rf io] nw ppid kf pb ct]].
  cbn -[lookup]. intros He Hf ->.
  eexists. split.
  { unfold tryBecomeMain, openSync_wx, writeFileSync_fd. unfold_m.
    cbn -[lookup insert fmap]. rewrite He, Hf. cbn -[lookup insert fmap].
    destruct c; reflexivity. }
  cbn -[lookup insert fmap]. rewrite lookup_insert_eq.
  split; [done|]. split; [eauto|]. split.
  - unfold tryBecomeMain, openSync_wx. unfold_m.
    cbn -[lookup insert fmap]. rewrite lookup_insert_eq. reflexivity.
  - unfold readLock, existsSync, readFileSync, parse_lock. unfold_m.
    cbn -[lookup insert fmap]. rewrite lookup_insert_eq. cbn -[lookup insert fmap].
    rewrite lookup_insert_eq. destruct (rf lp); cbn; [done|].
    rewrite JSON_parse_empty. reflexivity.
Qed.

(** [readLock], result and state. *)
Lemma readLock_exact s :
  readLock s
  = (Ok (spec_read (_lockPath (this s)) (fs (world s))),
     match entries (fs (world s)) !! _lockPath (this s) with
     | None => set_lock None s
     | Some _ =>
         match spec_read (_lockPath (this s)) (fs (world s)) with
         | Some l => set_lock (Some l) s
         | None => s
         end
     end).
Proof.
  destruct s as [[lp pt vg r pp l] [[en ni ef rf io] nw ppid kf pb ct]].
  unfold readLock, spec_read, existsSync, readFileSync. unfold_m. cbn -[lookup].
  destruct (en !! lp) as [[ino raw|]|] eqn:He;
    cbn -[lookup]; rewrite ?He; cbn -[lookup]; try reflexivity.
  destruct (rf lp); simpl; [reflexivity|].
  match goal with
  | |- context [parse_lock raw ?s] => pose proof (parse_lock_spec raw s) as Hp
  end.
  destruct (JSON_parse raw) as [j|]; simpl.
  - destruct j; simpl in *; try (rewrite Hp; reflexivity).
    + destruct Hp as [err ->]; reflexivity.
    + destruct (match assoc_last "pid" fields with Some (JNumber _) => _ | _ => _ end);
        rewrite Hp; reflexivity.
  - destruct Hp as [err ->]. reflexivity.
Qed.

(** X3.  [readLock] changes nothing but [this.lock]: it sets it to the
    record it returns, and to [null] when the lock file is absent; but
    when the path exists and no record can be read from it (a
    directory, an unreadable or a corrupt file), it returns [null] and
    leaves [this.lock] at its old value. *)
Theorem X3_readLock_cached_lock s :
  let '(r, s') := readLock s in
  world s' = world s
  ∧ _lockPath (this s') = _lockPath (this s)
  ∧ role (this s') = role (this s)
  ∧ (∀ l, r = Ok (Some l) → lock (this s') = Some l)
  ∧ (entries (fs (world s)) !! _lockPath (this s) = None →
     r = Ok None ∧ lock (this s') = None)
  ∧ (is_Some (entries (fs (world s)) !! _lockPath (this s)) → r = Ok None →
     lock (this s') = lock (this s)).
Proof.
  rewrite readLock_exact.
  destruct (entries (fs (world s)) !! _lockPath (this s)) as [n|] eqn:He.
  - destruct (spec_read _ _) as [l|] eqn:Hs; simpl; repeat split; try done;
      try (by intros l' [= <-]); by intros [? ?] _.
  - assert (spec_read (_lockPath (this s)) (fs (world s)) = None) as ->
      by (unfold spec_read; by rewrite He).
    simpl. repeat split; try done; by intros [? ?].
Qed.

(** X4.  After a [writeLock] that returns, [this.lock] is the record
    of this process, and a [readLock] returns that record and changes
    nothing, provided the file can be read and [JSON.parse] reads back
    what [JSON.stringify] has printed of the record. *)
Theorem X4_writeLock_readLock s s' :
  writeLock s = (Ok tt, s') →
  read_fault (fs (world s)) (_lockPath (this s)) = None →
  (JSON_parse (JSON_stringify (lock_to_json (own_lock s)))
   ≫= spec_record) = Some (own_lock s) →
  lock (this s') = Some (own_lock s)
  ∧ readLock s' = (Ok (Some (own_lock s)), s').
Proof.
  intros Hw Hrf Hrt. rewrite readLock_exact.
  destruct s as [[lp pt vg r pp l] [[en ni ef rf io] nw ppid kf pb ct]].
  revert Hw. unfold writeLock, writeFileSync_path, own_lock, spec_read in *. unfold_m.
  cbn -[lookup insert] in *.
  destruct (en !! lp) as [[ino raw|]|] eqn:He; cbn -[lookup insert]; try discriminate.
  - destruct io; cbn -[lookup insert]; [discriminate|]. intros [= <-].
    cbn -[lookup insert]. rewrite lookup_insert_eq, Hrf.
    change (λ j : json, spec_record j) with spec_record. rewrite Hrt. done.
  - destruct (ef lp); cbn -[lookup insert]; [discriminate|]. intros [= <-].
    cbn -[lookup insert]. rewrite lookup_insert_eq, Hrf.
    change (λ j : json, spec_record j) with spec_record. rewrite Hrt. done.
Qed.

(** X5.  [removeLock] never throws and leaves the manager as it is; it
    removes the lock file when there is one and the name can be
    removed, and otherwise (no file, a directory, a refusal of the
    kernel) changes nothing; a second [removeLock] changes nothing
    more. *)
Theorem X5_removeLock_idempotent s :
  ∃ s', removeLock s = (Ok tt, s')
    ∧ removeLock s' = (Ok tt, s')
    ∧ this s' = this s
    ∧ entries (fs (world s'))
      = match entries (fs (world s)) !! _lockPath (this s),
              entry_fault (fs (world s)) (_lockPath (this s)) with
        | Some (File _ _), None => delete (_lockPath (this s)) (entries (fs (world s)))
        | _, _ => entries (fs (world s))
        end.
Proof.
  destruct s as [[lp pt vg r pp l] [[en ni ef rf io] nw ppid kf pb ct]].
  unfold removeLock, unlinkSync. unfold_m. cbn -[lookup delete].
  destruct (en !! lp) as [[ino raw|]|] eqn:He; cbn -[lookup delete].
  - destruct (ef lp) eqn:Hf; cbn -[lookup delete].
    + eexists. split; [reflexivity|]. cbn -[lookup delete]. rewrite He, Hf. done.
    + eexists. split; [reflexivity|]. cbn -[lookup delete]. rewrite lookup_delete_eq. done.
  - eexists. split; [reflexivity|]. cbn -[lookup delete]. rewrite He. done.
  - eexists. split; [reflexivity|]. cbn -[lookup delete]. rewrite He. done.
Qed.

(** X6.  On a file system that refuses nothing, [removeLock] followed
    by [tryBecomeMain] returns [true] whatever lock file was there,
    and returns [false] exactly when the lock path is a directory,
    which [removeLock] does not remove. *)
Theorem X6_removeLock_then_tryBecomeMain s :
  entry_fault (fs (world s)) (_lockPath (this s)) = None →
  io_fault (fs (world s)) = None →
  fst ((removeLock;; tryBecomeMain) s)
  = Ok (match entries (fs (world s)) !! _lockPath (this s) with
        | Some Dir => false
        | _ => true
        end).
Proof.
  destruct s as [[lp pt vg r pp l] [[en ni ef rf io] nw ppid kf pb ct]].
  cbn -[lookup]. intros Hf ->.
  unfold removeLock, unlinkSync, tryBecomeMain, openSync_wx, writeFileSync_fd, closeSync.
  unfold_m. cbn -[lookup delete insert fmap].
  destruct (en !! lp) as [[ino raw|]|] eqn:He; cbn -[lookup delete insert fmap];
    rewrite ?Hf; cbn -[lookup delete insert fmap];
    rewrite ?lookup_delete_eq, ?He, ?Hf; cbn -[lookup delete insert fmap]; done.
Qed.

Lemma isPidAlive_exact p s :
  isPidAlive p s
  = (Ok (bool_decide (0 < p) && bool_decide (kill_fault (world s) p = None)), s).
Proof.
  unfold isPidAlive. unfold_m.
  destruct (Z.leb_spec p 0).
  - rewrite bool_decide_false by lia. reflexivity.
  - rewrite bool_decide_true by lia. cbn.
    destruct (kill_fault (world s) p); reflexivity.
Qed.

(** X7.  [isPidAlive] never throws and changes nothing; it answers
    [true] exactly for a positive PID to which signal 0 can be
    delivered, so [false] for 0 and for negative numbers whatever the
    process table holds. *)
Theorem X7_isPidAlive p s :
  ∃ b, isPidAlive p s = (Ok b, s)
       ∧ (b = true ↔ 0 < p ∧ kill_fault (world s) p = None).
Proof.
  rewrite isPidAlive_exact. eexists. split; [reflexivity|].
  rewrite andb_true_iff, !bool_decide_eq_true. done.
Qed.

Lemma fetchMainVersion_exact s :
  fetchMainVersion s
  = (Ok (match control (world s) (_port (this s)) "GET" "/__version" with
         | Some (_, data) => body_version data
         | None => None
         end), s).
Proof.
  unfold fetchMainVersion, body_version. unfold_m. cbn.
  destruct (control _ _ _ _) as [[st data]|]; [|reflexivity].
  destruct (JSON_parse data) as [[]|]; reflexivity.
Qed.


Lemma later_0 s : later 0 s = s.
Proof.
  destruct s as [th [f nw ppid kf pb ct]]. unfold later, on_world, with_now. cbn.
  by rewrite Z.add_0_r.
Qed.

Lemma later_later a b s : later b (later a s) = later (a + b) s.
Proof.
  destruct s as [th [f nw ppid kf pb ct]]. unfold later, on_world, with_now. cbn.
  by rewrite Z.add_assoc.
Qed.

(** The loop of [waitForPort]: the probes made, the time taken, the
    answer. *)
Lemma waitForPort_loop_result fuel start timeout s :
  (passes_left start timeout s < fuel)%nat →
  ∃ (k : nat) (b : bool),
    waitForPort_loop fuel start timeout s = (Ok b, later (300 * Z.of_nat k) s)
    ∧ (∀ j : nat, (j < k)%nat →
         now (world s) + 300 * Z.of_nat j - start < timeout
         ∧ port_busy (world s) (_port (this s)) (now (world s) + 300 * Z.of_nat j) = true)
    ∧ (if b
       then now (world s) + 300 * Z.of_nat k - start < timeout
            ∧ port_busy (world s) (_port (this s)) (now (world s) + 300 * Z.of_nat k)
              = false
       else timeout ≤ now (world s) + 300 * Z.of_nat k - start).
Proof.
  revert s. induction fuel as [|fuel IH]; intros s Hfuel; [lia|].
  destruct (Z.ltb_spec (now (world s) - start) timeout) as [Hlt|Hge].
  - destruct (port_busy (world s) (_port (this s)) (now (world s))) eqn:Hbusy.
    + pose proof (passes_left_sleep start timeout s Hlt) as Hp.
      destruct (IH (later 300 s)) as (k & b & Hrun & Hbefore & Hend);
        [unfold later; lia|].
      exists (S k), b. split; [|split].
      * simpl waitForPort_loop. unfold_m. simpl.
        destruct (Z.ltb_spec (now (world s) - start) timeout); [|lia].
        rewrite Hbusy. simpl.
        change (on_world (λ w, with_now (now w + 300) w) s) with (later 300 s).
        rewrite Hrun, later_later. do 2 f_equal. lia.
      * intros [|j] Hj.
        { rewrite Z.mul_0_r, Z.add_0_r. done. }
        specialize (Hbefore j ltac:(lia)). simpl in Hbefore.
        replace (now (world s) + 300 * Z.of_nat (S j))
          with (now (world s) + 300 + 300 * Z.of_nat j) by lia.
        done.
      * simpl in Hend.
        replace (now (world s) + 300 * Z.of_nat (S k))
          with (now (world s) + 300 + 300 * Z.of_nat k) by lia.
        done.
    + exists 0%nat, true. rewrite waitForPort_loop_free by done.
      rewrite later_0, Z.mul_0_r, Z.add_0_r. split; [done|]. split; [lia|done].
  - exists 0%nat, false. rewrite waitForPort_loop_expired by lia.
    rewrite later_0, Z.mul_0_r, Z.add_0_r. split; [done|]. split; [lia|lia].
Qed.

Lemma waitForPort_fuel_bound timeout s :
  (passes_left (now (world s)) timeout s < waitForPort_fuel timeout)%nat.
Proof.
  unfold passes_left, waitForPort_fuel.
  replace (timeout - (now (world s) - now (world s)) + 299) with (timeout + 299) by lia.
  assert ((timeout + 299) / 300 ≤ timeout / 300 + 1).
  { replace (timeout + 299) with (timeout - 1 + 1 * 300) by lia.
    rewrite Z.div_add by lia.
    assert ((timeout - 1) / 300 ≤ timeout / 300) by (apply Z.div_le_mono; lia). lia. }
  lia.
Qed.

(** X9.  [waitForPort] never throws and changes nothing but the
    clock.  It probes the port at the times [start + 300 k] for
    [k = 0, 1, ...] as long as [300 k] is below the timeout, returns
    [true] at the first probe that finds the port free, without
    waiting further, and returns [false] once [300 k] has reached the
    timeout, every probe before having found the port held. *)
Theorem X9_waitForPort_result timeoutMs s :
  let timeout := timeoutMs ?? 10000 in
  ∃ (k : nat) (b : bool),
    waitForPort timeoutMs s = (Ok b, later (300 * Z.of_nat k) s)
    ∧ (∀ j : nat, (j < k)%nat →
         300 * Z.of_nat j < timeout
         ∧ port_busy (world s) (_port (this s)) (now (world s) + 300 * Z.of_nat j) = true)
    ∧ (if b
       then 300 * Z.of_nat k < timeout
            ∧ port_busy (world s) (_port (this s)) (now (world s) + 300 * Z.of_nat k)
              = false
       else timeout ≤ 300 * Z.of_nat k).
Proof.
  intros timeout. rewrite waitForPort_unfold. fold timeout.
  destruct (waitForPort_loop_result (waitForPort_fuel timeout) (now (world s)) timeout s
              (waitForPort_fuel_bound timeout s))
    as (k & b & Hrun & Hbefore & Hend).
  exists k, b. split; [done|]. split.
  - intros j Hj. destruct (Hbefore j Hj). split; [lia|done].
  - destruct b; [destruct Hend; split; [lia|done]|lia].
Qed.

Lemma frame_refl s : frame s s.
Proof. unfold frame. repeat split; reflexivity. Qed.

Lemma frame_trans s1 s2 s3 : frame s1 s2 → frame s2 s3 → frame s1 s3.
Proof. unfold frame. intros. repeat split; destruct_and?; try congruence. lia. Qed.

Ltac frame_done :=
  unfold frame; cbn; repeat split; try reflexivity; try lia;
  first [left; reflexivity | right; split; reflexivity].

(** Every method keeps the frame, and only a [tryBecomeMain] that
    returns [true] changes the role. *)
Lemma InstanceManager_handle_frame X (c : Call X) s :
  let '(r, s') := InstanceManager_handle c s in
  frame s s'
  ∧ (role (this s') = role (this s)
     ∨ log_call c r = EvTryBecomeMain (Ok true) ∧ role (this s') = MAIN).
Proof.
  destruct c; simpl.
  - unfold_m. frame_done.
  - unfold_m. frame_done.
  - destruct s as [[lp pt vg r pp l] [[en ni ef rf io] nw ppid kf pb ct]].
    unfold tryBecomeMain, openSync_wx, writeFileSync_fd, closeSync.
    unfold_m. cbn -[lookup insert fmap].
    destruct (en !! lp); cbn -[lookup insert fmap]; [frame_done|].
    destruct (ef lp) as [c|]; cbn -[lookup insert fmap].
    { destruct (decide _); frame_done. }
    destruct io as [c|]; cbn -[lookup insert fmap].
    { destruct (decide _); frame_done. }
    frame_done.
  - rewrite readLock_exact.
    destruct (entries _ !! _); [destruct (spec_read _ _)|]; frame_done.
  - destruct s as [[lp pt vg r pp l] [[en ni ef rf io] nw ppid kf pb ct]].
    unfold removeLock, unlinkSync. unfold_m. cbn -[lookup delete].
    destruct (en !! lp) as [[ino raw|]|]; cbn -[lookup delete]; try frame_done.
    destruct (ef lp); frame_done.
  - rewrite isPidAlive_exact. frame_done.
  - rewrite fetchMainVersion_exact. frame_done.
  - unfold requestMainTransition. unfold_m. cbn.
    destruct (control _ _ _ _) as [[? ?]|]; frame_done.
  - rewrite waitForPort_unfold.
    destruct (waitForPort_loop_result (waitForPort_fuel (timeoutMs ?? 10000))
                (now (world s)) (timeoutMs ?? 10000) s (waitForPort_fuel_bound _ s))
      as (k & b & -> & _).
    unfold later. frame_done.
Qed.

Lemma handle_frame_step s0 X (c : Call X) w r w1 :
  InstanceManager_handle c w = (r, w1) → frame s0 w → frame s0 w1.
Proof.
  intros Hh Hw. pose proof (InstanceManager_handle_frame X c w) as Hf.
  rewrite Hh in Hf. destruct Hf as [Hf _]. eapply frame_trans; eauto.
Qed.

End Methods.

(* ===================================================================== *)
(** * Runs against the instance manager *)
(* ===================================================================== *)

Section Runs.
Context {E : Type → Type} {Ev W A : Type}.
Context (log : ∀ X, E X → Result X → Ev) (h : ∀ X, E X → M W X).

(** A property of the state that every call keeps is kept by a run. *)
Lemma run_invariant (P : W → Prop) (ok : Ev → Prop) :
  (∀ X (c : E X) w r w1, h X c w = (r, w1) → ok (log X c r) → P w → P w1) →
  ∀ (p : prog E A) w res w' tr,
    run log h p w = (res, w', tr) → Forall ok tr → P w → P w'.
Proof.
  intros Hstep p. induction p as [a|err|X c k IH]; intros w res w' tr; simpl.
  - by intros [= <- <- <-].
  - by intros [= <- <- <-].
  - destruct (h X c w) as [r w1] eqn:Hh.
    destruct (run log h (k r) w1) as [[res1 w2] tr1] eqn:Hr.
    intros [= <- <- <-] Hall Hw. inversion Hall; subst.
    eapply IH; eauto.
Qed.

(** The final state of a run is the one its last call has left. *)
Lemma run_last_invariant (P : W → Prop) :
  (∀ X (c : E X) w r w1, h X c w = (r, w1) → P w → P w1) →
  ∀ (p : prog E A) w res w' tr e,
    run log h p w = (res, w', tr) → P w → last tr = Some e →
    ∃ X (c : E X) r w1, P w1 ∧ h X c w1 = (r, w') ∧ e = log X c r.
Proof.
  intros Hstep p. induction p as [a|err|X c k IH]; intros w res w' tr e; simpl.
  - by intros [= <- <- <-].
  - by intros [= <- <- <-].
  - destruct (h X c w) as [r w1] eqn:Hh.
    destruct (run log h (k r) w1) as [[res1 w2] tr1] eqn:Hr.
    intros [= <- <- <-] Hw Hlast.
    destruct tr1 as [|e1 tr1].
    + simpl in Hlast. injection Hlast as <-.
      destruct (k r); simpl in Hr; try (injection Hr as <- <-; eauto 10).
      destruct (h X0 c0 w1), (run log h _ _) as [[? ?] ?]. discriminate.
    + eapply IH; eauto.
Qed.

End Runs.

Section ManagerRuns.
Context `{JSON}.
Import InstanceManager.

Lemma run_frame {A} (p : prog Call A) s res s' tr :
  run (@log_call) (@InstanceManager_handle _) p s = (res, s', tr) → frame s s'.
Proof.
  intros Hrun.
  eapply (run_invariant (@log_call) (@InstanceManager_handle _)
            (λ w, frame s w) (λ _, True)); eauto using frame_refl.
  - intros X c w r w1 Hh _ Hw. eapply handle_frame_step; eauto.
  - clear. induction tr; constructor; auto.
Qed.

Lemma run_role {A} (p : prog Call A) s res s' tr :
  run (@log_call) (@InstanceManager_handle _) p s = (res, s', tr) →
  Forall try_failed tr → role (this s') = role (this s).
Proof.
  intros Hrun Hall.
  eapply (run_invariant (@log_call) (@InstanceManager_handle _)
            (λ w, role (this w) = role (this s)) try_failed); eauto.
  intros X c w r w1 Hh Hok Hw. pose proof (InstanceManager_handle_frame X c w) as Hf.
  rewrite Hh in Hf. destruct Hf as [_ [Hr|[Hr _]]]; [congruence|].
  rewrite Hr in Hok. discriminate.
Qed.

(** X10.  Whatever sequence of its methods is called on an
    [InstanceManager] (any program over the interface
    [IInstanceManager] and [isPidAlive]), the lock path, the port, the
    version getter and [proxyPort] stay as they were, the clock does
    not go back, and the role changes only in a [tryBecomeMain] that
    returns [true]: no method sets the role to PROXY. *)
Theorem X10_methods_frame {A} (p : prog Call A) s :
  let '(res, s', tr) := run (@log_call) (@InstanceManager_handle _) p s in
  frame s s'
  ∧ (Forall try_failed tr → role (this s') = role (this s))
  ∧ (role (this s') = role (this s) ∨ role (this s') = MAIN).
Proof.
  destruct (run _ _ p s) as [[res s'] tr] eqn:Hrun.
  split; [by eapply run_frame|]. split; [by eapply run_role|].
  eapply (run_invariant (@log_call) (@InstanceManager_handle _)
            (λ w, role (this w) = role (this s) ∨ role (this w) = MAIN) (λ _, True));
    eauto.
  - intros X c w r w1 Hh _ Hw. pose proof (InstanceManager_handle_frame X c w) as Hf.
    rewrite Hh in Hf. destruct Hf as [_ [Hr|[_ Hr]]]; [rewrite Hr; done|by right].
  - clear. induction tr; constructor; auto.
Qed.

End ManagerRuns.

(* ===================================================================== *)
(** * More of the coordinator *)
(* ===================================================================== *)

Lemma wins_last_split tr :
  wins_last tr →
  ∃ pre, tr = (pre ++ [EvTryBecomeMain (Ok true)])%list ∧ Forall try_failed pre.
Proof.
  induction tr as [|e [|e' t] IH]; simpl; [done| |].
  - intros ->. by exists [].
  - intros [He Ht]. destruct (IH Ht) as (pre & -> & Hpre).
    exists (e :: pre). split; [done|by constructor].
Qed.

Lemma fetches_last_split mv tr :
  fetches_last mv tr →
  ∃ pre, tr = (pre ++ [EvFetchMainVersion (Ok mv)])%list ∧ Forall try_failed pre.
Proof.
  induction tr as [|e [|e' t] IH]; simpl; [done| |].
  - intros ->. by exists [].
  - intros [He Ht]. destruct (IH Ht) as (pre & -> & Hpre).
    exists (e :: pre). split; [done|by constructor].
Qed.

Section Outcomes.
Context {W : Type} (h : ∀ X, Call X → M W X).

(** How a run that returns has ended. *)
Lemma coordinate_outcome options w res w' tr :
  run (@log_call) h (coordinateInstanceRole options) w = (res, w', tr) →
  match res with
  | Ok (CoordinateInstanceMainResult reason previousVersion) =>
      ∃ pre, tr = (pre ++ [EvTryBecomeMain (Ok true)])%list ∧ Forall try_failed pre
  | Ok (CoordinateInstanceProxyResult mainVersion) =>
      (∃ pre, tr = (pre ++ [EvFetchMainVersion (Ok mainVersion)])%list
              ∧ Forall try_failed pre)
      ∧ mainVersion = Some (desired_of options tr)
  | Throw _ => True
  end.
Proof.
  destruct options as [dv wt rs]. unfold coordinateInstanceRole.
  destruct rs as [[|]|]; destruct dv as [v|]; run_cases h;
    intros [= <- <- <-]; try exact I.
  all: lazymatch goal with
       | |- ∃ pre, _ = (pre ++ [EvTryBecomeMain _])%list ∧ _ =>
           apply wins_last_split; cbn; tauto
       | |- (∃ pre, _ = (pre ++ [EvFetchMainVersion _])%list ∧ _) ∧ _ =>
           split; [apply fetches_last_split; cbn; tauto|cbn; by apply dec_stable]
       end.
Qed.

(** X11.  Every run of [coordinateInstanceRole] that returns primary
    has made exactly one successful [tryBecomeMain], as its last call;
    its reason is 'initial' exactly when that was the first call on
    the lock, and 'version-transition' exactly when the main has
    granted a transition, which is also exactly when
    [previousVersion] is set.  Every run that returns secondary has
    made no successful [tryBecomeMain] and no transition request, its
    last call is the [fetchMainVersion] whose answer it returns, and
    that answer is the desired version. *)
Theorem X11_coordinate_result_trace options w :
  let '(res, _, tr) := run (@log_call) h (coordinateInstanceRole options) w in
  match res with
  | Ok (CoordinateInstanceMainResult reason previousVersion) =>
      (∃ pre, tr = (pre ++ [EvTryBecomeMain (Ok true)])%list ∧ Forall try_failed pre)
      ∧ (reason = initial ↔ skip_version tr = [EvTryBecomeMain (Ok true)])
      ∧ (reason = version_transition ↔ EvRequestMainTransition (Ok true) ∈ tr)
      ∧ (previousVersion ≠ None ↔ reason = version_transition)
  | Ok (CoordinateInstanceProxyResult mainVersion) =>
      (∃ pre, tr = (pre ++ [EvFetchMainVersion (Ok mainVersion)])%list
              ∧ Forall try_failed pre)
      ∧ mainVersion = Some (desired_of options tr)
      ∧ Forall (λ e, is_transition_request e = false) tr
  | Throw _ => True
  end.
Proof.
  destruct options as [dv wt rs]. unfold coordinateInstanceRole.
  destruct rs as [[|]|]; destruct dv as [v|]; run_cases h; try exact I.
  all: lazymatch goal with
       | |- (∃ pre, _ = (pre ++ [EvTryBecomeMain _])%list ∧ _) ∧ _ =>
           split; [apply wins_last_split; cbn; tauto|]
       | |- (∃ pre, _ = (pre ++ [EvFetchMainVersion _])%list ∧ _) ∧ _ =>
           split; [apply fetches_last_split; cbn; tauto|]
       end.
  all: cbn; repeat split;
       try match goal with |- Forall _ _ => repeat constructor end;
       try (intros Hx; first [done | discriminate Hx | congruence | set_solver]);
       try by apply dec_stable.
Qed.

(** X12.  With [removeStaleLock: false], [coordinateInstanceRole]
    never reads the lock and never probes a PID, and it calls
    [removeLock] only after the main has granted a transition. *)
Theorem X12_coordinate_no_stale_removal options w :
  removeStaleLock options = Some false →
  let tr := (run (@log_call) h (coordinateInstanceRole options) w).2 in
  Forall (λ e, is_inspection e = false) tr
  ∧ ∀ pre r rest, tr = (pre ++ EvRemoveLock r :: rest)%list →
      EvRequestMainTransition (Ok true) ∈ pre.
Proof.
  destruct options as [dv wt rs]. cbn. intros ->. unfold coordinateInstanceRole.
  destruct dv as [v|]; run_cases h.
  all: split; [repeat constructor|].
  all: intros pre r rest Htr; split_trace Htr pre; set_solver.
Qed.

End Outcomes.

Section Coordinated.
Context `{JSON}.
Import InstanceManager.

(** X13.  Whoever [coordinateInstanceRole] tells it is the main, for
    whatever reason, holds the lock: on a real [InstanceManager] a run
    that returns primary ends with the role MAIN, with [this.lock] a
    record of this process's PID and the manager's version, stamped
    during the run, and with the lock file holding the JSON text of
    exactly that record. *)
Theorem X13_coordinate_main_holds_lock options s reason previousVersion s' tr :
  run (@log_call) (@InstanceManager_handle _) (coordinateInstanceRole options) s
  = (Ok (CoordinateInstanceMainResult reason previousVersion), s', tr) →
  role (this s') = MAIN
  ∧ ∃ ino l, lock (this s') = Some l
      ∧ entries (fs (world s')) !! _lockPath (this s)
        = Some (File ino (JSON_stringify (lock_to_json l)))
      ∧ pid l = process_pid (world s)
      ∧ version l = _versionGetter (this s) tt
      ∧ now (world s) ≤ timestamp l ≤ now (world s').
Proof.
  intros Hrun.
  pose proof (coordinate_outcome _ _ _ _ _ _ Hrun) as (pre & Htr & Hpre).
  destruct (run_last_invariant (@log_call) (@InstanceManager_handle _) (frame s)
              (handle_frame_step s) _ _ _ _ _ (EvTryBecomeMain (Ok true)) Hrun)
    as (X & c & r & s1 & Hs1 & Hh & He).
  { apply frame_refl. }
  { rewrite Htr. apply last_snoc. }
  destruct c; try discriminate He. simpl in He. injection He as <-. simpl in Hh.
  destruct (tryBecomeMain_true _ _ Hh) as (_ & Hfile & Hthis & Hnow).
  destruct Hs1 as (Hp1 & _ & Hv1 & _ & Hpid1 & _ & _ & _ & Hnow1).
  split; [by rewrite Hthis|].
  exists (next_ino (fs (world s1))), (own_lock s1).
  rewrite <- Hp1, Hfile, Hthis. unfold own_lock. cbn.
  rewrite Hv1, Hpid1, Hnow. repeat split; try done.
Qed.

Lemma desired_of_real options s res s' tr :
  run (@log_call) (@InstanceManager_handle _) (coordinateInstanceRole options) s
  = (res, s', tr) →
  desired_of options tr = desiredVersion options ?? _versionGetter (this s) tt.
Proof.
  destruct options as [[v|] wt rs]; unfold desired_of; cbn -[coordinateInstanceRole];
    [done|].
  unfold coordinateInstanceRole. cbn -[run prog_bind InstanceManager_handle].
  match goal with
  | |- run _ _ (_ ≫= ?f) _ = _ → _ => set (F := f)
  end.
  cbn [mbind prog_mbind prog_bind run InstanceManager_handle].
  unfold get_version, gets, mbind, M_bind, bind, mret, M_ret, ret. cbn beta iota.
  destruct (run _ _ _ s) as [[r1 s1] tr1].
  intros [= <- <- <-]. reflexivity.
Qed.

(** X14.  On a real [InstanceManager] a run returns secondary only
    when a server on the manager's port has answered [/__version]
    with exactly the desired version (the one given, or else the
    manager's own); and it leaves the manager's role as it was: the
    result says PROXY, the manager is not told. *)
Theorem X14_coordinate_proxy_matches options s mainVersion s' tr :
  run (@log_call) (@InstanceManager_handle _) (coordinateInstanceRole options) s
  = (Ok (CoordinateInstanceProxyResult mainVersion), s', tr) →
  mainVersion = Some (desiredVersion options ?? _versionGetter (this s) tt)
  ∧ (∃ statusCode data,
       control (world s) (_port (this s)) "GET" "/__version" = Some (statusCode, data)
       ∧ body_version data = mainVersion)
  ∧ role (this s') = role (this s).
Proof.
  intros Hrun.
  pose proof (coordinate_outcome _ _ _ _ _ _ Hrun) as [(pre & Htr & Hpre) Hmv].
  rewrite (desired_of_real _ _ _ _ _ Hrun) in Hmv.
  split; [done|]. split.
  - destruct (run_last_invariant (@log_call) (@InstanceManager_handle _) (frame s)
                (handle_frame_step s) _ _ _ _ _ (EvFetchMainVersion (Ok mainVersion)) Hrun)
      as (X & c & r & s1 & Hs1 & Hh & He).
    { apply frame_refl. }
    { rewrite Htr. apply last_snoc. }
    destruct c; try discriminate He. simpl in He. injection He as <-. simpl in Hh.
    rewrite fetchMainVersion_exact in Hh. injection Hh as Hv _.
    destruct Hs1 as (_ & Hp1 & _ & _ & _ & _ & _ & Hc1 & _).
    rewrite Hc1, Hp1 in Hv.
    destruct (control _ _ _ _) as [[st data]|]; [eauto|].
    rewrite <- Hv in Hmv. discriminate.
  - eapply run_role; eauto. rewrite Htr. apply Forall_app. split; [done|].
    by repeat constructor.
Qed.

(** X15.  A lock file that another process has created and not yet
    written reads as [null], so [coordinateInstanceRole] with stale
    lock removal on takes it for stale: when process 1 has passed the
    exclusive create of its [tryBecomeMain] and process 2 then runs
    [coordinateInstanceRole], process 2 removes the file, creates its
    own and returns primary with reason 'lock-missing'; process 1 goes
    on to write through its descriptor and returns [true] too, and the
    lock file holds the record of process 2. *)
Theorem X15_coordinate_reclaims_unwritten_lock options s1 s2 :
  let p := _lockPath (this s2) in
  _lockPath (this s1) = p →
  entries (fs (world s2)) !! p = None →
  entry_fault (fs (world s2)) p = None →
  io_fault (fs (world s2)) = None →
  removeStaleLock options ≠ Some false →
  let '(c1, f1) := Race.steps 1 {| Race.mgr := s1; Race.pc := Race.AtOpen |}
                     (fs (world s2)) in
  let '(res, s2', tr) :=
    run (@log_call) (@InstanceManager_handle _) (coordinateInstanceRole options)
      (on_world (with_fs f1) s2) in
  let '(c1', f2) := Race.steps 2 c1 (fs (world s2')) in
  (∃ fd, Race.pc c1 = Race.AtWrite fd)
  ∧ res = Ok (CoordinateInstanceMainResult lock_missing None)
  ∧ role (this s2') = MAIN
  ∧ Race.pc c1' = Race.Returned true
  ∧ ∃ ino, entries f2 !! p = Some (File ino (JSON_stringify (lock_to_json (own_lock s2)))).
Proof.
  destruct s1 as [[lp1 pt1 vg1 r1 pp1 l1] w1].
  destruct s2 as [[lp pt vg r pp l] [[en ni ef rf io] nw ppid kf pb ct]].
  destruct options as [dv wt rs].
  cbn -[lookup]. intros -> Hen Hef -> Hrs.
  unfold Race.step_call, Race.caller_path, Race.caller_data, openSync_wx. cbn -[lookup insert].
  rewrite Hen, Hef. cbn -[lookup insert].
  assert (Hrs' : rs ?? true = true) by (destruct rs as [[|]|]; done).
  unfold coordinateInstanceRole. cbn -[lookup insert run prog_bind]. rewrite Hrs'.
  pose proof JSON_parse_empty as Hempty.
  destruct dv as [v|]; destruct (rf lp) eqn:Hrf;
    repeat (progress (
      cbn -[lookup insert delete fmap];
      unfold tryBecomeMain, readLock, removeLock, parse_lock, existsSync, readFileSync,
        unlinkSync, openSync_wx, writeFileSync_fd, closeSync, with_entries, write_ino;
      unfold_m;
      rewrite ?lookup_insert_eq, ?lookup_delete_eq, ?Hef, ?Hempty, ?Hrf,
        ?lookup_fmap, ?(decide_True (P := Some EEXIST = Some EEXIST)) by done)).
  all: repeat split; eauto.
  all: exists (S ni); cbn; rewrite decide_True by done; cbn;
       rewrite decide_False by lia; reflexivity.
Qed.

(** X16.  With a directory at the lock path and no server on the
    manager's port, [coordinateInstanceRole] throws the error of a
    denied transition, whatever its options, and leaves everything as
    it was: nothing it does removes the directory, so every later run
    fails the same way. *)
Theorem X16_coordinate_directory_lock options s :
  entries (fs (world s)) !! _lockPath (this s) = Some Dir →
  (∀ m u, control (world s) (_port (this s)) m u = None) →
  (run (@log_call) (@InstanceManager_handle _) (coordinateInstanceRole options) s).1
  = (Throw TransitionDenied, s).
Proof.
  destruct s as [[lp pt vg r pp l] [[en ni ef rf io] nw ppid kf pb ct]].
  destruct options as [dv wt rs].
  cbn -[lookup]. intros Hen Hct.
  unfold coordinateInstanceRole.
  destruct dv as [v|]; destruct rs as [[|]|].
  all: repeat first
    [ progress (cbn -[lookup insert delete fmap decide];
        unfold tryBecomeMain, readLock, removeLock, parse_lock, existsSync, readFileSync,
          unlinkSync, openSync_wx, writeFileSync_fd, closeSync, with_entries, write_ino,
          fetchMainVersion, requestMainTransition;
        unfold_m;
        rewrite ?Hen, ?Hct, ?(decide_True (P := Some EEXIST = Some EEXIST)) by done)
    | match goal with
      | |- context [decide (None ≠ Some ?v)] =>
          rewrite (decide_True (P := None ≠ Some v)) by done
      end ].
  all: reflexivity.
Qed.

End Coordinated.

(* ===================================================================== *)
(** * More of the reverse proxy *)
(* ===================================================================== *)

(** [headers.set] then [headers.get] *)
Lemma headers_set_lookup name value req k :
  headers (headers_set name value req) !! k
  = if bool_decide (k = toLowerCase name) then Some value else headers req !! k.
Proof.
  unfold headers_set. cbn -[toLowerCase].
  destruct (bool_decide_reflect (k = toLowerCase name)) as [->|Hne].
  - by rewrite lookup_insert_eq.
  - by rewrite lookup_insert_ne.
Qed.

(** Evaluating the comparisons of header names. *)
Ltac compare_names :=
  repeat match goal with
         | |- context [bool_decide (?a = ?b)] =>
             let v := eval vm_compute in (bool_decide (a = b)) in
             change (bool_decide (a = b)) with v
         end;
  cbn match.

(** The four headers, value by value. *)
Lemma annotate_proxy_headers targetPort md raw :
  let up := upstream_request targetPort (Some md) raw in
  headers up !! "x-proxy-main-port" = Some (pretty (mainPort md ?? targetPort))
  ∧ headers up !! "x-proxy-main-version"
    = match truthy_string (mainVersion md) with
      | Some v => Some v
      | None => headers raw !! "x-proxy-main-version"
      end
  ∧ headers up !! "x-proxy-instance-id"
    = match truthy_string (instanceId md) with
      | Some v => Some v
      | None => headers raw !! "x-proxy-instance-id"
      end
  ∧ headers up !! "x-proxy-start-time"
    = match truthy_number (startTime md) with
      | Some t => Some (pretty t)
      | None => headers raw !! "x-proxy-start-time"
      end.
Proof.
  destruct toLowerCase_names as (Hn1 & Hn2 & Hn3 & Hn4).
  unfold upstream_request, annotate. cbn zeta.
  destruct (truthy_string (mainVersion md)), (truthy_string (instanceId md)),
    (truthy_number (startTime md)).
  all: rewrite ?headers_set_lookup, ?Hn1, ?Hn2, ?Hn3, ?Hn4.
  all: compare_names.
  all: destruct (mainPort md); repeat split; reflexivity.
Qed.

(** X17.  With metadata, the forwarded request always carries
    [X-Proxy-Main-Port], the metadata's main port or else the target
    port; [X-Proxy-Main-Version], [X-Proxy-Instance-Id] and
    [X-Proxy-Start-Time] carry the metadata's values when these are
    truthy, and when they are missing, empty or 0 the header is not
    set, so that a header of that name sent by the client reaches the
    main instance unchanged. *)
Theorem X17_proxy_header_values targetPort md raw :
  let up := upstream_request targetPort (Some md) raw in
  let sent (name : string) (value : option string) :=
    headers up !! name = match value with
                         | Some v => Some v
                         | None => headers raw !! name
                         end in
  headers up !! "x-proxy-main-port" = Some (pretty (mainPort md ?? targetPort))
  ∧ sent "x-proxy-main-version" (truthy_string (mainVersion md))
  ∧ sent "x-proxy-instance-id" (truthy_string (instanceId md))
  ∧ sent "x-proxy-start-time" (pretty <$> truthy_number (startTime md))
  ∧ truthy_string (Some EmptyString) = None
  ∧ truthy_number (Some 0) = None.
Proof.
  destruct (annotate_proxy_headers targetPort md raw) as (Hp & Hv & Hi & Ht).
  cbn zeta. rewrite Hp, Hv, Hi, Ht.
  repeat split. by destruct (truthy_number (startTime md)).
Qed.

(** X18.  A proxy started by [startHonoProxy] with metadata sends the
    target port as [X-Proxy-Main-Port] on every request, whatever the
    caller's metadata holds, and one started without metadata forwards
    the incoming headers as they are. *)
Theorem X18_startHonoProxy_main_port options raw :
  let o := startHonoProxy_options options in
  let up := upstream_request (targetPort o) (metadata o) raw in
  match hp_metadata options with
  | Some _ => headers up !! "x-proxy-main-port" = Some (pretty (hp_targetPort options))
  | None => headers up = headers raw
  end.
Proof.
  destruct options as [tp lp [md|]]; cbn -[upstream_request]; [|reflexivity].
  apply (annotate_proxy_headers tp
           {| mainVersion := hp_mainVersion md; mainPort := Some tp;
              instanceId := hp_instanceId md; startTime := hp_startTime md |} raw).
Qed.


Section Passthrough.
Context `{JSON} {U : Type} (fetch : Request → M U Response).


End Passthrough.

(* ===================================================================== *)
(** * More of the starter *)
(* ===================================================================== *)

Lemma split_at_none {A} (f : A → bool) l pre e rest :
  split_at f l = None → l = (pre ++ e :: rest)%list → f e = true → False.
Proof.
  revert pre. induction l as [|x t IH]; intros pre Hs Hl He.
  - by destruct pre.
  - simpl in Hs. destruct (f x) eqn:Hx; [done|].
    destruct (split_at f t) as [[[? ?] ?]|] eqn:Ht; [done|].
    destruct pre as [|y pre]; simpl in Hl; injection Hl as -> ->.
    + congruence.
    + eauto.
Qed.

Lemma split_at_unique {A} (f : A → bool) l p0 e0 r0 pre e rest :
  split_at f l = Some (p0, e0, r0) → split_at f r0 = None →
  l = (pre ++ e :: rest)%list → f e = true →
  pre = p0 ∧ e = e0 ∧ rest = r0.
Proof.
  revert p0 pre. induction l as [|x t IH]; intros p0 pre Hs Hr Hl He.
  - by destruct pre.
  - simpl in Hs. destruct (f x) eqn:Hx.
    + injection Hs as <- <- <-.
      destruct pre as [|y pre]; simpl in Hl; injection Hl as -> ->; [done|].
      exfalso. eapply split_at_none; eauto.
    + destruct (split_at f t) as [[[p1 e1] r1]|] eqn:Ht; [|done].
      injection Hs as <- <- <-.
      destruct pre as [|y pre]; simpl in Hl; injection Hl as -> ->; [congruence|].
      destruct (IH p1 pre eq_refl Hr eq_refl He) as (-> & -> & ->). done.
Qed.

(** Solving [Htr : concrete trace = pre ++ e :: rest] with
    [He : f e = true] when at most one event of the trace satisfies
    [f]. *)
Ltac find_event f Htr He :=
  lazymatch type of Htr with
  | ?l = _ =>
      let s := eval cbv [split_at f] in (split_at f l) in
      lazymatch s with
      | None => exfalso; exact (split_at_none f l _ _ _ eq_refl Htr He)
      | Some (?p, ?x, ?r) =>
          destruct (split_at_unique f l p x r _ _ _ eq_refl eq_refl Htr He)
            as (-> & -> & ->)
      end
  end.

Section MainBranch.
Context {W : Type} (h : ∀ X, StarterCall X → M W X).

(** X21.  In every run of [startMcpServer], a server is started at
    most once and as the last call: the stdio server in stdio mode,
    the Hono server on the port of the command line otherwise; before
    it [tryBecomeMain] has returned [true] and [ensurePortAvailable]
    has returned [true] for that port, a provided [onBeforeStart] hook
    has just returned, and the run starts no proxy and asks the
    instance manager nothing about the election. *)
Theorem X21_startMcpServer_server_start config cliOptions w :
  ∀ res w' tr,
    run (@log_starter) h (startMcpServer config cliOptions) w = (res, w', tr) →
  ∀ pre e rest, tr = (pre ++ e :: rest)%list → is_server_start e = true →
  rest = []
  ∧ starts_for config cliOptions e
  ∧ SMgr (EvTryBecomeMain (Ok true)) ∈ pre
  ∧ SEnsurePortAvailable (cli_port cliOptions) (cli_killExisting cliOptions) (Ok true) ∈ pre
  ∧ (onBeforeStart config = true → last pre = Some (SOnBeforeStart (Ok tt)))
  ∧ Forall (λ e, is_proxy_start e = false ∧ is_election_call e = false) tr.
Proof.
  intros res w' tr Hrun pre e rest Htr He.
  destruct config as [sn sv cim oi obs ols], cliOptions as [cp cm cl ch ck].
  unfold startMcpServer, when in Hrun. revert Hrun.
  destruct ch, oi, cim, cm; run_cases h.
  all: intros [= <- <- <-].
  all: find_event is_server_start Htr He.
  all: split; [reflexivity|].
  all: split; [unfold starts_for; cbn; eauto|].
  all: split; [repeat constructor|].
  all: split; [repeat constructor|].
  all: split; [cbn; first [discriminate | reflexivity | intros _; reflexivity]|].
  all: repeat constructor.
Qed.

(** X22.  In every run of [startMcpServer] in which
    [ensurePortAvailable] answers [false], that is the last call, it
    was asked about the port of the command line with the
    [killExisting] of the command line, and the run throws: 'Port ...
    is already in use and --no-kill was provided' when killing was
    off, 'Unable to free port ...' otherwise; no server and no proxy
    is started and [onBeforeStart] is not called. *)
Theorem X22_startMcpServer_port_taken config cliOptions w :
  ∀ res w' tr,
    run (@log_starter) h (startMcpServer config cliOptions) w = (res, w', tr) →
  ∀ pre e rest, tr = (pre ++ e :: rest)%list → is_port_refusal e = true →
  rest = []
  ∧ e = SEnsurePortAvailable (cli_port cliOptions) (cli_killExisting cliOptions) (Ok false)
  ∧ res = Throw (port_taken_error config cliOptions)
  ∧ Forall (λ e, is_server_start e = false ∧ is_proxy_start e = false
                 ∧ ∀ r, e ≠ SOnBeforeStart r) tr.
Proof.
  intros res w' tr Hrun pre e rest Htr He.
  destruct config as [sn sv cim oi obs ols], cliOptions as [cp cm cl ch ck].
  unfold startMcpServer, when in Hrun. revert Hrun.
  destruct ch, oi, cim, cm; run_cases h.
  all: intros [= <- <- <-].
  all: find_event is_port_refusal Htr He.
  all: split; [reflexivity|].
  all: split; [reflexivity|].
  all: split; [reflexivity|].
  all: repeat constructor; discriminate.
Qed.

(** With [help] set the run shows the help and exits. *)
Lemma startMcpServer_help config cliOptions w res w' tr :
  cli_help cliOptions = true →
  run (@log_starter) h (startMcpServer config cliOptions) w = (res, w', tr) →
  Forall (λ e, is_help_call e = true) tr ∧ ∃ err, res = Throw err.
Proof.
  destruct config as [sn sv cim oi obs ols], cliOptions as [cp cm cl ch ck].
  cbn. intros ->. unfold startMcpServer, when.
  run_cases h; intros [= <- <- <-]; (split; [repeat constructor|eauto]).
Qed.

End MainBranch.

(* ===================================================================== *)
(** * The Hono starter *)
(* ===================================================================== *)

Lemma ends_with_error {A} err (tr : list (A * option JsError)) :
  ends_in_error err tr →
  ∃ pre step, tr = (pre ++ [(step, Some err)])%list ∧ Forall (λ e, e.2 = None) pre.
Proof.
  induction tr as [|[st e] [|e' t] IH]; simpl; [done| |].
  - intros ->. by exists [], st.
  - intros [He Ht]. destruct (IH Ht) as (pre & step & -> & Hpre).
    exists ((st, e) :: pre), step. split; [done|by constructor].
Qed.

Section Hono.
Context {W : Type} (h : ∀ X, HonoCall X → M W X).

(** X24.  [startHonoMcpServer] makes its calls in the order
    [onBeforeStart], [createHonoMcpServer], [configureApp],
    [setupRoutes], [serve], [onAfterStart], leaving out the hooks not
    provided; a run that returns has made all of them and none has
    thrown; a call that throws is the last one and its error rejects
    the promise, so [serve] is not reached when an earlier call
    throws, and a throwing [onAfterStart] rejects the promise with the
    server already started. *)
Theorem X24_startHonoMcpServer_order options w :
  let '(res, _, tr) := run (@log_hono) h (startHonoMcpServer options) w in
  tr.*1 `prefix_of` hono_plan options
  ∧ match res with
    | Ok _ => tr.*1 = hono_plan options ∧ Forall (λ e, e.2 = None) tr
    | Throw err =>
        ∃ pre step, tr = (pre ++ [(step, Some err)])%list ∧ Forall (λ e, e.2 = None) pre
    end.
Proof.
  destruct options as [p ca sr bs afs]. unfold startHonoMcpServer, when, hono_plan.
  destruct bs, ca, sr, afs; run_cases h.
  all: split;
    [ eexists; cbn; reflexivity
    | first [ split; [reflexivity|repeat constructor]
            | apply ends_with_error; cbn; tauto ] ].
Qed.

End Hono.

(* ===================================================================== *)
(** * The tool handlers *)
(* ===================================================================== *)

Section Tools.
Import Handlers.
Context {U Schema Args Input R : Type}.
Context (zod_parse : Schema → Args → Result Input).

Lemma toolMap_snoc (tools : list (@ToolSpec U Schema Input R)) t :
  toolMap (tools ++ [t]) = <[name t := t]> (toolMap tools).
Proof. unfold toolMap. by rewrite foldl_app. Qed.

Lemma toolMap_lookup (tools : list (@ToolSpec U Schema Input R)) n :
  toolMap tools !! n = last_named n tools.
Proof.
  unfold last_named.
  induction tools as [|t tools IH] using rev_ind; [done|].
  rewrite toolMap_snoc, filter_app, filter_cons, filter_nil.
  destruct (decide (name t = n)) as [<-|Hne].
  - rewrite lookup_insert_eq. by rewrite last_snoc.
  - rewrite lookup_insert_ne by done. by rewrite app_nil_r.
Qed.

(** X29.  [handleToolCall] goes to the last tool of the list
    registered under the name and runs it on what its schema makes of
    the arguments; when the schema refuses them the tool is not run
    and the state is untouched; and it throws [Unknown tool: name],
    without running anything, exactly for the names that [listTools]
    does not list, while [listTools] lists every tool of the list,
    shadowed duplicates included. *)
Theorem X29_handleToolCall_dispatch (tools : list (@ToolSpec U Schema Input R)) n args s :
  handleToolCall zod_parse tools n args s
  = match last_named n tools with
    | Some t =>
        match zod_parse (schema t) args with
        | Ok input => exec t input s
        | Throw err => (Throw err, s)
        end
    | None => (Throw (Error ("Unknown tool: " +:+ n)), s)
    end
  ∧ (last_named n tools = None ↔ n ∉ l_name <$> listTools tools)
  ∧ l_name <$> listTools tools = name <$> tools.
Proof.
  split; [|split].
  - unfold handleToolCall. rewrite toolMap_lookup.
    destruct (last_named n tools) as [t|]; [|done].
    unfold mbind, M_bind, bind, lift_result. by destruct (zod_parse _ _).
  - unfold last_named, listTools. rewrite <- list_fmap_compose.
    rewrite last_None. split.
    + intros Hnil (t & Heq & Hin)%list_elem_of_fmap. cbn in Heq.
      assert (t ∈ filter (λ t0, name t0 = n) tools) as Hf
        by (apply list_elem_of_filter; done).
      rewrite Hnil in Hf. by apply elem_of_nil in Hf.
    + intros Hn. destruct (filter _ tools) as [|t l] eqn:Hf; [done|]. exfalso.
      assert (t ∈ filter (λ t0, name t0 = n) tools) as [Ht Hin]%list_elem_of_filter
        by (rewrite Hf; left).
      apply Hn. apply list_elem_of_fmap. eauto.
  - unfold listTools. by rewrite <- list_fmap_compose.
Qed.

End Tools.

(* ===================================================================== *)
(** * The command line *)
(* ===================================================================== *)

Section Strings.
Import JsString.

Lemma split_cons c s : ∃ piece pieces, split c s = piece :: pieces.
Proof.
  induction s as [|d s IH]; simpl; [eauto|].
  destruct (decide (d = c)); [eauto|].
  destruct IH as (p & ps & ->). eauto.
Qed.

Lemma split_includes c s :
  includes c s = true → ∃ piece value pieces, split c s = piece :: value :: pieces.
Proof.
  induction s as [|d s IH]; simpl; [done|].
  destruct (decide (d = c)).
  - intros _. destruct (split_cons c s) as (p & ps & ->). eauto.
  - intros Hi. destruct (IH Hi) as (p & v & ps & ->). eauto.
Qed.

Lemma includes_false_flag arg :
  arg ∈ ["--help"; "-h"; "--local"; "--no-kill"] → includes "=" arg = false.
Proof. intros Hin. repeat (apply elem_of_cons in Hin as [->|Hin]; [reflexivity|]). by apply elem_of_nil in Hin. Qed.

Lemma mode_asked_singleton arg :
  mode_asked [arg]
  = if decide (arg = "--stdio") then Some stdio
    else if decide (arg = "--http" ∨ arg = "--sse") then Some http
    else None.
Proof.
  unfold mode_asked, mode_flags. rewrite filter_cons, filter_nil.
  destruct (decide (arg ∈ _)) as [Hin|Hnin]; simpl.
  - destruct (decide (arg = "--stdio")); [done|].
    rewrite decide_True; [done|set_solver].
  - rewrite decide_False by set_solver. rewrite decide_False by set_solver. done.
Qed.

Lemma mode_asked_none arg :
  arg ∉ mode_flags → mode_asked [arg] = None.
Proof.
  intros Hn. unfold mode_asked. rewrite filter_cons, filter_nil.
  by rewrite decide_False.
Qed.

Lemma includes_false_mode_flag arg : arg ∈ mode_flags → includes "=" arg = false.
Proof.
  intros Hin. unfold mode_flags in Hin.
  repeat (apply elem_of_cons in Hin as [->|Hin]; [reflexivity|]).
  by apply elem_of_nil in Hin.
Qed.

Lemma mode_asked_cons arg args :
  mode_asked (arg :: args)
  = match mode_asked args with
    | Some m => Some m
    | None => mode_asked [arg]
    end.
Proof.
  unfold mode_asked. rewrite !filter_cons, filter_nil.
  destruct (decide (arg ∈ mode_flags)); simpl.
  - destruct (filter _ args) as [|f l] eqn:Hf; [done|].
    change (arg :: f :: l) with ([arg] ++ f :: l)%list.
    rewrite last_app. by destruct (last (f :: l)) eqn:Hl.
  - by destruct (last _).
Qed.

Lemma mode_asked_stdio args : mode_asked args = Some stdio → "--stdio" ∈ args.
Proof.
  unfold mode_asked. destruct (last _) as [flag|] eqn:Hl; [|done].
  destruct (decide (flag = "--stdio")) as [->|]; [|done]. intros _.
  apply last_Some in Hl as [l' Hl].
  assert ("--stdio" ∈ filter (.∈ mode_flags) args) as [_ ?]%list_elem_of_filter; [|done].
  rewrite Hl. set_solver.
Qed.

End Strings.

Section CommandLine.
Import JsString CliParser.
Context {U : Type} (config : @CliParserConfig U) (args : list string).

(** An argument with [=] whose name is not [--port] is refused, before
    any handler of the caller is looked up. *)
Lemma parse_arg_unknown_option i arg options s :
  includes "=" arg = true → before_eq arg ≠ "--port" →
  parse_arg config args i arg options s
  = (Throw (Error ("Unknown option: " +:+ before_eq arg)), s).
Proof.
  intros Hi Hne. unfold parse_arg, before_eq in *. rewrite Hi.
  destruct (split_includes _ _ Hi) as (p & v & ps & Hs). rewrite Hs in *. simpl in *.
  destruct (decide (p = "--port")); [done|reflexivity].
Qed.

(** What one iteration does when the caller has no flag handlers. *)
Lemma parse_arg_builtin i arg options s i' options' s' :
  customFlagHandlers config = None →
  parse_arg config args i arg options s = (Ok (i', options'), s') →
  s' = s
  ∧ (i' = S i
     ∨ i' = S (S i) ∧ ∃ portArg, args !! S i = Some portArg
                                 ∧ startsWith "-" portArg = false)
  ∧ (cli_port options' = cli_port options ∨ valid_port (cli_port options'))
  ∧ cli_help options'
    = cli_help options || bool_decide (arg ∈ ["--help"; "-h"])
  ∧ cli_local options' = cli_local options || bool_decide (arg ∈ ["--local"])
  ∧ negb (cli_killExisting options')
    = negb (cli_killExisting options) || bool_decide (arg ∈ ["--no-kill"])
  ∧ cli_mode options' = mode_asked [arg] ?? cli_mode options.
Proof.
  intros Hnone. unfold parse_arg, valid_port. rewrite Hnone. unfold_m. cbn [mbind option_bind].
  destruct (includes "=" arg) eqn:Hinc.
  { assert (Hflag : ∀ names, names ⊆ ["--help"; "-h"; "--local"; "--no-kill"] →
                             bool_decide (arg ∈ names) = false).
    { intros names Hsub. apply bool_decide_eq_false. intros Hin.
      apply Hsub, includes_false_flag in Hin. congruence. }
    assert (Hmode : mode_asked [arg] = None).
    { apply mode_asked_none. intros Hin%includes_false_mode_flag. congruence. }
    destruct (take 2 (split "=" arg)) as [|o [|v [|? ?]]]; try discriminate.
    destruct (decide (o = "--port")); [|discriminate].
    destruct (parseInt v) as [p|]; [|discriminate].
    destruct (Z.ltb_spec p 1); [discriminate|].
    destruct (Z.ltb_spec 65535 p); [discriminate|]. simpl.
    intros [= <- <- <-]. simpl.
    rewrite !Hflag, !orb_false_r, Hmode by set_solver. auto 10 with lia. }
  destruct (decide (arg = "--port" ∨ arg = "-p")) as [Hp|_].
  { assert (Hflag : ∀ names, names ⊆ ["--help"; "-h"; "--local"; "--no-kill"] →
                             bool_decide (arg ∈ names) = false).
    { intros names Hsub. apply bool_decide_eq_false. intros Hin. apply Hsub in Hin.
      destruct Hp as [-> | ->]; set_solver. }
    assert (Hmode : mode_asked [arg] = None).
    { apply mode_asked_none. unfold mode_flags. destruct Hp as [-> | ->]; set_solver. }
    destruct (args !! S i) as [portArg|] eqn:Hnext; [|discriminate].
    destruct (bool_decide (portArg = EmptyString)); [discriminate|].
    destruct (startsWith "-" portArg) eqn:Hsw; [discriminate|]. simpl.
    destruct (parseInt portArg) as [p|]; [|discriminate].
    destruct (Z.ltb_spec 0 p); [|discriminate].
    destruct (Z.leb_spec p 65535); [|discriminate]. simpl.
    intros [= <- <- <-]. simpl.
    rewrite !Hflag, !orb_false_r, Hmode by set_solver. split; [done|].
    split; [right; eauto|]. auto 10 with lia. }
  rewrite mode_asked_singleton.
  repeat match goal with
         | |- context [decide ?P] => destruct (decide P) as [?|?]
         end.
  all: try (intros [= <- <- <-]); simpl.
  all: repeat match goal with H : _ ∨ _ |- _ => destruct H end; subst; simpl.
  all: try discriminate.
  all: try (rewrite ?orb_false_r, ?orb_true_r; auto 10; fail).
  all: try (exfalso; tauto).
  destruct (startsWith "-" arg); [discriminate|]. intros [= <- <- <-].
  rewrite !bool_decide_false, !orb_false_r by set_solver. auto 10.
Qed.

(** The iteration always advances the index. *)
Lemma parse_arg_advances i arg options s i' options' s' :
  parse_arg config args i arg options s = (Ok (i', options'), s') → (i < i')%nat.
Proof.
  unfold parse_arg. unfold_m.
  destruct (includes "=" arg).
  { destruct (take 2 (split "=" arg)) as [|o [|v [|? ?]]]; try discriminate.
    destruct (decide _); [|discriminate].
    destruct (parseInt v) as [p|]; [|discriminate].
    destruct (_ || _); [discriminate|]. intros [= <- _ _]. lia. }
  repeat match goal with
         | |- context [decide ?P] => destruct (decide P) as [?|?]
         end; try (intros [= <- _ _]; lia).
  - destruct (args !! S i) as [portArg|]; [|discriminate].
    destruct (_ && _); [|discriminate].
    destruct (parseInt portArg) as [p|]; [|discriminate].
    destruct (_ && _); [|discriminate]. intros [= <- _ _]. lia.
  - match goal with
    | |- context [match ?x with Some _ => _ | None => _ end] => destruct x as [handler|]
    end.
    + destruct (handler _ s) as [[[[k|] o]|] s1]; try discriminate.
      * destruct (0 <? k); intros [= <- _ _]; lia.
      * intros [= <- _ _]; lia.
    + destruct (startsWith "-" arg); [discriminate|]. intros [= <- _ _]. lia.
Qed.

(** The loop never runs out of fuel. *)
Lemma parse_loop_fuel fuel1 fuel2 i options s :
  (List.length args ≤ i + fuel1)%nat → (List.length args ≤ i + fuel2)%nat →
  parse_loop config args fuel1 i options s = parse_loop config args fuel2 i options s.
Proof.
  revert fuel2 i options s.
  induction fuel1 as [|fuel1 IH]; intros fuel2 i options s H1 H2.
  - destruct fuel2 as [|fuel2]; [done|]. simpl.
    rewrite lookup_ge_None_2 by lia. done.
  - destruct fuel2 as [|fuel2]; simpl.
    + rewrite lookup_ge_None_2 by lia. done.
    + destruct (args !! i) as [arg|] eqn:Harg; [|done].
      apply lookup_lt_Some in Harg.
      unfold mbind, M_bind, bind.
      destruct (parse_arg config args i arg options s) as [[[i' o']|err] s'] eqn:Hstep;
        [|done].
      apply parse_arg_advances in Hstep. apply IH; lia.
Qed.

Lemma parse_loop_builtin fuel i options s options' s' :
  customFlagHandlers config = None →
  parse_loop config args fuel i options s = (Ok options', s') →
  s' = s ∧ (cli_port options' = cli_port options ∨ valid_port (cli_port options')).
Proof.
  intros Hnone. revert i options.
  induction fuel as [|fuel IH]; intros i options; simpl.
  { intros [= <- <-]. auto. }
  destruct (args !! i) as [arg|]; [|intros [= <- <-]; by auto].
  unfold mbind, M_bind, bind.
  destruct (parse_arg config args i arg options s) as [[[i1 o1]|err] s1] eqn:Hstep;
    [|discriminate].
  destruct (parse_arg_builtin _ _ _ _ _ _ _ Hnone Hstep) as (-> & _ & Hport & _).
  intros Hloop. destruct (IH _ _ Hloop) as (-> & Hport').
  split; [done|]. destruct Hport' as [->|]; auto.
Qed.

(** A flag that an iteration can only switch on, by one of [names]. *)
Lemma parse_loop_flag (get : BaseCliOptions → bool) (names : list string) :
  customFlagHandlers config = None →
  (∀ i arg options s i' options' s',
     parse_arg config args i arg options s = (Ok (i', options'), s') →
     get options' = get options || bool_decide (arg ∈ names)) →
  (∀ name, name ∈ names → startsWith "-" name = true) →
  ∀ fuel i options s options' s',
    (List.length args ≤ i + fuel)%nat →
    parse_loop config args fuel i options s = (Ok options', s') →
    get options' = true
    ↔ get options = true
      ∨ ∃ j name, (i ≤ j)%nat ∧ args !! j = Some name ∧ name ∈ names.
Proof.
  intros Hnone Hget Hdash.
  induction fuel as [|fuel IH]; intros i options s options' s' Hlen; simpl.
  { intros [= <- <-]. split; [auto|]. intros [?|(j & name & Hj & Hl & _)]; [done|].
    apply lookup_lt_Some in Hl. lia. }
  destruct (args !! i) as [arg|] eqn:Harg.
  2:{ intros [= <- <-]. split; [auto|]. intros [?|(j & name & Hj & Hl & _)]; [done|].
      apply lookup_lt_Some in Hl. apply lookup_ge_None in Harg. lia. }
  unfold mbind, M_bind, bind.
  destruct (parse_arg config args i arg options s) as [[[i1 o1]|err] s1] eqn:Hstep;
    [|discriminate].
  pose proof (Hget _ _ _ _ _ _ _ Hstep) as Hg.
  destruct (parse_arg_builtin _ _ _ _ _ _ _ Hnone Hstep) as (-> & Hi1 & _).
  intros Hloop. rewrite (IH i1 o1 s options' s' ltac:(lia) Hloop), Hg.
  rewrite orb_true_iff, bool_decide_eq_true. split.
  - intros [[?|Hin]|(j & name & Hj & Hl & Hin)]; [by left|right..].
    + exists i, arg. split; [lia|done].
    + exists j, name. split; [lia|done].
  - intros [?|(j & name & Hj & Hl & Hin)]; [by auto|].
    destruct (decide (j = i)) as [->|Hne].
    { left. right. congruence. }
    right. exists j, name. split; [|done].
    destruct Hi1 as [->|(-> & portArg & Hnext & Hsw)]; [lia|].
    destruct (decide (j = S i)) as [->|]; [|lia].
    rewrite Hl in Hnext. injection Hnext as <-.
    rewrite (Hdash _ Hin) in Hsw. discriminate.
Qed.

Lemma parse_loop_mode fuel i options s options' s' :
  customFlagHandlers config = None →
  (List.length args ≤ i + fuel)%nat →
  parse_loop config args fuel i options s = (Ok options', s') →
  cli_mode options' = mode_asked (drop i args) ?? cli_mode options.
Proof.
  intros Hnone. revert i options.
  induction fuel as [|fuel IH]; intros i options Hlen; simpl.
  { intros [= <- <-]. by rewrite drop_ge by lia. }
  destruct (args !! i) as [arg|] eqn:Harg.
  2:{ intros [= <- <-]. apply lookup_ge_None in Harg. by rewrite drop_ge by lia. }
  unfold mbind, M_bind, bind.
  destruct (parse_arg config args i arg options s) as [[[i1 o1]|err] s1] eqn:Hstep;
    [|discriminate].
  destruct (parse_arg_builtin _ _ _ _ _ _ _ Hnone Hstep)
    as (-> & Hi1 & _ & _ & _ & _ & Hmode).
  intros Hloop.
  erewrite (drop_S _ _ _ Harg), (mode_asked_cons arg).
  destruct Hi1 as [->|(-> & portArg & Hnext & Hsw)].
  - rewrite (IH (S i) o1 ltac:(lia) Hloop), Hmode. by destruct (mode_asked (drop _ _)).
  - rewrite (IH (S (S i)) o1 ltac:(lia) Hloop), Hmode.
    erewrite (drop_S _ _ _ Hnext), (mode_asked_cons portArg).
    rewrite (mode_asked_none portArg).
    + by destruct (mode_asked (drop _ _)).
    + unfold mode_flags. intros Hin.
      repeat (apply elem_of_cons in Hin as [->|Hin]; [discriminate|]).
      by apply elem_of_nil in Hin.
Qed.

(** X27.  Without hooks of the caller, the mode of a command line
    that parses is the one its last mode flag asks for ([--stdio] for
    stdio, [--http] or [--sse] for http) and the default mode when it
    has none; and whenever the parsed mode is stdio without stdio
    being the default, [isStdioMode] answers [true] for the process
    started with these arguments. *)
Theorem X27_parseCliArgs_mode s options s' :
  no_hooks config →
  parseCliArgs config args s = (Ok options, s') →
  cli_mode options = mode_asked args ?? (defaultMode config ?? http)
  ∧ (cli_mode options = stdio → defaultMode config ≠ Some stdio →
     ∀ node script env, isStdioMode (node :: script :: args) env = true).
Proof.
  intros [Hnone Hparser]. unfold parseCliArgs. rewrite Hparser.
  unfold mbind, M_bind, bind.
  set (o0 := {| cli_port := _ |}).
  destruct (parse_loop config args (List.length args) 0 o0 s) as [[o1|err] s1] eqn:Hloop;
    [|discriminate].
  intros [= <- <-].
  pose proof (parse_loop_mode (List.length args) 0%nat _ _ _ _ Hnone (le_n _) Hloop) as Hm.
  rewrite drop_0 in Hm. simpl in Hm. split; [done|].
  intros Hstdio Hdef node script env. rewrite Hm in Hstdio.
  unfold isStdioMode. rewrite bool_decide_true; [done|].
  do 2 right. apply mode_asked_stdio.
  destruct (mode_asked args) as [m|]; simpl in Hstdio; [by subst|].
  destruct (defaultMode config) as [[|]|]; simpl in Hstdio; done.
Qed.

(** A flag of the parsed options is on exactly when it was on at
    the start or one of its names is among the arguments. *)
Lemma parseCliArgs_flag (get : BaseCliOptions → bool) (names : list string)
    s options s' :
  no_hooks config →
  (∀ i arg options s i' options' s',
     parse_arg config args i arg options s = (Ok (i', options'), s') →
     get options' = get options || bool_decide (arg ∈ names)) →
  (∀ name, name ∈ names → startsWith "-" name = true) →
  parseCliArgs config args s = (Ok options, s') →
  get options = true
  ↔ get {| cli_port := defaultPort config ?? 8989;
           cli_mode := defaultMode config ?? http;
           cli_local := false; cli_help := false; cli_killExisting := true |} = true
    ∨ ∃ name, name ∈ names ∧ name ∈ args.
Proof.
  intros [Hnone Hparser] Hget Hdash. unfold parseCliArgs. rewrite Hparser.
  unfold mbind, M_bind, bind.
  set (o0 := {| cli_port := _ |}).
  destruct (parse_loop config args (List.length args) 0 o0 s) as [[o1|err] s1] eqn:Hloop;
    [|discriminate].
  intros [= <- <-].
  rewrite (parse_loop_flag get names Hnone Hget Hdash (List.length args) 0%nat o0 s o1 s1
             (le_n _) Hloop).
  apply or_iff_compat_l. split.
  - intros (j & name & _ & Hl & Hn). exists name. split; [done|].
    by eapply list_elem_of_lookup_2.
  - intros (name & Hn & Ha). apply list_elem_of_lookup_1 in Ha as [j Hj].
    exists j, name. split; [lia|done].
Qed.

Lemma parseCliArgs_help s options s' :
  no_hooks config →
  parseCliArgs config args s = (Ok options, s') →
  cli_help options = true ↔ "--help" ∈ args ∨ "-h" ∈ args.
Proof.
  intros Hno Hparse.
  rewrite (parseCliArgs_flag cli_help ["--help"; "-h"] s options s' Hno); [| | |done].
  - simpl. split.
    + intros [?|(name & Hn & Ha)]; [done|]. set_solver.
    + intros [?|?]; right; [exists "--help"|exists "-h"]; set_solver.
  - intros ? ? ? ? ? ? ? Hs.
    by destruct (parse_arg_builtin _ _ _ _ _ _ _ (proj1 Hno) Hs) as (_ & _ & _ & ? & _).
  - intros name Hn. set_solver.
Qed.

(** X25.  Without hooks of the caller, a command line that parses
    leaves the caller's state alone and sets the flags by exactly
    their arguments: [help] is on iff [--help] or [-h] is among the
    arguments, [local] iff [--local] is, and [killExisting] is off iff
    [--no-kill] is; an argument taken as the value of [--port] is
    never one of them. *)
Theorem X25_parseCliArgs_flags s options s' :
  no_hooks config →
  parseCliArgs config args s = (Ok options, s') →
  s' = s
  ∧ (cli_help options = true ↔ "--help" ∈ args ∨ "-h" ∈ args)
  ∧ (cli_local options = true ↔ "--local" ∈ args)
  ∧ (cli_killExisting options = false ↔ "--no-kill" ∈ args).
Proof.
  intros Hno Hparse. split; [|split; [|split]].
  - destruct Hno as [Hnone Hparser]. revert Hparse.
    unfold parseCliArgs. rewrite Hparser. unfold mbind, M_bind, bind.
    destruct (parse_loop _ _ _ _ _ s) as [[o1|err] s1] eqn:Hloop; [|discriminate].
    intros [= <- <-]. by destruct (parse_loop_builtin _ _ _ _ _ _ Hnone Hloop).
  - by eapply parseCliArgs_help.
  - rewrite (parseCliArgs_flag cli_local ["--local"] s options s' Hno); [| | |done].
    + simpl. split.
      * intros [?|(name & Hn & Ha)]; [done|]. set_solver.
      * intros ?; right; exists "--local"; set_solver.
    + intros ? ? ? ? ? ? ? Hs.
      by destruct (parse_arg_builtin _ _ _ _ _ _ _ (proj1 Hno) Hs)
        as (_ & _ & _ & _ & ? & _).
    + intros name Hn. set_solver.
  - rewrite <- negb_true_iff.
    rewrite (parseCliArgs_flag (λ o, negb (cli_killExisting o)) ["--no-kill"]
               s options s' Hno); [| | |done].
    + simpl. split.
      * intros [?|(name & Hn & Ha)]; [done|]. set_solver.
      * intros ?; right; exists "--no-kill"; set_solver.
    + intros ? ? ? ? ? ? ? Hs.
      by destruct (parse_arg_builtin _ _ _ _ _ _ _ (proj1 Hno) Hs)
        as (_ & _ & _ & _ & _ & ? & _).
    + intros name Hn. set_solver.
Qed.

(** X26.  Without hooks of the caller, the port of a command line
    that parses is the default port or a port between 1 and 65535, so
    [validateCliOptions] accepts the parsed options whenever the
    default port is valid. *)
Theorem X26_parseCliArgs_port s options s' :
  no_hooks config →
  parseCliArgs config args s = (Ok options, s') →
  (cli_port options = defaultPort config ?? 8989 ∨ valid_port (cli_port options))
  ∧ (valid_port (defaultPort config ?? 8989) →
     validateCliOptions options s' = (Ok tt, s')).
Proof.
  intros [Hnone Hparser]. unfold parseCliArgs. rewrite Hparser.
  unfold mbind, M_bind, bind.
  set (o0 := {| cli_port := _ |}).
  destruct (parse_loop config args (List.length args) 0 o0 s) as [[o1|err] s1] eqn:Hloop;
    [|discriminate].
  intros [= <- <-].
  destruct (parse_loop_builtin _ _ _ _ _ _ Hnone Hloop) as (-> & Hport).
  split; [done|]. intros Hd.
  assert (valid_port (cli_port o1)) as [? ?] by (destruct Hport as [->|]; done).
  unfold validateCliOptions.
  destruct (Z.ltb_spec (cli_port o1) 1); [lia|].
  destruct (Z.ltb_spec 65535 (cli_port o1)); [lia|]. reflexivity.
Qed.

End CommandLine.

(** X28.  A first argument of the form [name=value] with a name
    other than [--port] makes [parseCliArgs] throw
    [Unknown option: name], whatever handlers the caller has
    registered, for [name] or for the whole argument: none of them is
    run, and the caller's state is left alone. *)
Theorem X28_parseCliArgs_unknown_option {U} (config : @CliParser.CliParserConfig U)
    arg rest s :
  JsString.includes "=" arg = true → before_eq arg ≠ "--port" →
  CliParser.parseCliArgs config (arg :: rest) s
  = (Throw (Error ("Unknown option: " +:+ before_eq arg)), s).
Proof.
  intros Hinc Hne. unfold CliParser.parseCliArgs. simpl.
  unfold mbind, M_bind, bind.
  by rewrite parse_arg_unknown_option.
Qed.


(* ===================================================================== *)
(** * From the command line to the servers *)
(* ===================================================================== *)

Section FromArgv.
Context {U W : Type} (h : ∀ X, StarterCall X → M W X).

(** X23.  When the command line holds [--help] or [-h] and the
    caller's parser configuration has no hooks, a run of
    [startMcpServer] makes no call but [displayHelp] and
    [process.exit(0)], and does not return: either the command line is
    refused and nothing is called at all, or the help is shown and the
    process exits; in either case the instance manager is not created
    and the lock is not touched. *)
Theorem X23_startMcpServer_help_flag config defaultPort
    (cliConfig : option (@CliParser.CliParserConfig U)) args u w :
  no_hooks (starter_cliConfig (serverName config) defaultPort cliConfig) →
  "--help" ∈ args ∨ "-h" ∈ args →
  let '(res, _, tr) :=
    run (@log_starter) h (startMcpServer_argv config defaultPort cliConfig args u) w in
  Forall (λ e, is_help_call e = true) tr ∧ ∃ err, res = Throw err.
Proof.
  intros Hno Hflag. unfold startMcpServer_argv.
  destruct (CliParser.parseCliArgs _ args u) as [[o|err] u'] eqn:Hparse; simpl.
  - destruct (run _ _ _ w) as [[res w'] tr] eqn:Hrun.
    eapply startMcpServer_help; [|exact Hrun].
    by apply (parseCliArgs_help _ _ _ _ _ Hno Hparse).
  - split; [constructor|eauto].
Qed.

End FromArgv.

(* ===================================================================== *)
(** * Concrete runs *)
(* ===================================================================== *)

(** The first start on a clean host. *)
Lemma X1_tryBecomeMain_success_witness :
  let s := Demo.start ∅ in
  let s' := (@InstanceManager.tryBecomeMain JSON_text s).2 in
  @InstanceManager.tryBecomeMain JSON_text s = (Ok true, s')
  ∧ InstanceManager.role (InstanceManager.this s') = MAIN
  ∧ @InstanceManager.tryBecomeMain JSON_text s' = (Ok false, s').
Proof.
  intros s s'.
  assert (Hrun : @InstanceManager.tryBecomeMain JSON_text s = (Ok true, s'))
    by (vm_compute; reflexivity).
  split; [exact Hrun|].
  destruct (@X1_tryBecomeMain_success JSON_text s s' Hrun) as (_ & _ & _ & Hrole & Hagain).
  split; [exact Hrole|exact Hagain].
Defined.

(** A full volume: the lock file is created and stays empty. *)
Lemma X2_tryBecomeMain_failed_write_witness :
  let s := DemoMore.full_volume in
  entries (fs (InstanceManager.world s)) !! Demo.lock_file = None
  ∧ entry_fault (fs (InstanceManager.world s)) Demo.lock_file = None
  ∧ io_fault (fs (InstanceManager.world s)) = Some FaultENOSPC
  ∧ ∃ s', @InstanceManager.tryBecomeMain JSON_text s
          = (Throw (SystemError ENOSPC "write"), s')
          ∧ fst (@InstanceManager.readLock JSON_text s') = Ok None.
Proof.
  intros s.
  assert (H1 : entries (fs (InstanceManager.world s))
               !! InstanceManager._lockPath (InstanceManager.this s) = None)
    by (vm_compute; reflexivity).
  assert (H2 : entry_fault (fs (InstanceManager.world s))
                 (InstanceManager._lockPath (InstanceManager.this s)) = None)
    by reflexivity.
  assert (H3 : io_fault (fs (InstanceManager.world s)) = Some FaultENOSPC)
    by reflexivity.
  split; [exact H1|]. split; [exact H2|]. split; [exact H3|].
  destruct (@X2_tryBecomeMain_failed_write JSON_text s FaultENOSPC H1 H2 H3)
    as (s' & Hthrow & _ & _ & _ & Hread).
  exists s'. split; [exact Hthrow|exact Hread].
Defined.

(** [writeLock] then [readLock] on a clean host, with the concrete
    [JSON]. *)
Lemma X4_writeLock_readLock_witness :
  let s := Demo.start ∅ in
  let s' := (@InstanceManager.writeLock JSON_text s).2 in
  @InstanceManager.writeLock JSON_text s = (Ok tt, s')
  ∧ read_fault (fs (InstanceManager.world s)) Demo.lock_file = None
  ∧ (JsonText.parse (JsonText.stringify (InstanceManager.lock_to_json (own_lock s)))
     ≫= spec_record) = Some (own_lock s)
  ∧ @InstanceManager.readLock JSON_text s' = (Ok (Some (own_lock s)), s').
Proof.
  intros s s'.
  assert (H1 : @InstanceManager.writeLock JSON_text s = (Ok tt, s'))
    by (vm_compute; reflexivity).
  assert (H2 : read_fault (fs (InstanceManager.world s))
                 (InstanceManager._lockPath (InstanceManager.this s)) = None)
    by reflexivity.
  assert (H3 : (@JSON_parse JSON_text
                  (@JSON_stringify JSON_text (InstanceManager.lock_to_json (own_lock s)))
                ≫= spec_record) = Some (own_lock s))
    by (vm_compute; reflexivity).
  split; [exact H1|]. split; [exact H2|]. split; [exact H3|].
  exact (proj2 (@X4_writeLock_readLock JSON_text s s' H1 H2 H3)).
Defined.

(** A corrupt lock file is removed and replaced. *)
Lemma X6_removeLock_then_tryBecomeMain_witness :
  let s := Demo.start {[ Demo.lock_file := File 3 "not-json" ]} in
  entry_fault (fs (InstanceManager.world s)) Demo.lock_file = None
  ∧ io_fault (fs (InstanceManager.world s)) = None
  ∧ fst ((InstanceManager.removeLock;; @InstanceManager.tryBecomeMain JSON_text) s)
    = Ok true.
Proof.
  intros s.
  assert (H1 : entry_fault (fs (InstanceManager.world s))
                 (InstanceManager._lockPath (InstanceManager.this s)) = None)
    by reflexivity.
  assert (H2 : io_fault (fs (InstanceManager.world s)) = None) by reflexivity.
  split; [exact H1|]. split; [exact H2|].
  pose proof (@X6_removeLock_then_tryBecomeMain JSON_text s H1 H2) as Hx.
  rewrite Hx. vm_compute. reflexivity.
Defined.

(** A newcomer of another version with stale lock removal off. *)
Lemma X12_coordinate_no_stale_removal_witness :
  removeStaleLock DemoMore.no_stale_removal = Some false
  ∧ Forall (λ e, is_inspection e = false)
      (run (@log_call) (@InstanceManager_handle JSON_text)
         (coordinateInstanceRole DemoMore.no_stale_removal) DemoRun.start_with_main).2.
Proof.
  split; [reflexivity|].
  exact (proj1 (X12_coordinate_no_stale_removal (@InstanceManager_handle JSON_text)
                  DemoMore.no_stale_removal DemoRun.start_with_main eq_refl)).
Defined.

(** The first start on a clean host, coordinated. *)
Lemma X13_coordinate_main_holds_lock_witness :
  let R := run (@log_call) (@InstanceManager_handle JSON_text)
             (coordinateInstanceRole DemoRun.options) (Demo.start ∅) in
  R = (Ok (CoordinateInstanceMainResult initial None), R.1.2, R.2)
  ∧ InstanceManager.role (InstanceManager.this R.1.2) = MAIN.
Proof.
  intros R.
  assert (Hrun : R = (Ok (CoordinateInstanceMainResult initial None), R.1.2, R.2))
    by (vm_compute; reflexivity).
  split; [exact Hrun|].
  exact (proj1 (@X13_coordinate_main_holds_lock JSON_text DemoRun.options (Demo.start ∅)
                  initial None R.1.2 R.2 Hrun)).
Defined.

(** A newcomer of the main's version. *)
Lemma X14_coordinate_proxy_matches_witness :
  let s := DemoRun.start_with_main in
  let R := run (@log_call) (@InstanceManager_handle JSON_text)
             (coordinateInstanceRole DemoMore.same_version) s in
  R = (Ok (CoordinateInstanceProxyResult (Some "0.0.1")), R.1.2, R.2)
  ∧ InstanceManager.role (InstanceManager.this R.1.2)
    = InstanceManager.role (InstanceManager.this s).
Proof.
  intros s R.
  assert (Hrun : R = (Ok (CoordinateInstanceProxyResult (Some "0.0.1")), R.1.2, R.2))
    by (vm_compute; reflexivity).
  split; [exact Hrun|].
  exact (proj2 (proj2 (@X14_coordinate_proxy_matches JSON_text DemoMore.same_version s
                         (Some "0.0.1") R.1.2 R.2 Hrun))).
Defined.

(** Processes 4242 and 5151 on a clean host: both end up main. *)
Lemma X15_coordinate_reclaims_unwritten_lock_witness :
  let s1 := Demo.start ∅ in
  let s2 := DemoMore.second in
  InstanceManager._lockPath (InstanceManager.this s1)
  = InstanceManager._lockPath (InstanceManager.this s2)
  ∧ entries (fs (InstanceManager.world s2)) !! Demo.lock_file = None
  ∧ removeStaleLock DemoRun.options ≠ Some false
  ∧ let '(c1, f1) := @Race.steps JSON_text 1
                       {| Race.mgr := s1; Race.pc := Race.AtOpen |}
                       (fs (InstanceManager.world s2)) in
    let '(res, s2', tr) :=
      run (@log_call) (@InstanceManager_handle JSON_text)
        (coordinateInstanceRole DemoRun.options)
        (InstanceManager.on_world (with_fs f1) s2) in
    let '(c1', f2) := @Race.steps JSON_text 2 c1 (fs (InstanceManager.world s2')) in
    (∃ fd, Race.pc c1 = Race.AtWrite fd)
    ∧ res = Ok (CoordinateInstanceMainResult lock_missing None)
    ∧ InstanceManager.role (InstanceManager.this s2') = MAIN
    ∧ Race.pc c1' = Race.Returned true
    ∧ ∃ ino, entries f2 !! InstanceManager._lockPath (InstanceManager.this s2)
             = Some (File ino (JsonText.stringify
                                 (InstanceManager.lock_to_json (own_lock s2)))).
Proof.
  intros s1 s2.
  assert (H1 : InstanceManager._lockPath (InstanceManager.this s1)
               = InstanceManager._lockPath (InstanceManager.this s2)) by reflexivity.
  assert (H2 : entries (fs (InstanceManager.world s2))
               !! InstanceManager._lockPath (InstanceManager.this s2) = None)
    by (vm_compute; reflexivity).
  assert (H3 : removeStaleLock DemoRun.options ≠ Some false) by discriminate.
  split; [exact H1|]. split; [exact H2|]. split; [exact H3|].
  exact (@X15_coordinate_reclaims_unwritten_lock JSON_text DemoRun.options s1 s2
           H1 H2 eq_refl eq_refl H3).
Defined.

(** A directory where the lock file should be. *)
Lemma X16_coordinate_directory_lock_witness :
  let s := Demo.start {[ Demo.lock_file := Dir ]} in
  entries (fs (InstanceManager.world s)) !! Demo.lock_file = Some Dir
  ∧ (run (@log_call) (@InstanceManager_handle JSON_text)
       (coordinateInstanceRole DemoRun.options) s).1
    = (Throw TransitionDenied, s).
Proof.
  intros s.
  assert (H1 : entries (fs (InstanceManager.world s))
               !! InstanceManager._lockPath (InstanceManager.this s) = Some Dir)
    by (vm_compute; reflexivity).
  split; [exact H1|].
  exact (@X16_coordinate_directory_lock JSON_text DemoRun.options s H1
           (λ _ _, eq_refl)).
Defined.

(** The first start of 'my-server' on a clean host, in HTTP mode. *)
Lemma X21_startMcpServer_server_start_witness :
  let R := run (@log_starter) (@DemoRun.starter_handle)
             (startMcpServer DemoRun.config DemoRun.cliOptions) (Demo.start ∅) in
  let pre := [SMgr (EvTryBecomeMain (Ok true));
              SConsoleLog "[MAIN INSTANCE] Starting my-server v1.0.0";
              SEnsurePortAvailable 8989 true (Ok true)] in
  let e := SStartHonoMcpServer 8989 (Ok tt) in
  R.2 = (pre ++ e :: [])%list
  ∧ is_server_start e = true
  ∧ SMgr (EvTryBecomeMain (Ok true)) ∈ pre.
Proof.
  intros R pre e.
  assert (Htr : R.2 = (pre ++ e :: [])%list) by (vm_compute; reflexivity).
  split; [exact Htr|]. split; [reflexivity|].
  assert (Hrun : run (@log_starter) (@DemoRun.starter_handle)
                   (startMcpServer DemoRun.config DemoRun.cliOptions) (Demo.start ∅)
                 = (R.1.1, R.1.2, R.2)) by (vm_compute; reflexivity).
  exact (proj1 (proj2 (proj2
           (X21_startMcpServer_server_start (@DemoRun.starter_handle) DemoRun.config
              DemoRun.cliOptions (Demo.start ∅) R.1.1 R.1.2 R.2 Hrun pre e [] Htr
              eq_refl)))).
Defined.

(** The same start when the port cannot be freed. *)
Lemma X22_startMcpServer_port_taken_witness :
  let R := run (@log_starter) (@DemoMore.starter_handle_busy)
             (startMcpServer DemoRun.config DemoRun.cliOptions) (Demo.start ∅) in
  let pre := [SMgr (EvTryBecomeMain (Ok true));
              SConsoleLog "[MAIN INSTANCE] Starting my-server v1.0.0"] in
  let e := SEnsurePortAvailable 8989 true (Ok false) in
  R.2 = (pre ++ e :: [])%list
  ∧ is_port_refusal e = true
  ∧ R.1.1 = Throw (port_taken_error DemoRun.config DemoRun.cliOptions).
Proof.
  intros R pre e.
  assert (Htr : R.2 = (pre ++ e :: [])%list) by (vm_compute; reflexivity).
  split; [exact Htr|]. split; [reflexivity|].
  assert (Hrun : run (@log_starter) (@DemoMore.starter_handle_busy)
                   (startMcpServer DemoRun.config DemoRun.cliOptions) (Demo.start ∅)
                 = (R.1.1, R.1.2, R.2)) by (vm_compute; reflexivity).
  exact (proj1 (proj2 (proj2
           (X22_startMcpServer_port_taken (@DemoMore.starter_handle_busy) DemoRun.config
              DemoRun.cliOptions (Demo.start ∅) R.1.1 R.1.2 R.2 Hrun pre e [] Htr
              eq_refl)))).
Defined.

(** [my-server --port 3000 --help] *)
Lemma X23_startMcpServer_help_flag_witness :
  let args := ["--port"; "3000"; "--help"] in
  no_hooks (starter_cliConfig (serverName DemoRun.config) None (Some DemoMore.cliConfig))
  ∧ ("--help" ∈ args ∨ "-h" ∈ args)
  ∧ let '(res, _, tr) :=
      run (@log_starter) (@DemoRun.starter_handle)
        (startMcpServer_argv DemoRun.config None (Some DemoMore.cliConfig) args tt)
        (Demo.start ∅) in
    Forall (λ e, is_help_call e = true) tr ∧ ∃ err, res = Throw err.
Proof.
  intros args.
  assert (H1 : no_hooks (starter_cliConfig (serverName DemoRun.config) None
                           (Some DemoMore.cliConfig))) by (split; reflexivity).
  assert (H2 : "--help" ∈ args ∨ "-h" ∈ args) by (left; repeat constructor).
  split; [exact H1|]. split; [exact H2|].
  exact (X23_startMcpServer_help_flag (@DemoRun.starter_handle) DemoRun.config None
           (Some DemoMore.cliConfig) args tt (Demo.start ∅) H1 H2).
Defined.

(** [--port 3000 --stdio --no-kill extra] *)
Lemma X25_parseCliArgs_flags_witness :
  let args := ["--port"; "3000"; "--stdio"; "--no-kill"; "extra"] in
  let options := {| cli_port := 3000; cli_mode := stdio; cli_local := false;
                    cli_help := false; cli_killExisting := false |} in
  no_hooks DemoMore.cliConfig
  ∧ CliParser.parseCliArgs DemoMore.cliConfig args tt = (Ok options, tt)
  ∧ (cli_killExisting options = false ↔ "--no-kill" ∈ args).
Proof.
  intros args options.
  assert (H1 : no_hooks DemoMore.cliConfig) by (split; reflexivity).
  assert (H2 : CliParser.parseCliArgs DemoMore.cliConfig args tt = (Ok options, tt))
    by (vm_compute; reflexivity).
  split; [exact H1|]. split; [exact H2|].
  destruct (X25_parseCliArgs_flags DemoMore.cliConfig args tt options tt H1 H2)
    as (_ & _ & _ & Hkill).
  exact Hkill.
Defined.

Lemma X26_parseCliArgs_port_witness :
  let args := ["--port"; "3000"; "--stdio"; "--no-kill"; "extra"] in
  let options := {| cli_port := 3000; cli_mode := stdio; cli_local := false;
                    cli_help := false; cli_killExisting := false |} in
  no_hooks DemoMore.cliConfig
  ∧ CliParser.parseCliArgs DemoMore.cliConfig args tt = (Ok options, tt)
  ∧ (cli_port options = CliParser.defaultPort DemoMore.cliConfig ?? 8989
     ∨ valid_port (cli_port options)).
Proof.
  intros args options.
  assert (H1 : no_hooks DemoMore.cliConfig) by (split; reflexivity).
  assert (H2 : CliParser.parseCliArgs DemoMore.cliConfig args tt = (Ok options, tt))
    by (vm_compute; reflexivity).
  split; [exact H1|]. split; [exact H2|].
  exact (proj1 (X26_parseCliArgs_port DemoMore.cliConfig args tt options tt H1 H2)).
Defined.

Lemma X27_parseCliArgs_mode_witness :
  let args := ["--http"; "--port=3000"; "--stdio"] in
  let options := {| cli_port := 3000; cli_mode := stdio; cli_local := false;
                    cli_help := false; cli_killExisting := true |} in
  no_hooks DemoMore.cliConfig
  ∧ CliParser.parseCliArgs DemoMore.cliConfig args tt = (Ok options, tt)
  ∧ cli_mode options
    = mode_asked args ?? (CliParser.defaultMode DemoMore.cliConfig ?? http).
Proof.
  intros args options.
  assert (H1 : no_hooks DemoMore.cliConfig) by (split; reflexivity).
  assert (H2 : CliParser.parseCliArgs DemoMore.cliConfig args tt = (Ok options, tt))
    by (vm_compute; reflexivity).
  split; [exact H1|]. split; [exact H2|].
  exact (proj1 (X27_parseCliArgs_mode DemoMore.cliConfig args tt options tt H1 H2)).
Defined.

(** [--mode=stdio] is not an option. *)
Lemma X28_parseCliArgs_unknown_option_witness :
  JsString.includes "=" "--mode=stdio" = true
  ∧ before_eq "--mode=stdio" ≠ "--port"
  ∧ CliParser.parseCliArgs DemoMore.cliConfig ["--mode=stdio"; "--help"] tt
    = (Throw (Error "Unknown option: --mode"), tt).
Proof.
  assert (H1 : JsString.includes "=" "--mode=stdio" = true) by reflexivity.
  assert (H2 : before_eq "--mode=stdio" ≠ "--port") by (vm_compute; discriminate).
  split; [exact H1|]. split; [exact H2|].
  exact (X28_parseCliArgs_unknown_option DemoMore.cliConfig "--mode=stdio" ["--help"] tt
           H1 H2).
Defined.
